(** * OGDL: text parser productions, template flow and interpreter, log store

    A shallow embedding of the Go sources [chars.go], [productions.go],
    the template engine ([NewTemplate], [process], [simplify], [flow]) and
    the log store ([Log.Add], [Log.AddBinary], [Log.Get], [Log.GetBinary]).

    Go [int] values are modelled as [Z]; Go strings and byte slices as
    [string] (a sequence of 8-bit characters); the conversion [byte(c)]
    is written out as reduction modulo 256.  Loops of the form [for { ... }]
    are run by a fuel-bounded iterator, and a production that does not
    return within the fuel yields [Fuel].  The productions End, String and
    Variable are [End_], [String_] and [Variable_] here. *)

From Stdlib Require Import ZArith List String Ascii Bool Lia.
Import ListNotations.
Open Scope Z_scope.

(** ** Bytes and strings *)

Definition code (a : ascii) : Z := Z.of_N (N_of_ascii a).

(** Go's [byte(c)] for an [int] c. *)
Definition byte (c : Z) : ascii := ascii_of_N (Z.to_N (c mod 256)).

Fixpoint bytes (s : string) : list Z :=
  match s with
  | EmptyString => []
  | String a r => code a :: bytes r
  end.

(** [append(buf, b)] *)
Definition push (buf : string) (a : ascii) : string := (buf ++ String a "")%string.

Fixpoint repeat_push (n : nat) (a : ascii) (buf : string) : string :=
  match n with
  | O => buf
  | S k => repeat_push k a (push buf a)
  end.

(** ** chars.go *)

Definition IsTextChar (c : Z) : bool :=
  (32 <? c) && negb (c =? 40) && negb (c =? 41) && negb (c =? 44).

Definition IsEndChar (c : Z) : bool :=
  (c <? 32) && negb (c =? 9) && negb (c =? 10) && negb (c =? 13).

Definition IsBreakChar (c : Z) : bool := (c =? 10) || (c =? 13).

Definition IsSpaceChar (c : Z) : bool := (c =? 32) || (c =? 9).

Definition IsTemplateTextChar (c : Z) : bool :=
  negb (IsEndChar c) && negb (c =? 36).

(** [bytes.IndexByte([]byte("+-*/%&|!<>=~^"), byte(c)) != -1] *)
Definition IsOperatorChar (c : Z) : bool :=
  if c <? 0 then false
  else existsb (Z.eqb (c mod 256)) (bytes "+-*/%&|!<>=~^").

(** ** Event sink *)

(** Payload of an event or of a node: a Go string, a byte slice, or
    another host value, kept by the text it prints as. *)
Inductive payload : Type :=
| PString (s : string)
| PBytes (b : string)
| POther (s : string).

(** Modelled from the spec: the event handler type is not part of the
    sources at hand.  Section 4.3 gives its operations: a current depth
    and the events added so far, each with the depth it was added at. *)
Record EventHandler : Type := mkEv {
  current : Z;
  items : list (Z * payload)
}.

Definition lastAddLevel (e : EventHandler) : Z :=
  match rev (items e) with
  | (l, _) :: _ => l
  | [] => current e
  end.

(** Modelled from the spec: Add(v) appends v at the current depth. *)
Definition evAdd (v : payload) (e : EventHandler) : EventHandler :=
  mkEv (current e) (items e ++ [(current e, v)]).

(** Modelled from the spec: Inc() sets the current depth to the depth of
    the last Add plus one (the current depth stands in when nothing has
    been added yet). *)
Definition evInc (e : EventHandler) : EventHandler :=
  mkEv (lastAddLevel e + 1) (items e).

(** Modelled from the spec: Dec() sets the current depth to max(0, current - 1). *)
Definition evDec (e : EventHandler) : EventHandler :=
  mkEv (Z.max 0 (current e - 1)) (items e).

(** Modelled from the spec: SetLevel(d) sets the current depth to d. *)
Definition evSetLevel (d : Z) (e : EventHandler) : EventHandler :=
  mkEv d (items e).

Fixpoint dropFirstAt (d : Z) (l : list (Z * payload)) : list (Z * payload) :=
  match l with
  | [] => []
  | (k, v) :: r => if k =? d then r else (k, v) :: dropFirstAt d r
  end.

(** Modelled from the spec: Delete() removes the most recent Add at the
    current depth. *)
Definition evDelete (e : EventHandler) : EventHandler :=
  mkEv (current e) (rev (dropFirstAt (current e) (rev (items e)))).

(** Modelled from the spec: Level() reads the current depth. *)
Definition evLevel (e : EventHandler) : Z := current e.

(** ** Parser state and stream reader *)

Record Parser : Type := mkParser {
  input : list Z;       (* the bytes of the source *)
  pos : nat;            (* how many reads are not undone *)
  spaces : Z;           (* spaces owed by Block *)
  ind : list Z;         (* indentation of each level *)
  ev : EventHandler
}.

Definition NewParser (src : list Z) : Parser :=
  mkParser src 0 0 [] (mkEv 0 []).

Definition NewStringParser (s : string) : Parser := NewParser (bytes s).

Definition withPos (n : nat) (p : Parser) : Parser :=
  mkParser (input p) n (spaces p) (ind p) (ev p).

Definition withSpaces (n : Z) (p : Parser) : Parser :=
  mkParser (input p) (pos p) n (ind p) (ev p).

Definition withInd (t : list Z) (p : Parser) : Parser :=
  mkParser (input p) (pos p) (spaces p) t (ev p).

Definition withEv (e : EventHandler) (p : Parser) : Parser :=
  mkParser (input p) (pos p) (spaces p) (ind p) e.

(** Outcome of running a production: a value and the new parser state,
    a Go panic, or no return within the fuel. *)
Inductive Res (A : Type) : Type :=
| Ret (a : A) (p : Parser)
| Panic
| Fuel.

Arguments Ret {A} a p.
Arguments Panic {A}.
Arguments Fuel {A}.

Definition M (A : Type) : Type := Parser -> Res A.

Definition ret {A} (a : A) : M A := fun p => Ret a p.

Definition bind {A B} (m : M A) (k : A -> M B) : M B :=
  fun p => match m p with
           | Ret a p' => k a p'
           | Panic => Panic
           | Fuel => Fuel
           end.

Definition panic {A} : M A := fun _ => Panic.

Declare Scope prod_scope.
Delimit Scope prod_scope with prod.
Notation "x <- m ;; k" := (bind m (fun x => k))
  (at level 100, m at next level, right associativity) : prod_scope.
Notation "' pat <- m ;; k" := (bind m (fun x => match x with pat => k end))
  (at level 100, pat pattern, m at next level, right associativity) : prod_scope.
Notation "m ;;; k" := (bind m (fun _ => k))
  (at level 100, right associativity) : prod_scope.
Open Scope prod_scope.

(** [for { ... }]: the body either continues with a new loop state
    ([inl]) or leaves the loop with a value ([inr]). *)
Fixpoint loop {S A : Type} (fuel : nat) (body : S -> M (S + A)) (s : S) : M A :=
  match fuel with
  | O => fun _ => Fuel
  | Datatypes.S f =>
      r <- body s ;;
      match r with
      | inl s' => loop f body s'
      | inr a => ret a
      end
  end.

Definition get {A} (f : Parser -> A) : M A := fun p => Ret (f p) p.
Definition modify (f : Parser -> Parser) : M unit := fun p => Ret tt (f p).

Definition Add (s : string) : M unit := modify (fun p => withEv (evAdd (PString s) (ev p)) p).
Definition AddBytes (b : string) : M unit := modify (fun p => withEv (evAdd (PBytes b) (ev p)) p).
Definition Inc : M unit := modify (fun p => withEv (evInc (ev p)) p).
Definition Dec : M unit := modify (fun p => withEv (evDec (ev p)) p).
Definition SetLevel (d : Z) : M unit := modify (fun p => withEv (evSetLevel d (ev p)) p).
Definition Delete : M unit := modify (fun p => withEv (evDelete (ev p)) p).
Definition Level : M Z := get (fun p => evLevel (ev p)).

(** Modelled from the spec: the indentation table [ind], where [ind[d]] is
    the column at which depth d was last seen.  getLevel(n) is the smallest
    depth whose column is at least n; a column greater than all of them
    goes to the deepest depth of the table, the entry [setLevel] makes for
    the level below the last line. *)
Fixpoint firstGe (n : Z) (t : list Z) (d last : Z) : Z :=
  match t with
  | [] => last
  | c :: r => if n <=? c then d else firstGe n r (d + 1) d
  end.

Definition getLevel (n : Z) : M Z := get (fun p => firstGe n (ind p) 0 0).

Fixpoint setAt (t : list Z) (d : nat) (n : Z) : list Z :=
  match d, t with
  | O, [] => [n]
  | O, _ :: r => n :: r
  | S k, [] => 0 :: setAt [] k n
  | S k, c :: r => c :: setAt r k n
  end.

(** Modelled from the spec: setLevel(d, n) records column n for depth d;
    the table grows, zero-filled as a Go slice of int, when d is past its end. *)
Definition setLevel (d n : Z) : M unit :=
  if d <? 0 then panic
  else modify (fun p => withInd (setAt (ind p) (Z.to_nat d) n) p).

(** Modelled from the spec: [p.ind[k]], the column recorded for depth k;
    a depth at which no line has been seen reads as column 0. *)
Definition indAt (k : Z) : M Z :=
  get (fun p => nth (Z.to_nat k) (ind p) 0).

(** Modelled from the spec: [lastnl] is the number of space characters at
    the start of the current line, the line of the last byte read. *)
Fixpoint indentOf (seen : list Z) (n : Z) (lead : bool) : Z :=
  match seen with
  | [] => n
  | c :: r =>
      if IsBreakChar c then indentOf r 0 true
      else if lead && IsSpaceChar c then indentOf r (n + 1) true
      else indentOf r n false
  end.

Definition lastnl : M Z := get (fun p => indentOf (firstn (pos p) (input p)) 0 true).

Definition error : Type := string.

(** [errors.New] *)
Definition errors_New (s : string) : error := s.

Section Productions.

(** The value [Read] returns at the end of the stream. *)
Variable EOF : Z.

(** [unicode.IsLetter] and [unicode.IsDigit] of the Go library. *)
Variable unicode_IsLetter : Z -> bool.
Variable unicode_IsDigit : Z -> bool.

Definition IsLetter (c : Z) : bool := unicode_IsLetter c.
Definition IsDigit (c : Z) : bool := unicode_IsDigit c.
Definition IsTokenChar (c : Z) : bool :=
  unicode_IsLetter c || unicode_IsDigit c || (c =? 95).

(** Modelled from the spec: Read() returns the next byte of the stream,
    or the end-of-stream value. *)
Definition Read : M Z :=
  fun p => Ret (nth (pos p) (input p) EOF) (withPos (S (pos p)) p).

(** Modelled from the spec: Unread() restores one prior Read. *)
Definition Unread : M unit := modify (fun p => withPos (Nat.pred (pos p)) p).

(** Modelled from the spec: NextByteIs(c) reads one byte and keeps it
    consumed when it is c; any other byte is put back. *)
Definition NextByteIs (c : Z) : M bool :=
  ch <- Read ;;
  if ch =? c then ret true else Unread ;;; ret false.

Definition Space (fuel : nat) : M (bool * Z) :=
  sp <- get spaces ;;
  if 0 <? sp then
    modify (withSpaces 0) ;;; ret (true, sp)
  else
    c <- Read ;;
    if negb (c =? 32) && negb (c =? 9) then Unread ;;; ret (false, 0)
    else
      n <- loop fuel (fun n : Z =>
             cs <- Read ;;
             if negb (cs =? 32) && negb (cs =? 9) then Unread ;;; ret (inr n)
             else if negb (n =? 0) && (cs =? c) then ret (inl (n + 1))
             else ret (inl 0)) 1 ;;
      ret (true, n).

Definition End_ : M bool :=
  c <- Read ;;
  if (c <? 32) && negb (c =? 9) && negb (c =? 10) && negb (c =? 13) then ret true
  else Unread ;;; ret false.

Definition Break : M bool :=
  c <- Read ;;
  if c =? 13 then
    c <- Read ;;
    (if negb (c =? 10) then Unread else ret tt) ;;; ret true
  else if c =? 10 then ret true
  else Unread ;;; ret false.

Definition WhiteSpace (fuel : nat) : M bool :=
  any <- loop fuel (fun any : bool =>
           c <- Read ;;
           if negb (c =? 13) && negb (c =? 10) && negb (c =? 9) && negb (c =? 32)
           then ret (inr any)
           else ret (inl true)) false ;;
  Unread ;;; ret any.

Definition Comment (fuel : nat) : M bool :=
  c <- Read ;;
  if c =? 35 then
    loop fuel (fun _ : unit =>
      c <- Read ;;
      if IsEndChar c || IsBreakChar c then ret (inr tt)
      else if c =? 13 then
        c <- Read ;;
        (if negb (c =? 10) then Unread else ret tt) ;;; ret (inl tt)
      else ret (inl tt)) tt ;;;
    ret true
  else Unread ;;; ret false.

Definition String_ (fuel : nat) : M (string * bool) :=
  c <- Read ;;
  if negb (IsTextChar c) || (c =? 35) then Unread ;;; ret (""%string, false)
  else
    buf <- loop fuel (fun buf : string =>
             c <- Read ;;
             if negb (IsTextChar c) then Unread ;;; ret (inr buf)
             else ret (inl (push buf (byte c)))) (String (byte c) "") ;;
    ret (buf, true).

Definition Quoted (fuel : nat) : M (string * bool) :=
  cs <- Read ;;
  if negb (cs =? 34) && negb (cs =? 39) then Unread ;;; ret (""%string, false)
  else
    lnl <- lastnl ;;
    buf <- loop fuel (fun buf : string =>
             c <- Read ;;
             if c =? cs then ret (inr buf)
             else
               let buf := push buf (byte c) in
               if c =? 10 then
                 '(_, n) <- Space fuel ;;
                 ret (inl (repeat_push (Z.to_nat (n - lnl)) " "%char buf))
               else if c =? 92 then
                 c <- Read ;;
                 let buf := if negb (c =? 34) && negb (c =? 39)
                            then push buf "\"%char else buf in
                 ret (inl (push buf (byte c)))
               else ret (inl buf)) ""%string ;;
    ret (buf, true).

Definition Scalar (fuel : nat) : M (string * bool) :=
  '(b, ok) <- Quoted fuel ;;
  if ok then ret (b, true) else String_ fuel.

(** [buffer.Truncate(buffer.Len() - 1)] *)
Definition dropLast (s : string) : string :=
  substring 0 (String.length s - 1) s.

Definition Block (fuel : nat) : M (string * bool) :=
  c <- Read ;;
  if negb (c =? 92) then Unread ;;; ret (""%string, false)
  else
    c <- Read ;;
    if negb (c =? 10) && negb (c =? 13) then Unread ;;; Unread ;;; ret (""%string, false)
    else
      lv <- Level ;;
      i <- (if 0 <? lv then indAt (lv - 1) else ret 0) ;;
      '(u, ns) <- Space fuel ;;
      if u && (ns =? 0) then panic
      else
        '(c, buffer) <- loop fuel (fun st : Z * Z * Z * string =>
            let '(j, ns, c, buffer) := st in
            if j <=? i then
              modify (withSpaces j) ;;; ret (inr (c, buffer))
            else
              let ns := if j <? ns then j else ns in
              '(c, buffer) <- loop fuel (fun st : Z * string =>
                  let '(_, buffer) := st in
                  c <- Read ;;
                  let buffer := push buffer (byte c) in
                  if c =? 13 then ret (inl (c, buffer))
                  else if c =? 10 then ret (inr (c, buffer))
                  else
                    e <- End_ ;;
                    if e then ret (inr (c, buffer)) else ret (inl (c, buffer)))
                (c, buffer) ;;
              '(_, j) <- Space fuel ;;
              ret (inl (j, ns, c, buffer))) (ns, ns, c, ""%string) ;;
        let buffer := if (c =? 10) && (0 <? Z.of_nat (String.length buffer))
                      then dropLast buffer else buffer in
        ret (buffer, true).

(** Group ::= '(' Space? Sequence? Space? ')'
    Sequence ::= (Scalar|Group) (Space? (Comma? Space?) (Scalar|Group))*

    [Sequence] returns whether there has been a sequence, whether its last
    element was a Group, and an error. *)
Fixpoint Group (fuel : nat) : M (bool * option error) :=
  match fuel with
  | O => fun _ => Fuel
  | S f =>
      b <- NextByteIs 40 ;;
      if negb b then ret (false, None)
      else
        i <- Level ;;
        WhiteSpace f ;;;
        Sequence f ;;;
        WhiteSpace f ;;;
        b <- NextByteIs 41 ;;
        if negb b then ret (false, Some (errors_New "missing )"))
        else SetLevel i ;;; ret (true, None)
  end
with Sequence (fuel : nat) : M (bool * bool * option error) :=
  match fuel with
  | O => fun _ => Fuel
  | S f =>
      i <- Level ;;
      SequenceLoop f i false 0
  end
with SequenceLoop (fuel : nat) (i : Z) (wasGroup : bool) (n : Z)
  : M (bool * bool * option error) :=
  match fuel with
  | O => fun _ => Fuel
  | S f =>
      '(gr, err) <- Group f ;;
      r <- (if gr then ret (inl true)
            else match err with
                 | Some e => ret (inr (false, false, Some e))
                 | None =>
                     '(b, ok) <- Scalar f ;;
                     if negb ok then ret (inr (0 <? n, wasGroup, None))
                     else Add b ;;; ret (inl false)
                 end) ;;
      match r with
      | inr out => ret out
      | inl wasGroup =>
          let n := n + 1 in
          WhiteSpace f ;;;
          co <- NextByteIs 44 ;;
          (if co then WhiteSpace f ;;; SetLevel i else Inc) ;;;
          SequenceLoop f i wasGroup n
      end
  end.

(** Line ::= Space(n) Sequence? ((Comment? Break)|Block)?

    The loop leaves with [Some err] for [return false, err] and with
    [None] for [break]. *)
Definition LineLoop (fuel : nat) (l : Z) : M (option error) :=
  loop fuel (fun _ : unit =>
    '(gr, err) <- Group fuel ;;
    r <- (if gr then ret (inl tt)
          else match err with
               | Some e => ret (inr (Some e))
               | None =>
                   cm <- Comment fuel ;;
                   if cm then Space fuel ;;; Break ;;; ret (inr None)
                   else
                     '(s, ok) <- Block fuel ;;
                     if ok then Add s ;;; Break ;;; ret (inr None)
                     else
                       '(b, ok) <- Scalar fuel ;;
                       if ok then Add b ;;; ret (inl tt)
                       else Break ;;; ret (inr None)
               end) ;;
    match r with
    | inr out => ret (inr out)
    | inl _ =>
        Space fuel ;;;
        co <- NextByteIs 44 ;;
        (if co then Space fuel ;;; SetLevel l else Inc) ;;;
        ret (inl tt)
    end) tt.

Definition Line (fuel : nat) : M (bool * option error) :=
  '(sp, n) <- Space fuel ;;
  (* if a line begins with non-uniform space, throw a syntax error:
     the error value is built and dropped *)
  let _ := if sp && (n =? 0) then Some (errors_New "non-uniform space") else None in
  e <- End_ ;;
  if e then ret (false, None)
  else
    co <- NextByteIs 44 ;;
    (if co then Space fuel ;;; ret tt else ret tt) ;;;
    l <- getLevel n ;;
    SetLevel l ;;;
    out <- LineLoop fuel l ;;
    match out with
    | Some err => ret (false, Some err)
    | None =>
        setLevel l n ;;;
        lv <- Level ;;
        setLevel lv (n + 1) ;;;
        ret (true, None)
    end.

(** Graph ::= Line* End *)
Definition Ogdl (fuel : nat) : M (option error) :=
  out <- loop fuel (fun _ : unit =>
           '(more, err) <- Line fuel ;;
           match err with
           | Some e => ret (inr (Some e))
           | None => if negb more then ret (inr None) else ret (inl tt)
           end) tt ;;
  match out with
  | Some e => ret (Some e)
  | None => End_ ;;; ret None
  end.

(** Newline returns true is a newline is found at the current position. *)
Definition Newline : M bool :=
  c <- Read ;;
  c <- (if c =? 13 then Read else ret c) ;;
  if c =? 10 then ret true
  else Unread ;;; ret false.

(** The sentinel payloads that tag nodes of a parsed path, expression or
    template; they are declared outside the sources at hand. *)
Variables TypePath TypeExpression TypeGroup TypeIndex TypeSelector : string.

Definition Token (fuel : nat) : M (string * bool) :=
  c <- Read ;;
  if negb (IsTokenChar c) then Unread ;;; ret (""%string, false)
  else
    buf <- loop fuel (fun buf : string =>
             c <- Read ;;
             if negb (IsTokenChar c) then Unread ;;; ret (inr buf)
             else ret (inl (push buf (byte c)))) (String (byte c) "") ;;
    ret (buf, true).

Definition NumberTail (fuel : nat) (c : Z) : M (string * bool) :=
  buf <- loop fuel (fun buf : string =>
           c <- Read ;;
           if negb (IsDigit c) && negb (c =? 46) then Unread ;;; ret (inr buf)
           else ret (inl (push buf (byte c)))) (String (byte c) "") ;;
  ret (buf, true).

Definition Number (fuel : nat) : M (string * bool) :=
  c <- Read ;;
  if negb (IsDigit c) then
    if negb (c =? 45) then Unread ;;; ret (""%string, false)
    else
      d <- Read ;;
      if negb (IsDigit d) then Unread ;;; Unread ;;; ret (""%string, false)
      else Unread ;;; NumberTail fuel c
  else NumberTail fuel c.

Definition Operator (fuel : nat) : M (string * bool) :=
  c <- Read ;;
  if negb (IsOperatorChar c) then Unread ;;; ret (""%string, false)
  else
    buf <- loop fuel (fun buf : string =>
             c <- Read ;;
             if negb (IsOperatorChar c) then Unread ;;; ret (inr buf)
             else ret (inl (push buf (byte c)))) (String (byte c) "") ;;
    ret (buf, true).

(** Path, Expression and the bracketed elements call each other. *)
Fixpoint Path (fuel : nat) : M bool :=
  match fuel with
  | O => fun _ => Fuel
  | S f =>
      c <- Read ;;
      Unread ;;;
      if negb (IsLetter c) then ret false
      else PathLoop f true false
  end
with PathLoop (fuel : nat) (begin anything : bool) : M bool :=
  match fuel with
  | O => fun _ => Fuel
  | S f =>
      dot <- NextByteIs 46 ;;
      stop <- (if negb dot && negb begin then
                 c <- Read ;;
                 Unread ;;;
                 ret (negb (c =? 91) && negb (c =? 40) && negb (c =? 123))
               else ret false) ;;
      if stop then ret anything
      else
        '(b, ok) <- Quoted f ;;
        if ok then Add b ;;; PathLoop f false true
        else
          '(b, ok) <- Number f ;;
          if ok then Add b ;;; PathLoop f false true
          else
            '(b, ok) <- Token f ;;
            if ok then Add b ;;; PathLoop f false true
            else
              ix <- Index f ;;
              if ix then PathLoop f false true
              else
                sel <- Selector f ;;
                if sel then PathLoop f false true
                else
                  '(ok, err) <- Args f ;;
                  if ok then PathLoop f false true
                  else match err with
                       | Some _ => ret false
                       | None => ret anything
                       end
  end
with Index (fuel : nat) : M bool :=
  match fuel with
  | O => fun _ => Fuel
  | S f =>
      b <- NextByteIs 91 ;;
      if negb b then ret false
      else
        i <- Level ;;
        Add TypeIndex ;;;
        Inc ;;;
        Space f ;;;
        Expression f ;;;
        Space f ;;;
        b <- NextByteIs 93 ;;
        if negb b then ret false
        else SetLevel i ;;; ret true
  end
with Selector (fuel : nat) : M bool :=
  match fuel with
  | O => fun _ => Fuel
  | S f =>
      b <- NextByteIs 123 ;;
      if negb b then ret false
      else
        i <- Level ;;
        Add TypeSelector ;;;
        Inc ;;;
        Space f ;;;
        Expression f ;;;
        Space f ;;;
        b <- NextByteIs 125 ;;
        if negb b then ret false
        else SetLevel i ;;; ret true
  end
with Args (fuel : nat) : M (bool * option error) :=
  match fuel with
  | O => fun _ => Fuel
  | S f =>
      b <- NextByteIs 40 ;;
      if negb b then ret (false, None)
      else
        i <- Level ;;
        Add TypeGroup ;;;
        Inc ;;;
        Space f ;;;
        ArgList f false ;;;
        Space f ;;;
        b <- NextByteIs 41 ;;
        if negb b then ret (false, Some (errors_New "missing )"))
        else SetLevel i ;;; ret (true, None)
  end
with ArgList (fuel : nat) (something : bool) : M bool :=
  match fuel with
  | O => fun _ => Fuel
  | S f =>
      Space f ;;;
      Add TypeExpression ;;;
      Inc ;;;
      e <- Expression f ;;
      if negb e then Dec ;;; Delete ;;; ret something
      else
        Dec ;;;
        Space f ;;;
        NextByteIs 44 ;;;
        ArgList f true
  end
with Expression (fuel : nat) : M bool :=
  match fuel with
  | O => fun _ => Fuel
  | S f =>
      u <- UnaryExpression f ;;
      if negb u then ret false
      else ExpressionLoop f
  end
with ExpressionLoop (fuel : nat) : M bool :=
  match fuel with
  | O => fun _ => Fuel
  | S f =>
      Space f ;;;
      '(b, ok) <- Operator f ;;
      if negb ok then ret true
      else
        Add b ;;;
        Space f ;;;
        u <- UnaryExpression f ;;
        if negb u then ret false
        else Space f ;;; ExpressionLoop f
  end
with UnaryExpression (fuel : nat) : M bool :=
  match fuel with
  | O => fun _ => Fuel
  | S f =>
      c <- Read ;;
      Unread ;;;
      if IsLetter c then
        Add TypePath ;;; Inc ;;; Path f ;;; Dec ;;; ret true
      else
        '(b, ok) <- Number f ;;
        if ok then Add b ;;; ret true
        else
          '(b, ok) <- Quoted f ;;
          if ok then Add b ;;; ret true
          else
            '(b, ok) <- Operator f ;;
            (if ok then Add b else ret tt) ;;;
            par <- NextByteIs 40 ;;
            if par then
              Add TypeGroup ;;;
              Inc ;;;
              Space f ;;;
              Expression f ;;;
              Space f ;;;
              Dec ;;;
              NextByteIs 41
            else Path f
  end.

(** Text parses text in a template. *)
Definition Text (fuel : nat) : M bool :=
  c <- Read ;;
  if negb (IsTemplateTextChar c) then Unread ;;; ret false
  else
    buf <- loop fuel (fun buf : string =>
             c <- Read ;;
             if negb (IsTemplateTextChar c) then Unread ;;; ret (inr buf)
             else ret (inl (push buf (byte c)))) (String (byte c) "") ;;
    AddBytes buf ;;;
    ret true.

(** Variable parses variables in a template. They begin with $. *)
Definition Variable_ (fuel : nat) : M bool :=
  c <- Read ;;
  if negb (c =? 36) then Unread ;;; ret false
  else
    c <- Read ;;
    if c =? 92 then Add "$" ;;; ret true
    else
      Unread ;;;
      i <- Level ;;
      c <- Read ;;
      (if c =? 40 then
         Add TypeExpression ;;;
         Inc ;;;
         Expression fuel ;;;
         Space fuel ;;;
         Read ;;;
         ret tt
       else
         Add TypePath ;;;
         Inc ;;;
         (if negb (c =? 123) then Unread else Space fuel ;;; ret tt) ;;;
         Path fuel ;;;
         (if c =? 123 then Space fuel ;;; Read ;;; ret tt else ret tt)) ;;;
      SetLevel i ;;;
      ret true.

(** Template ::= (Text | Variable)* *)
Definition Template (fuel : nat) : M unit :=
  loop fuel (fun _ : unit =>
    t <- Text fuel ;;
    if t then ret (inl tt)
    else
      v <- Variable_ fuel ;;
      if v then ret (inl tt) else ret (inr tt)) tt.

End Productions.

(** ** Graph *)

(** A node: a payload [This] and the ordered children [Out]. *)
#[warnings="-register-all"] Inductive Graph : Type :=
| Node (this : payload) (out : list Graph).

Definition This (g : Graph) : payload := match g with Node t _ => t end.
Definition Out (g : Graph) : list Graph := match g with Node _ o => o end.

(** Modelled from the spec: the Graph methods below are declared outside
    the sources at hand.  String() is the text of the payload, and the
    empty string for a nil node. *)
Definition payloadString (v : payload) : string :=
  match v with
  | PString s => s
  | PBytes b => b
  | POther s => s
  end.

Definition thisString (g : Graph) : string := payloadString (This g).

Definition optString (g : option Graph) : string :=
  match g with
  | Some n => thisString n
  | None => ""%string
  end.

(** Modelled from the spec: GetAt(i) is the i-th child, nil when there is
    none or when the receiver is nil. *)
Definition GetAt (g : option Graph) (i : nat) : option Graph :=
  match g with
  | Some n => nth_error (Out n) i
  | None => None
  end.

(** Modelled from the spec: DeleteAt(i) removes the i-th child. *)
Fixpoint deleteAt {A} (i : nat) (l : list A) : list A :=
  match i, l with
  | _, [] => []
  | O, _ :: r => r
  | S k, x :: r => x :: deleteAt k r
  end.

Fixpoint updateAt {A} (i : nat) (f : A -> A) (l : list A) : list A :=
  match i, l with
  | _, [] => []
  | O, x :: r => f x :: r
  | S k, x :: r => x :: updateAt k f r
  end.

(** Modelled from the spec: Add(x) appends x as the last child. *)
Definition addChild (x : Graph) (g : Graph) : Graph :=
  Node (This g) (Out g ++ [x]).

(** Modelled from the spec: the tree of a sequence of events.  An event of
    depth d goes under the parent at depth d, the end of the chain of last
    children of length d from the root (the end of the chain when it is
    shorter). *)
Fixpoint addAt (d : nat) (v : payload) (g : Graph) : Graph :=
  match d with
  | O => addChild (Node v []) g
  | S k =>
      match rev (Out g) with
      | [] => addChild (Node v []) g
      | lastChild :: before => Node (This g) (rev before ++ [addAt k v lastChild])
      end
  end.

(** Modelled from the spec: GraphTop(tag) is the tree built from the
    events, under a root tagged [tag]. *)
Definition GraphTop (tag : string) (p : Parser) : Graph :=
  fold_left (fun g e => addAt (Z.to_nat (fst e)) (snd e) g)
            (items (ev p)) (Node (PString tag) []).

(** Outcome of a Graph method: a value, a nil dereference, or no return
    within the fuel. *)
Inductive Outcome (A : Type) : Type :=
| Done (a : A)
| Crash
| NoFuel.

Arguments Done {A} a.
Arguments Crash {A}.
Arguments NoFuel {A}.

(** ** Template engine *)

(** What [Eval] returns: a [*Graph] (possibly nil), or another host value. *)
Inductive value : Type :=
| VGraph (g : option Graph)
| VNil
| VOther (s : string).

(** [nod] in [flow]: the node it points to, by its place in [t.Out]. *)
Inductive nodref : Type :=
| NodChild (k j : nat)     (* child j of t.Out[k] *)
| NodSelf (k : nat).       (* t.Out[k] *)

Section TemplateEngine.

Variable EOF : Z.
Variable unicode_IsLetter : Z -> bool.
Variable unicode_IsDigit : Z -> bool.

(** The sentinel payloads. *)
Variables TypePath TypeExpression TypeGroup TypeIndex TypeSelector : string.
Variables TypeTemplate TypeIf TypeElse TypeEnd TypeFor TypeBreak : string.

(** The evaluator, which threads the context it may assign to:
    [c.Eval(e)], [c.EvalBool(e)], [c.assign(path, v, '=')], [g.Text()] and
    [_string(v)]. *)
Variable Eval : Graph -> option Graph -> value * Graph.
Variable EvalBool : Graph -> option Graph -> bool * Graph.
Variable assign : Graph -> option Graph -> Graph -> Graph.
Variable gText : option Graph -> string.
Variable _string : value -> string.

(** [t.Ast()], a Graph method declared outside the sources at hand. *)
Variable Ast : Graph -> Graph.

(** simplify converts !p TYPE in !TYPE for keywords if, end, else, for and break. *)
Definition simplifyNode (node : Graph) : Graph :=
  if (TypePath =? thisString node)%string then
    let s := optString (GetAt (Some node) 0) in
    if (s =? "if")%string then Node (PString TypeIf) (deleteAt 0 (Out node))
    else if (s =? "end")%string then Node (PString TypeEnd) (deleteAt 0 (Out node))
    else if (s =? "else")%string then Node (PString TypeElse) (deleteAt 0 (Out node))
    else if (s =? "for")%string then Node (PString TypeFor) (deleteAt 0 (Out node))
    else if (s =? "break")%string then Node (PString TypeBreak) (deleteAt 0 (Out node))
    else node
  else node.

Definition simplify (t : Graph) : Graph :=
  Node (This t) (map simplifyNode (Out t)).

(** [nod.Add(x)] *)
Definition nodAdd (nod : nodref) (x : Graph) (out : list Graph) : list Graph :=
  match nod with
  | NodSelf k => updateAt k (addChild x) out
  | NodChild k j =>
      updateAt k (fun node => Node (This node) (updateAt j (addChild x) (Out node))) out
  end.

Definition nodGet (nod : nodref) (out : list Graph) : option Graph :=
  match nod with
  | NodSelf k => nth_error out k
  | NodChild k j => GetAt (nth_error out k) j
  end.

Definition nodSet (nod : nodref) (g : Graph) (out : list Graph) : list Graph :=
  match nod with
  | NodSelf k => updateAt k (fun _ => g) out
  | NodChild k j =>
      updateAt k (fun node => Node (This node) (updateAt j (fun _ => g) (Out node))) out
  end.

(** flow nests 'if' and 'for' loops.  [flowLoop] is the loop over
    [t.Out], with the index [i], the counter [n] and the pointer [nod]. *)
Fixpoint flow (fuel : nat) (t : Graph) : Outcome Graph :=
  match fuel with
  | O => NoFuel
  | S f =>
      match flowLoop f (Out t) 0 0 None with
      | Done out => Done (Node (This t) out)
      | Crash => Crash
      | NoFuel => NoFuel
      end
  end
with flowLoop (fuel : nat) (out : list Graph) (i : nat) (n : Z) (nod : option nodref)
  : Outcome (list Graph) :=
  match fuel with
  | O => NoFuel
  | S f =>
      match nth_error out i with
      | None => Done out
      | Some node =>
          let s := thisString node in
          let isOpen := ((s =? TypeIf) || (s =? TypeFor))%string in
          let n := if isOpen then n + 1 else n in
          if isOpen && (n =? 1) then
            flowLoop f (updateAt i (addChild (Node (PString TypeTemplate) [])) out)
                     (S i) n (Some (NodChild i (List.length (Out node))))
          else if (s =? TypeElse)%string && (n =? 1) then
            match nod with
            | None => Crash
            | Some r =>
                match nodGet r out with
                | None => Crash
                | Some g =>
                    match flow f g with
                    | Done g' => flowLoop f (nodSet r g' out) (S i) n (Some (NodSelf i))
                    | Crash => Crash
                    | NoFuel => NoFuel
                    end
                end
            end
          else
            let isEnd := (s =? TypeEnd)%string in
            let n := if isEnd then n - 1 else n in
            if isEnd && (n =? 0) then
              match nod with
              | None => Crash
              | Some r =>
                  match nodGet r out with
                  | None => Crash
                  | Some g =>
                      match flow f g with
                      | Done g' => flowLoop f (deleteAt i (nodSet r g' out)) i n nod
                      | Crash => Crash
                      | NoFuel => NoFuel
                      end
                  end
              end
            else if 0 <? n then
              match nod with
              | None => Crash
              | Some r => flowLoop f (deleteAt i (nodAdd r node out)) i n nod
              end
            else flowLoop f out (S i) n nod
      end
  end.

(** process interprets the children of a parsed template against the
    context [c], writing to [buffer]; it returns true for a break. *)
Fixpoint process (fuel : nat) (t : option Graph) (c : Graph) (buffer : string)
  : Outcome (Graph * string * bool) :=
  match fuel with
  | O => NoFuel
  | S f =>
      match t with
      | None => Crash
      | Some t =>
          (fix children (l : list Graph) (falseIf : bool) (c : Graph) (buffer : string)
             : Outcome (Graph * string * bool) :=
             match l with
             | [] => Done (c, buffer, false)
             | n :: rest =>
                 let s := thisString n in
                 if (s =? TypePath)%string then
                   let '(i, c) := Eval c (Some n) in
                   match i with
                   | VGraph g => children rest falseIf c (buffer ++ gText g)%string
                   | _ =>
                       let '(v, c) := Eval c (Some n) in
                       children rest falseIf c (buffer ++ _string v)%string
                   end
                 else if (s =? TypeExpression)%string then
                   let '(_, c) := Eval c (Some n) in
                   children rest falseIf c buffer
                 else if (s =? TypeIf)%string then
                   let '(b, c) := EvalBool c (GetAt (GetAt (Some n) 0) 0) in
                   if b then
                     match process f (GetAt (Some n) 1) c buffer with
                     | Done (c, buffer, _) => children rest false c buffer
                     | Crash => Crash
                     | NoFuel => NoFuel
                     end
                   else children rest true c buffer
                 else if (s =? TypeElse)%string then
                   if falseIf then
                     match process f (Some n) c buffer with
                     | Done (c, buffer, _) => children rest false c buffer
                     | Crash => Crash
                     | NoFuel => NoFuel
                     end
                   else children rest falseIf c buffer
                 else if (s =? TypeFor)%string then
                   let '(i, c) := Eval c (GetAt (GetAt (Some n) 0) 1) in
                   match i with
                   | VGraph (Some gi) =>
                       match
                         (fix each (es : list Graph) (c : Graph) (buffer : string)
                            : Outcome (Graph * string) :=
                            match es with
                            | [] => Done (c, buffer)
                            | ee :: es' =>
                                let c := assign c (GetAt (GetAt (GetAt (Some n) 0) 0) 0) ee in
                                match process f (GetAt (Some n) 1) c buffer with
                                | Done (c, buffer, brk) =>
                                    if brk then Done (c, buffer) else each es' c buffer
                                | Crash => Crash
                                | NoFuel => NoFuel
                                end
                            end) (Out gi) c buffer
                       with
                       | Done (c, buffer) => children rest falseIf c buffer
                       | Crash => Crash
                       | NoFuel => NoFuel
                       end
                   | _ => Done (c, buffer, true)
                   end
                 else if (s =? TypeBreak)%string then Done (c, buffer, true)
                 else children rest falseIf c (buffer ++ thisString n)%string
             end) (Out t) false c buffer
      end
  end.

(** Process processes the parsed template, returning the resulting text. *)
Definition Process (fuel : nat) (t : Graph) (c : Graph) : Outcome string :=
  match process fuel (Some t) c ""%string with
  | Done (_, buffer, _) => Done buffer
  | Crash => Crash
  | NoFuel => NoFuel
  end.

(** NewTemplate parses a text template and converts it to a Graph. *)
Definition NewTemplate (fuel : nat) (s : string) : Outcome Graph :=
  match Template EOF unicode_IsLetter unicode_IsDigit
                 TypePath TypeExpression TypeGroup TypeIndex TypeSelector
                 fuel (NewStringParser s) with
  | Ret _ p => flow fuel (simplify (Ast (GraphTop TypeTemplate p)))
  | Panic => Crash
  | Fuel => NoFuel
  end.

End TemplateEngine.

(** ** Log store *)

(** An [os.File]: its bytes and the offset of the next read or write. *)
Record File : Type := mkFile {
  data : list Z;
  offset : Z
}.

(** Log is a log store for binary OGDL objects. *)
Record Log : Type := mkLog {
  f : File;
  autoSync : bool
}.

(** Two's complement wrap-around of an [int64]. *)
Definition wrap64 (z : Z) : Z := (z + 2 ^ 63) mod 2 ^ 64 - 2 ^ 63.

(** [f.Seek(off, whence)] for whence 0 (from the start) and 2 (from the
    end): the new offset, or an error when it would be negative. *)
Definition Seek (off whence : Z) (fl : File) : Z * option error * File :=
  let target := if whence =? 2 then Z.of_nat (List.length (data fl)) + off else off in
  if target <? 0 then (0, Some (errors_New "invalid argument"), fl)
  else (target, None, mkFile (data fl) target).

(** [f.Write(b)]: the bytes go at the offset, past the end the file grows. *)
Definition Write (b : list Z) (fl : File) : File :=
  let o := Z.to_nat (offset fl) in
  let len := List.length (data fl) in
  mkFile (firstn o (data fl) ++ repeat 0 (o - len) ++ b
            ++ skipn (o + List.length b) (data fl))
         (offset fl + Z.of_nat (List.length b)).

(** [f.Sync()] leaves the contents as they are. *)
Definition Sync (fl : File) : File := fl.

Section LogStore.

(** [g.Binary()], the binary encoding of a graph; nil for a graph that
    cannot be encoded. *)
Variable Binary : Graph -> option (list Z).

(** [NewBinParser(f)] followed by [p.Parse()]: the graph read at the
    offset of the file, the byte count [p.n], and the file as the reader
    leaves it. *)
Variable Parse : File -> option Graph * Z * File.

(** Add adds an OGDL object to the log. The starting position into the log
    is returned. *)
Definition LogAdd (log : Log) (g : Graph) : Z * Log :=
  match Binary g with
  | None => (0, log)
  | Some b =>
      let '(i, _, f1) := Seek 0 2 (f log) in
      let f2 := Write b f1 in
      let f3 := if autoSync log then Sync f2 else f2 in
      (i, mkLog f3 (autoSync log))
  end.

(** Get returns the OGDL object at the position given and the position of
    the next object, or an error. *)
Definition LogGet (log : Log) (i : Z) : (option Graph * option error * Z) * Log :=
  match Seek i 0 (f log) with
  | (_, Some err, f1) => ((None, Some err, -1), mkLog f1 (autoSync log))
  | (_, None, f1) =>
      let '(g, n, f2) := Parse f1 in
      if n =? 0 then ((g, None, -1), mkLog f2 (autoSync log))
      else ((g, None, wrap64 (i + n)), mkLog f2 (autoSync log))
  end.

(** AddBinary adds an OGDL binary object to the log. The starting position
    into the log is returned. *)
Definition LogAddBinary (log : Log) (b : list Z) : Z * Log :=
  let '(i, _, f1) := Seek 0 2 (f log) in
  let f2 := Write b f1 in
  let f3 := if autoSync log then Sync f2 else f2 in
  (i, mkLog f3 (autoSync log)).

(** [f.ReadAt(b, off)] for a [b] of n zero bytes: the bytes of the file
    from [off] on, as many as there are up to n, and an error when they
    are fewer than n.  The offset of the file stays as it is. *)
Definition ReadAt (n off : Z) (fl : File) : list Z * option error :=
  if off <? 0 then (repeat 0 (Z.to_nat n), Some (errors_New "negative offset"))
  else
    let got := firstn (Z.to_nat n) (skipn (Z.to_nat off) (data fl)) in
    (got ++ repeat 0 (Z.to_nat n - List.length got),
     if (List.length got <? Z.to_nat n)%nat then Some (errors_New "EOF") else None).

(** The binary parser, declared outside the sources at hand:
    [NewBinParser(f)], [p.header()], the level that [p.line(false)]
    returns, the byte count [p.n], and the file as the parser leaves it. *)
Variable BinParser : Type.
Variable NewBinParser : File -> BinParser.
Variable header : BinParser -> bool * BinParser.
Variable line : BinParser -> Z * BinParser.
Variable parserN : BinParser -> Z.
Variable parserFile : BinParser -> File.

(** [for { lev, _, _ := p.line(false); if lev == 0 { break } }] *)
Fixpoint skipLines (fuel : nat) (p : BinParser) : option BinParser :=
  match fuel with
  | O => None
  | S k =>
      let '(lev, p') := line p in
      if lev =? 0 then Some p' else skipLines k p'
  end.

(** GetBinary returns the OGDL object at the position given and the
    position of the next object, or an error. The object returned is in
    binary form, exactly as it is stored in the log. *)
Definition LogGetBinary (fuel : nat) (log : Log) (i : Z)
  : Outcome ((option (list Z) * option error * Z) * Log) :=
  match Seek i 0 (f log) with
  | (_, Some err, f1) => Done ((None, Some err, 0), mkLog f1 (autoSync log))
  | (_, None, f1) =>
      let p := NewBinParser f1 in
      let '(ok, p) := header p in
      if negb ok then Done ((None, None, 0), mkLog (parserFile p) (autoSync log))
      else
        match skipLines fuel p with
        | None => NoFuel
        | Some p =>
            let n := parserN p in
            let '(b, err) := ReadAt n i (parserFile p) in
            Done ((Some b, err, n), mkLog (parserFile p) (autoSync log))
        end
  end.

End LogStore.

(** *** Binary codec *)

(** Modelled from the spec: varints are unsigned base-128, little-endian,
    the high bit marks a continuation. *)
Fixpoint varintEnc (fuel : nat) (n : Z) : list Z :=
  match fuel with
  | O => [n mod 128]
  | S k => if n <? 128 then [n] else (n mod 128 + 128) :: varintEnc k (n / 128)
  end.

Definition varint (n : Z) : list Z := varintEnc (Z.to_nat n) n.

Fixpoint varintDec (bs : list Z) (shift : Z) : option (Z * list Z) :=
  match bs with
  | [] => None
  | b :: r =>
      if b <? 128 then Some (b * shift, r)
      else match varintDec r (shift * 128) with
           | Some (v, r') => Some ((b - 128) * shift + v, r')
           | None => None
           end
  end.

(** Modelled from the spec: the writer of section 4.5.  After the header
    01 'G' 00 comes one line per node, in depth-first pre-order, as level,
    type, length and payload, the children of the root at level 1; a level
    0 ends the object.  Strings have type 1 and byte arrays type 2; the
    codec refuses a payload it does not recognise, and the other wire types
    are left out of this model. *)
Definition lineOf (level : Z) (v : payload) : list Z :=
  match v with
  | PString s => varint level ++ [1] ++ varint (Z.of_nat (String.length s)) ++ bytes s
  | PBytes b => varint level ++ [2] ++ varint (Z.of_nat (String.length b)) ++ bytes b
  | POther _ => []
  end.

Fixpoint encodable (g : Graph) : bool :=
  match g with
  | Node v out =>
      match v with POther _ => false | _ => true end &&
      (fix each (l : list Graph) : bool :=
         match l with
         | [] => true
         | c :: r => encodable c && each r
         end) out
  end.

Fixpoint linesOf (level : Z) (g : Graph) : list Z :=
  match g with
  | Node v out =>
      lineOf level v ++
      (fix each (l : list Graph) : list Z :=
         match l with
         | [] => []
         | c :: r => linesOf (level + 1) c ++ each r
         end) out
  end.

Definition binWrite (g : Graph) : option (list Z) :=
  if encodable g then
    let body :=
      if (thisString g =? "")%string
      then flat_map (linesOf 1) (Out g)
      else linesOf 1 g in
    Some ([1; 71; 0] ++ body ++ [0])
  else None.

Fixpoint stringOf (bs : list Z) : string :=
  match bs with
  | [] => ""%string
  | b :: r => String (byte b) (stringOf r)
  end.

(** Modelled from the spec: the reader of section 4.5 consumes the header,
    then lines until a level 0 is seen, and counts the bytes it consumes,
    from the first byte of the header on.  A missing header or a truncated
    line gives no graph. *)
Fixpoint readLines (fuel : nat) (bs : list Z) (g : Graph) : option (Graph * list Z) :=
  match fuel with
  | O => None
  | S k =>
      match varintDec bs 1 with
      | None => None
      | Some (level, r) =>
          if level =? 0 then Some (g, r)
          else
            match r with
            | [] => None
            | typ :: r1 =>
                match varintDec r1 1 with
                | None => None
                | Some (len, r2) =>
                    let n := Z.to_nat len in
                    if (List.length r2 <? n)%nat then None
                    else
                      let body := stringOf (firstn n r2) in
                      let v := if typ =? 1 then Some (PString body)
                               else if typ =? 2 then Some (PBytes body)
                               else None in
                      match v with
                      | None => None
                      | Some v => readLines k (skipn n r2) (addAt (Z.to_nat (level - 1)) v g)
                      end
                end
            end
      end
  end.

Definition binParse (fl : File) : option Graph * Z * File :=
  let bs := skipn (Z.to_nat (offset fl)) (data fl) in
  match bs with
  | 1 :: 71 :: 0 :: r =>
      match readLines (S (List.length r)) r (Node (PString "") []) with
      | Some (g, rest) =>
          let n := Z.of_nat (List.length bs - List.length rest) in
          (Some g, n, mkFile (data fl) (offset fl + n))
      | None =>
          (None, Z.of_nat (List.length bs), mkFile (data fl) (offset fl + Z.of_nat (List.length bs)))
      end
  | _ => (None, Z.of_nat (Nat.min 1 (List.length bs)), fl)
  end.

(** ** Values for running the model

    On ASCII input [unicode.IsLetter] and [unicode.IsDigit] are the ASCII
    classes; the end of the stream reads as 0; the sentinel payloads are
    the strings "!p", "!e", ... ("!g" is the one [Function] compares an
    argument group with). *)

Definition asciiLetter (c : Z) : bool :=
  ((65 <=? c) && (c <=? 90)) || ((97 <=? c) && (c <=? 122)).

Definition asciiDigit (c : Z) : bool := (48 <=? c) && (c <=? 57).

Definition eof0 : Z := 0.

Definition tab : string := String (ascii_of_nat 9) "".
Definition nl : string := String (ascii_of_nat 10) "".
Definition bslash : string := String (ascii_of_nat 92) "".
Definition dquote : string := String (ascii_of_nat 34) "".

Definition run {A} (m : M A) (s : string) : Res A := m (NewStringParser s).

(** The value and the sink of an outcome. *)
Definition valueOf {A} (r : Res A) : option A :=
  match r with Ret a _ => Some a | _ => None end.

Definition sinkOf {A} (r : Res A) : option EventHandler :=
  match r with Ret _ p => Some (ev p) | _ => None end.

Definition levelOf {A} (r : Res A) : option Z :=
  match r with Ret _ p => Some (evLevel (ev p)) | _ => None end.

Definition leaf (s : string) : Graph := Node (PString s) [].
Definition text (s : string) : Graph := Node (PBytes s) [].

(** Modelled from the spec: the evaluator seen from a context in which no
    path exists.  A missing path evaluates to null and to false, and an
    assignment to it is not kept. *)
Definition noEval (c : Graph) (e : option Graph) : value * Graph := (VNil, c).
Definition noEvalBool (c : Graph) (e : option Graph) : bool * Graph := (false, c).
Definition noAssign (c : Graph) (path : option Graph) (v : Graph) : Graph := c.
Definition noText (g : option Graph) : string := ""%string.
Definition nilString (v : value) : string :=
  match v with VOther s => s | _ => ""%string end.

(** The template functions at the values above. *)
Definition newTemplate0 : nat -> string -> Outcome Graph :=
  NewTemplate eof0 asciiLetter asciiDigit "!p" "!e" "!g" "!i" "!s"
              "!t" "!if" "!else" "!end" "!for" "!break" (fun g => g).

Definition process0 : nat -> option Graph -> Graph -> string -> Outcome (Graph * string * bool) :=
  process "!p" "!e" "!if" "!else" "!for" "!break"
          noEval noEvalBool noAssign noText nilString.

Definition Process0 : nat -> Graph -> Graph -> Outcome string :=
  Process "!p" "!e" "!if" "!else" "!for" "!break"
          noEval noEvalBool noAssign noText nilString.

Definition flow0 : nat -> Graph -> Outcome Graph :=
  flow "!t" "!if" "!else" "!end" "!for".

(** ** Notions used in the statements *)

Definition keepsSink {A} (m : M A) : Prop :=
  forall p a p', m p = Ret a p' -> ev p' = ev p.

Definition atLevel (d : Z) (s : string) : Parser :=
  withEv (mkEv d []) (NewStringParser s).

Definition resultParser {A} (r : Res A) (d : Parser) : Parser :=
  match r with Ret _ p => p | _ => d end.

(** [linesN fuel k] parses k lines, each of them followed by more input. *)
Fixpoint linesN (EOF : Z) (fuel : nat) (k : nat) : M bool :=
  match k with
  | O => ret true
  | S k' =>
      r <- Line EOF fuel ;;
      match r with
      | (true, None) => linesN EOF fuel k'
      | _ => ret false
      end
  end.

Definition mapOutcome {A B} (f : A -> B) (o : Outcome A) : Outcome B :=
  match o with
  | Done a => Done (f a)
  | Crash => Crash
  | NoFuel => NoFuel
  end.

(** [nod] after more nodes have been put before [t.Out]. *)
Definition shiftRef (d : nat) (r : nodref) : nodref :=
  match r with
  | NodChild k j => NodChild (d + k) j
  | NodSelf k => NodSelf (d + k)
  end.

Definition refIn (r : nodref) (l : list Graph) : Prop :=
  match r with
  | NodChild k _ => (k < List.length l)%nat
  | NodSelf k => (k < List.length l)%nat
  end.

(** [nod.Add] for each node of [body] in turn. *)
Definition collect (r : nodref) (body : list Graph) (done : list Graph) : list Graph :=
  fold_left (fun d x => nodAdd r x d) body done.

Section FlowNotions.

Variables TypeIf TypeElse TypeEnd TypeFor : string.

Definition isOpen (g : Graph) : bool :=
  ((thisString g =? TypeIf) || (thisString g =? TypeFor))%string.
Definition isElse (g : Graph) : bool := (thisString g =? TypeElse)%string.
Definition isEnd (g : Graph) : bool := (thisString g =? TypeEnd)%string.

(** The counter through the nodes that follow an open If or For, as long
    as none of them closes the block or is an Else of the block itself:
    If and For increment it, End decrements it. *)
Fixpoint inner (n : Z) (body : list Graph) : option Z :=
  match body with
  | [] => Some n
  | x :: r =>
      let n1 := if isOpen x then n + 1 else n in
      if (isOpen x || isElse x) && (n1 =? 1) then None
      else
        let n2 := if isEnd x then n1 - 1 else n1 in
        if 0 <? n2 then inner n2 r else None
  end.

End FlowNotions.

(** The shape of a template in which every block is closed, after the
    words of C7: the children are, in a row, nodes that are no keyword,
    blocks (an If or For, the nodes up to its matching End, and that End)
    and blocks with an Else of their own; the nodes inside a block have a
    shape in turn. *)
Inductive Shape : Type :=
| SNil
| SPlain (x : Graph) (rest : Shape)
| SBlock (opener : Graph) (body : Shape) (endNode : Graph) (rest : Shape)
| SElse (opener : Graph) (body1 : Shape) (elseNode : Graph) (body2 : Shape)
        (endNode : Graph) (rest : Shape).

(** The children in a row, as the parser leaves them. *)
Fixpoint flat (t : Shape) : list Graph :=
  match t with
  | SNil => []
  | SPlain x rest => x :: flat rest
  | SBlock opener body endNode rest => opener :: flat body ++ endNode :: flat rest
  | SElse opener body1 elseNode body2 endNode rest =>
      opener :: flat body1 ++ elseNode :: flat body2 ++ endNode :: flat rest
  end.

(** Turns of the loop of [flow] that are enough for a shape: one for each
    child and one to see the end of the list, and in a block what flowing
    its collected children takes. *)
Fixpoint fuelOf (t : Shape) : nat :=
  match t with
  | SNil => 1
  | SPlain _ rest => S (fuelOf rest)
  | SBlock _ body _ rest =>
      S (List.length (flat body) + S (Nat.max (S (fuelOf body)) (fuelOf rest)))
  | SElse _ body1 _ body2 _ rest =>
      S (List.length (flat body1)
         + S (List.length (flat body2)
              + S (Nat.max (fuelOf body1) (Nat.max (S (fuelOf body2)) (fuelOf rest)))))
  end.

Section FlowShapes.

Variables TypeTemplate TypeIf TypeElse TypeEnd TypeFor : string.

(** The nodes are what the shape says they are: openers are If or For
    nodes, the closing nodes End nodes, an Else is an Else node without
    children of its own, and the other nodes are none of these. *)
Fixpoint wellFormed (t : Shape) : bool :=
  match t with
  | SNil => true
  | SPlain x rest =>
      negb (isOpen TypeIf TypeFor x) && negb (isElse TypeElse x)
      && negb (isEnd TypeEnd x) && wellFormed rest
  | SBlock opener body endNode rest =>
      isOpen TypeIf TypeFor opener && isEnd TypeEnd endNode
      && wellFormed body && wellFormed rest
  | SElse opener body1 elseNode body2 endNode rest =>
      isOpen TypeIf TypeFor opener && isElse TypeElse elseNode
      && match Out elseNode with [] => true | _ :: _ => false end
      && isEnd TypeEnd endNode
      && wellFormed body1 && wellFormed body2 && wellFormed rest
  end.

(** The children after the flow phase, as C7 has it, with the Else of the
    code: the nodes of a block are under a new Template child of its If or
    For, nested in turn, and the End is gone; an Else stays beside the If
    or For and holds the nodes that followed it. *)
Fixpoint nested (t : Shape) : list Graph :=
  match t with
  | SNil => []
  | SPlain x rest => x :: nested rest
  | SBlock opener body _ rest =>
      addChild (Node (PString TypeTemplate) (nested body)) opener :: nested rest
  | SElse opener body1 elseNode body2 _ rest =>
      addChild (Node (PString TypeTemplate) (nested body1)) opener
      :: Node (This elseNode) (nested body2) :: nested rest
  end.

End FlowShapes.

(** [$if(x) a $if(x) b $end $else c $end d]: a block with an Else, and a
    block inside it. *)
Definition shape0 : Shape :=
  SElse (Node (PString "!if") [Node (PString "!g") [Node (PString "x") []]])
        (SPlain (Node (PBytes "a") [])
           (SBlock (Node (PString "!if") [Node (PString "!g") [Node (PString "x") []]])
                   (SPlain (Node (PBytes "b") []) SNil)
                   (Node (PString "!end") [])
                   SNil))
        (Node (PString "!else") [])
        (SPlain (Node (PBytes "c") []) SNil)
        (Node (PString "!end") [])
        (SPlain (Node (PBytes "d") []) SNil).

Definition ifNode : Graph := Node (PString "!if") [Node (PString "!g") [leaf "x"]].
Definition elseNode0 : Graph := Node (PString "!else") [].
Definition endNode0 : Graph := Node (PString "!end") [].

(** The counter alone, as C7 words it: If and For increment it, End
    decrements it, and the nodes up to the matching End are those through
    which it stays positive. *)
Fixpoint counterOnly (n : Z) (body : list Graph) : option Z :=
  match body with
  | [] => Some n
  | x :: r =>
      let n1 := if isOpen "!if" "!for" x then n + 1 else n in
      let n2 := if isEnd "!end" x then n1 - 1 else n1 in
      if 0 <? n2 then counterOnly n2 r else None
  end.

Definition forNode0 : Graph :=
  Node (PString "!for")
       [Node (PString "!g")
          [Node (PString "!e") [Node (PString "!p") [leaf "i"]];
           Node (PString "!e") [Node (PString "!p") [leaf "list"]]];
        Node (PString "!t") [text "x"]].

Definition objectOf (r : (option Graph * option error * Z) * Log) : option Graph :=
  fst (fst (fst r)).
Definition errorOf (r : (option Graph * option error * Z) * Log) : option error :=
  snd (fst (fst r)).
Definition nextOf (r : (option Graph * option error * Z) * Log) : Z :=
  snd (fst r).

Definition opaqueGraph : Graph := Node (PString "a") [Node (POther "host object") []].

Definition emptyLog : Log := mkLog (mkFile [] 0) true.

Definition T1 : Graph := Node (PString "") [Node (PString "a") [leaf "b"; leaf "c"]].
Definition T2 : Graph := Node (PString "") [leaf "x"].

(** The log after T1 and then T2 have been added. *)
Definition log12 : Log :=
  snd (LogAdd binWrite (snd (LogAdd binWrite emptyLog T1)) T2).

(** The separators of OGDL text: parentheses and comma. *)
Definition isSeparator (c : Z) : bool := (c =? 40) || (c =? 41) || (c =? 44).

(** The count [Space] gives for a run of spaces that starts with [c]: the
    length of the run when every byte of it is [c], and 0 otherwise. *)
Definition runCount (c : Z) (run : list Z) : Z :=
  if forallb (Z.eqb c) run then Z.of_nat (List.length run) else 0.

Definition isSpaceByte (c : Z) : bool := (c =? 32) || (c =? 9).

(** What goes on after the first byte of a number: digits and dots. *)
Definition digitOrDot (unicode_IsDigit : Z -> bool) (c : Z) : bool :=
  IsDigit unicode_IsDigit c || (c =? 46).

(** A byte that stops a comment: a break or an end character. *)
Definition endsComment (c : Z) : bool := IsEndChar c || IsBreakChar c.

(** A byte that [Quoted] copies as it is, inside the delimiter [q]: not the
    delimiter, not a line feed, not a backslash. *)
Definition plainInQuotes (q c : Z) : bool :=
  negb (c =? q) && negb (c =? 10) && negb (c =? 92).

(** From place [k0] on, the byte [q] does not occur in the input, nor at
    the end of the stream. *)
Definition noQuoteFrom (EOF q : Z) (inp : list Z) (k0 : nat) : Prop :=
  forall k, (k0 <= k)%nat -> nth k inp EOF <> q.

(** What [Space] returns on a run of spaces and tabs: whether there is
    one, and its length when it is uniform, 0 when it is mixed. *)
Definition spaceResult (lead : list Z) : bool * Z :=
  match lead with
  | [] => (false, 0)
  | c :: _ => (true, runCount c lead)
  end.

(** The column [Block] compares the indentation of its lines with: the one
    recorded for the depth above the current one, 0 at depth 0. *)
Definition parentColumn (it : list Z) (e : EventHandler) : Z :=
  if 0 <? evLevel e then nth (Z.to_nat (evLevel e - 1)) it 0 else 0.

(** A byte inside a line of a block: neither a break nor an end character. *)
Definition lineByte (c : Z) : bool := negb (IsEndChar c) && negb (IsBreakChar c).

(** A line of a block, given as its indentation and its text: the
    indentation is a uniform run of spaces or of tabs longer than [col];
    the text has no break and no end character, and does not start with a
    space or a tab. *)
Definition blockLine (col : Z) (l : list Z * list Z) : bool :=
  match fst l with
  | [] => false
  | c :: r => isSpaceByte c && forallb (Z.eqb c) r
  end
  && (col <? Z.of_nat (List.length (fst l)))
  && forallb lineByte (snd l)
  && negb (isSpaceByte (hd 10 (snd l))).

(** The bytes of the lines of a block, each line closed by a line feed;
    and the same without the indentation. *)
Definition lineBytes (l : list Z * list Z) : list Z := fst l ++ snd l ++ [10].
Definition lineTexts (lines : list (list Z * list Z)) : list Z :=
  flat_map (fun l => snd l ++ [10]) lines.

(** White space: space, tab, line feed and carriage return. *)
Definition isWhite (c : Z) : bool := (c =? 13) || (c =? 10) || (c =? 9) || (c =? 32).

(** A production that returns with the sink at the depth of entry. *)
Definition keepsLevel {A} (m : M A) : Prop :=
  forall p a p', m p = Ret a p' -> evLevel (ev p') = evLevel (ev p).

(** The counter of [flow] through nodes met while it is not positive: true
    when it stays so, that is when no node takes it to 1 and opens a
    block. *)
Fixpoint unopened (TypeIf TypeEnd TypeFor : string) (n : Z) (body : list Graph) : bool :=
  match body with
  | [] => true
  | x :: r =>
      let n1 := if isOpen TypeIf TypeFor x then n + 1 else n in
      let n2 := if isEnd TypeEnd x then n1 - 1 else n1 in
      (n1 <=? 0) && unopened TypeIf TypeEnd TypeFor n2 r
  end.

(** A node that [process] writes as it is: its text is none of the tags
    [process] looks for. *)
Definition literalNode (TypePath TypeExpression TypeIf TypeElse TypeFor TypeBreak : string)
    (x : Graph) : bool :=
  negb (thisString x =? TypePath)%string && negb (thisString x =? TypeExpression)%string
  && negb (thisString x =? TypeIf)%string && negb (thisString x =? TypeElse)%string
  && negb (thisString x =? TypeFor)%string && negb (thisString x =? TypeBreak)%string.

(** The texts of nodes, one after the other. *)
Fixpoint textsOf (l : list Graph) : string :=
  match l with
  | [] => ""%string
  | x :: r => (thisString x ++ textsOf r)%string
  end.

(** A text, k times. *)
Fixpoint times (k : nat) (s : string) : string :=
  match k with
  | O => ""%string
  | S k' => (s ++ times k' s)%string
  end.

(** Evaluators for running [process]: one in which every condition is
    true, one in which every source of a For is the graph [gi], and an
    assignment that keeps each value it is given as a new child of the
    context. *)
Definition yesEvalBool (c : Graph) (e : option Graph) : bool * Graph := (true, c).
Definition listEval (gi : Graph) (c : Graph) (e : option Graph) : value * Graph :=
  (VGraph (Some gi), c).
Definition addAssign (c : Graph) (path : option Graph) (v : Graph) : Graph :=
  addChild v c.

(** An If with its Template child and an Else with its children, as
    [flow] leaves them; a For whose body breaks; a list of three. *)
Definition ifFlowed : Graph := addChild (Node (PString "!t") [text "yes"]) ifNode.
Definition elseFlowed : Graph := Node (PString "!else") [text "no"].
Definition forBreak : Graph :=
  Node (PString "!for")
       [Node (PString "!g")
          [Node (PString "!e") [Node (PString "!p") [leaf "i"]];
           Node (PString "!e") [Node (PString "!p") [leaf "list"]]];
        Node (PString "!t") [text "x"; Node (PString "!break") []; text "y"]].
Definition list3 : Graph := Node (PString "list") [leaf "1"; leaf "2"; leaf "3"].

(** Modelled from the spec: the binary parser of section 4.5 as a state,
    the file it reads and the count of the bytes it has consumed.  The
    header is 01 'G' 00; a line is a level, and unless the level is 0 a
    type, a length and a payload of that length. *)
Definition binState : Type := File * Z.

Definition binNew (fl : File) : binState := (fl, 0).

Definition binTake (k : nat) (p : binState) : binState :=
  (mkFile (data (fst p)) (offset (fst p) + Z.of_nat k), snd p + Z.of_nat k).

Definition binRest (p : binState) : list Z :=
  skipn (Z.to_nat (offset (fst p))) (data (fst p)).

Definition binHeader (p : binState) : bool * binState :=
  match binRest p with
  | 1 :: 71 :: 0 :: _ => (true, binTake 3 p)
  | _ => (false, p)
  end.

Definition binLine (p : binState) : Z * binState :=
  let bs := binRest p in
  match varintDec bs 1 with
  | None => (0, binTake (List.length bs) p)
  | Some (level, r) =>
      if level =? 0 then (0, binTake (List.length bs - List.length r) p)
      else
        match r with
        | [] => (0, binTake (List.length bs) p)
        | _ :: r1 =>
            match varintDec r1 1 with
            | None => (0, binTake (List.length bs) p)
            | Some (len, r2) =>
                (level,
                 binTake (List.length bs - List.length (skipn (Z.to_nat len) r2)) p)
            end
        end
  end.

Definition getBinary0 : nat -> Log -> Z -> Outcome ((option (list Z) * option error * Z) * Log) :=
  LogGetBinary binState binNew binHeader binLine snd fst.

(** The encodings of T1 and T2, and the log that holds the one after the
    other. *)
Definition bytes1 : list Z := match binWrite T1 with Some b => b | None => [] end.
Definition bytes2 : list Z := match binWrite T2 with Some b => b | None => [] end.
Definition logB12 : Log := snd (LogAddBinary (snd (LogAddBinary emptyLog bytes1)) bytes2).
(** * Properties *)

(** ** Lines: indentation and groups *)

(** C1. A line whose indentation mixes a space and a tab is parsed like
    any other line: [Line] returns more = true and a nil error, the error
    value for the non-uniform space being built and dropped.  The end of
    the stream is not reached, so this holds whatever [Read] returns there. *)
Theorem Line_mixed_indentation_no_error (EOF : Z) :
  let r := run (Line EOF 100) (" " ++ tab ++ "a" ++ nl) in
  valueOf r = Some (true, None) /\
  sinkOf r = Some (mkEv 1 [(0, PString "a")]).
Proof. vm_compute. split; reflexivity. Qed.

(** C4. The line [a (b,c) d], where [d] follows the group without a
    comma, is accepted by [Line] with a nil error, whatever [Read] returns
    at the end of the stream, and so is the whole input by [Ogdl]; [d] is
    added as one more element. *)
Theorem element_after_group_accepted (EOF : Z) :
  let line := ("a (b,c) d" ++ nl)%string in
  valueOf (run (Line EOF 100) line) = Some (true, None) /\
  option_map items (sinkOf (run (Line EOF 100) line))
    = Some [(0, PString "a"); (1, PString "b"); (1, PString "c"); (2, PString "d")] /\
  valueOf (run (Ogdl eof0 100) line) = Some None /\
  valueOf (run (Ogdl eof0 100) "a (b,c) d") = Some None.
Proof. vm_compute. repeat split; reflexivity. Qed.

(** C8. In the quoted scalar ["a\"b"] the escaped quote does not end the
    scalar, but the backslash stays in the result, [a\"b]; a backslash
    before another character, as in ["a\\b"], comes out three times. *)
Theorem Quoted_keeps_backslash (EOF : Z) :
  valueOf (run (Quoted EOF 100) (dquote ++ "a" ++ bslash ++ dquote ++ "b" ++ dquote))
    = Some (("a" ++ bslash ++ dquote ++ "b")%string, true) /\
  valueOf (run (Quoted EOF 100) (dquote ++ "a" ++ bslash ++ bslash ++ "b" ++ dquote))
    = Some (("a" ++ bslash ++ bslash ++ bslash ++ "b")%string, true).
Proof. vm_compute. split; reflexivity. Qed.

(** The model on two inputs of the specification: nesting by indentation,
    and a block scalar. *)
Lemma nesting_by_indentation :
  option_map (GraphTop "root")
    (match run (Ogdl eof0 100) ("a" ++ nl ++ "  b" ++ nl ++ "  c" ++ nl) with
     | Ret None p => Some p
     | _ => None
     end)
  = Some (Node (PString "root") [Node (PString "a") [leaf "b"; leaf "c"]]).
Proof. vm_compute. reflexivity. Qed.

Lemma block_scalar :
  option_map (GraphTop "root")
    (match run (Ogdl eof0 200)
             ("x " ++ bslash ++ nl ++ "  line1" ++ nl ++ "  line2" ++ nl ++ "end" ++ nl) with
     | Ret None p => Some p
     | _ => None
     end)
  = Some (Node (PString "root")
            [Node (PString "x") [leaf ("line1" ++ nl ++ "line2")]; leaf "end"]).
Proof. vm_compute. reflexivity. Qed.

(** ** The sink across productions *)

Lemma bind_Ret {A B} (m : M A) (k : A -> M B) p b p' :
  bind m k p = Ret b p' -> exists a q, m p = Ret a q /\ k a q = Ret b p'.
Proof.
  unfold bind. destruct (m p) as [a q| |]; try discriminate.
  intros H. exists a, q. split; [reflexivity | exact H].
Qed.

Lemma keepsSink_ret {A} (a : A) : keepsSink (ret a).
Proof. intros p b p' H. inversion H. reflexivity. Qed.

Lemma keepsSink_bind {A B} (m : M A) (k : A -> M B) :
  keepsSink m -> (forall a, keepsSink (k a)) -> keepsSink (bind m k).
Proof.
  intros Hm Hk p b p' H.
  apply bind_Ret in H as (a & q & H1 & H2).
  rewrite (Hk a _ _ _ H2). exact (Hm _ _ _ H1).
Qed.

Lemma keepsSink_get {A} (g : Parser -> A) : keepsSink (get g).
Proof. intros p b p' H. inversion H. reflexivity. Qed.

Lemma keepsSink_modify (g : Parser -> Parser) :
  (forall p, ev (g p) = ev p) -> keepsSink (modify g).
Proof. intros Hg p b p' H. inversion H. apply Hg. Qed.

Lemma keepsSink_loop {S A} (body : S -> M (S + A)) :
  (forall s, keepsSink (body s)) -> forall fuel s, keepsSink (loop fuel body s).
Proof.
  intros Hb fuel. induction fuel as [|fuel IH]; intros s.
  - intros p a p' H. discriminate H.
  - cbn [loop]. apply keepsSink_bind; [apply Hb|].
    intros [s'|a]; [apply IH | apply keepsSink_ret].
Qed.

Lemma keepsSink_if {A} (b : bool) (m1 m2 : M A) :
  keepsSink m1 -> keepsSink m2 -> keepsSink (if b then m1 else m2).
Proof. destruct b; auto. Qed.

Section ReaderFacts.

Variable EOF : Z.

Lemma keepsSink_Read : keepsSink (Read EOF).
Proof. intros p a p' H. inversion H. reflexivity. Qed.

Lemma keepsSink_Unread : keepsSink Unread.
Proof. apply keepsSink_modify. reflexivity. Qed.

Lemma keepsSink_NextByteIs c : keepsSink (NextByteIs EOF c).
Proof.
  unfold NextByteIs. apply keepsSink_bind; [apply keepsSink_Read|].
  intros ch. apply keepsSink_if; [apply keepsSink_ret|].
  apply keepsSink_bind; [apply keepsSink_Unread | intros; apply keepsSink_ret].
Qed.

Lemma keepsSink_End : keepsSink (End_ EOF).
Proof.
  unfold End_. apply keepsSink_bind; [apply keepsSink_Read|].
  intros c. apply keepsSink_if; [apply keepsSink_ret|].
  apply keepsSink_bind; [apply keepsSink_Unread | intros; apply keepsSink_ret].
Qed.

Lemma keepsSink_Space fuel : keepsSink (Space EOF fuel).
Proof.
  unfold Space. apply keepsSink_bind; [apply keepsSink_get|].
  intros sp. apply keepsSink_if.
  - apply keepsSink_bind; [apply keepsSink_modify; reflexivity | intros; apply keepsSink_ret].
  - apply keepsSink_bind; [apply keepsSink_Read|]. intros c.
    apply keepsSink_if.
    + apply keepsSink_bind; [apply keepsSink_Unread | intros; apply keepsSink_ret].
    + apply keepsSink_bind; [|intros; apply keepsSink_ret].
      apply keepsSink_loop. intros n.
      apply keepsSink_bind; [apply keepsSink_Read|]. intros cs.
      apply keepsSink_if.
      * apply keepsSink_bind; [apply keepsSink_Unread | intros; apply keepsSink_ret].
      * apply keepsSink_if; apply keepsSink_ret.
Qed.

(** A production that ends in [SetLevel i], for the [i] it read from the
    sink on entry, returns at the depth of entry. *)
Lemma SetLevel_then_ret {A} (i : Z) (a : A) p b p' :
  (SetLevel i ;;; ret a) p = Ret b p' -> evLevel (ev p') = i.
Proof. intros H. inversion H. reflexivity. Qed.

Lemma Level_Ret p i q : Level p = Ret i q -> q = p /\ i = evLevel (ev p).
Proof. intros H. inversion H. split; reflexivity. Qed.

End ReaderFacts.

Section BracketFacts.

Variable EOF : Z.
Variable unicode_IsLetter : Z -> bool.
Variable unicode_IsDigit : Z -> bool.
Variables TypePath TypeExpression TypeGroup TypeIndex TypeSelector : string.

Local Abbreviation pIndex := (Index EOF unicode_IsLetter unicode_IsDigit
                           TypePath TypeExpression TypeGroup TypeIndex TypeSelector).
Local Abbreviation pSelector := (Selector EOF unicode_IsLetter unicode_IsDigit
                              TypePath TypeExpression TypeGroup TypeIndex TypeSelector).
Local Abbreviation pArgs := (Args EOF unicode_IsLetter unicode_IsDigit
                          TypePath TypeExpression TypeGroup TypeIndex TypeSelector).

(** Steps through [x <- m ;; k] in a hypothesis that the whole returns. *)
Ltac step H :=
  let a := fresh "a" in
  let q := fresh "q" in
  let E := fresh "E" in
  apply bind_Ret in H as (a & q & E & H).

Lemma Group_level fuel p e p' :
  Group EOF fuel p = Ret (true, e) p' -> evLevel (ev p') = evLevel (ev p).
Proof.
  destruct fuel as [|f]; [discriminate|].
  cbn [Group]. intros H.
  step H. apply keepsSink_NextByteIs in E.
  destruct a; cbn [negb] in H; [|inversion H].
  step H. apply Level_Ret in E0 as [-> ->].
  do 4 step H.
  destruct a2; cbn [negb] in H; [|inversion H].
  apply SetLevel_then_ret in H. rewrite H, E. reflexivity.
Qed.

Lemma Index_level fuel p p' :
  pIndex fuel p = Ret true p' -> evLevel (ev p') = evLevel (ev p).
Proof.
  destruct fuel as [|f]; [discriminate|].
  cbn [Index]. intros H.
  step H. apply keepsSink_NextByteIs in E.
  destruct a; cbn [negb] in H; [|inversion H].
  step H. apply Level_Ret in E0 as [-> ->].
  do 6 step H.
  destruct a4; cbn [negb] in H; [|inversion H].
  apply SetLevel_then_ret in H. rewrite H, E. reflexivity.
Qed.

Lemma Selector_level fuel p p' :
  pSelector fuel p = Ret true p' -> evLevel (ev p') = evLevel (ev p).
Proof.
  destruct fuel as [|f]; [discriminate|].
  cbn [Selector]. intros H.
  step H. apply keepsSink_NextByteIs in E.
  destruct a; cbn [negb] in H; [|inversion H].
  step H. apply Level_Ret in E0 as [-> ->].
  do 6 step H.
  destruct a4; cbn [negb] in H; [|inversion H].
  apply SetLevel_then_ret in H. rewrite H, E. reflexivity.
Qed.

Lemma Args_level fuel p e p' :
  pArgs fuel p = Ret (true, e) p' -> evLevel (ev p') = evLevel (ev p).
Proof.
  destruct fuel as [|f]; [discriminate|].
  cbn [Args]. intros H.
  step H. apply keepsSink_NextByteIs in E.
  destruct a; cbn [negb] in H; [|inversion H].
  step H. apply Level_Ret in E0 as [-> ->].
  do 6 step H.
  destruct a4; cbn [negb] in H; [|inversion H].
  apply SetLevel_then_ret in H. rewrite H, E. reflexivity.
Qed.

(** C9. Each of Group, Index, Selector and Args, when it succeeds, leaves
    the sink at the depth it had on entry to the production. *)
Theorem brackets_restore_level fuel p p' :
  (forall e, Group EOF fuel p = Ret (true, e) p' -> evLevel (ev p') = evLevel (ev p)) /\
  (pIndex fuel p = Ret true p' -> evLevel (ev p') = evLevel (ev p)) /\
  (pSelector fuel p = Ret true p' -> evLevel (ev p') = evLevel (ev p)) /\
  (forall e, pArgs fuel p = Ret (true, e) p' -> evLevel (ev p') = evLevel (ev p)).
Proof.
  repeat split; intros.
  - eapply Group_level; eassumption.
  - eapply Index_level; eassumption.
  - eapply Selector_level; eassumption.
  - eapply Args_level; eassumption.
Qed.

End BracketFacts.

Lemma brackets_restore_level_witness :
  let G := Group eof0 50 in
  let I := Index eof0 asciiLetter asciiDigit "!p" "!e" "!g" "!i" "!s" 50 in
  let S := Selector eof0 asciiLetter asciiDigit "!p" "!e" "!g" "!i" "!s" 50 in
  let A := Args eof0 asciiLetter asciiDigit "!p" "!e" "!g" "!i" "!s" 50 in
  let pg := atLevel 3 "(a b, c)" in
  let pi := atLevel 3 "[n+1]" in
  let ps := atLevel 3 "{x}" in
  let pa := atLevel 3 "(1, y)" in
  (valueOf (G pg) = Some (true, None) /\
   evLevel (ev (resultParser (G pg) pg)) = evLevel (ev pg)) /\
  (valueOf (I pi) = Some true /\
   evLevel (ev (resultParser (I pi) pi)) = evLevel (ev pi)) /\
  (valueOf (S ps) = Some true /\
   evLevel (ev (resultParser (S ps) ps)) = evLevel (ev ps)) /\
  (valueOf (A pa) = Some (true, None) /\
   evLevel (ev (resultParser (A pa) pa)) = evLevel (ev pa)).
Proof.
  intros G I S A pg pi ps pa.
  split; [|split; [|split]]; (split; [vm_compute; reflexivity|]).
  - apply (proj1 (brackets_restore_level eof0 asciiLetter asciiDigit
                    "!p" "!e" "!g" "!i" "!s" 50 pg (resultParser (G pg) pg)) None).
    vm_compute. reflexivity.
  - apply (proj1 (proj2 (brackets_restore_level eof0 asciiLetter asciiDigit
                    "!p" "!e" "!g" "!i" "!s" 50 pi (resultParser (I pi) pi)))).
    vm_compute. reflexivity.
  - apply (proj1 (proj2 (proj2 (brackets_restore_level eof0 asciiLetter asciiDigit
                    "!p" "!e" "!g" "!i" "!s" 50 ps (resultParser (S ps) ps))))).
    vm_compute. reflexivity.
  - apply (proj2 (proj2 (proj2 (brackets_restore_level eof0 asciiLetter asciiDigit
                    "!p" "!e" "!g" "!i" "!s" 50 pa (resultParser (A pa) pa)))) None).
    vm_compute. reflexivity.
Defined.

(** ** The errors [Line] can return *)

Lemma loop_result {S A} (P : A -> Prop) (body : S -> M (S + A)) :
  (forall s p a q, body s p = Ret (inr a) q -> P a) ->
  forall fuel s p a q, loop fuel body s p = Ret a q -> P a.
Proof.
  intros Hb fuel. induction fuel as [|fuel IH]; intros s p a q H; [discriminate|].
  cbn [loop] in H. apply bind_Ret in H as (r & p1 & H1 & H2).
  destruct r as [s'|a'].
  - eapply IH. exact H2.
  - inversion H2; subst. eapply Hb. exact H1.
Qed.

Section LineErrors.

Variable EOF : Z.

Ltac step H :=
  let a := fresh "a" in
  let q := fresh "q" in
  let E := fresh "E" in
  apply bind_Ret in H as (a & q & E & H).

Lemma Group_error fuel p b e q :
  Group EOF fuel p = Ret (b, Some e) q -> e = errors_New "missing )".
Proof.
  destruct fuel as [|f]; [discriminate|].
  cbn [Group]. intros H.
  step H. destruct a; cbn [negb] in H; [|inversion H].
  do 5 step H.
  destruct a3; cbn [negb] in H.
  - step H. inversion H.
  - inversion H. reflexivity.
Qed.

(** Whatever the input, the only error [Line] returns is the one of an
    unclosed group: no path returns the error of the non-uniform space. *)
Lemma Line_error fuel p b e q :
  Line EOF fuel p = Ret (b, Some e) q -> e = errors_New "missing )".
Proof.
  unfold Line. intros H.
  apply bind_Ret in H as ([sp n] & p1 & _ & H).
  apply bind_Ret in H as (en & p2 & _ & H).
  destruct en; [inversion H|].
  apply bind_Ret in H as (co & p3 & _ & H).
  apply bind_Ret in H as (u & p4 & _ & H).
  apply bind_Ret in H as (l & p5 & _ & H).
  apply bind_Ret in H as (u' & p6 & _ & H).
  apply bind_Ret in H as (out & p7 & HL & H).
  destruct out as [err|].
  - inversion H; subst. unfold LineLoop in HL.
    refine (loop_result (fun o => forall x, o = Some x -> x = errors_New "missing )")
              _ _ _ _ _ _ _ HL e eq_refl).
    clear. intros s p a q H x Hx. subst a.
    apply bind_Ret in H as ([gr err] & p1 & HG & H).
    apply bind_Ret in H as (r & p2 & Hr & H).
    destruct r as [u|out].
    + apply bind_Ret in H as (? & ? & _ & H).
      apply bind_Ret in H as (? & ? & _ & H).
      apply bind_Ret in H as (? & ? & _ & H).
      inversion H.
    + inversion H; subst. clear H.
      destruct gr; [inversion Hr|].
      destruct err as [e0|].
      * inversion Hr; subst. eapply Group_error. exact HG.
      * apply bind_Ret in Hr as (cm & p3 & _ & Hr). destruct cm.
        -- apply bind_Ret in Hr as (? & ? & _ & Hr).
           apply bind_Ret in Hr as (? & ? & _ & Hr). inversion Hr.
        -- apply bind_Ret in Hr as ([s0 ok] & p4 & _ & Hr). destruct ok.
           ++ apply bind_Ret in Hr as (? & ? & _ & Hr).
              apply bind_Ret in Hr as (? & ? & _ & Hr). inversion Hr.
           ++ apply bind_Ret in Hr as ([b0 ok] & p5 & _ & Hr). destruct ok.
              ** apply bind_Ret in Hr as (? & ? & _ & Hr). inversion Hr.
              ** apply bind_Ret in Hr as (? & ? & _ & Hr). inversion Hr.
  - apply bind_Ret in H as (? & ? & _ & H).
    apply bind_Ret in H as (? & ? & _ & H).
    apply bind_Ret in H as (? & ? & _ & H).
    inversion H.
Qed.

End LineErrors.

(** Laws for stepping through a production on a given state. *)
Lemma bind_assoc {A B C} (m : M A) (k : A -> M B) (h : B -> M C) p :
  bind (bind m k) h p = bind m (fun a => bind (k a) h) p.
Proof. unfold bind. destruct (m p); reflexivity. Qed.

Lemma bind_ret {A B} (a : A) (k : A -> M B) p : bind (ret a) k p = k a p.
Proof. reflexivity. Qed.

Lemma bind_eq {A B} (m : M A) (k : A -> M B) p a q :
  m p = Ret a q -> bind m k p = k a q.
Proof. intros H. unfold bind. rewrite H. reflexivity. Qed.

Lemma Read_at EOF pre c r sp it e :
  Read EOF (mkParser (pre ++ c :: r) (List.length pre) sp it e)
  = Ret c (mkParser (pre ++ c :: r) (S (List.length pre)) sp it e).
Proof. unfold Read, withPos. cbn [input pos spaces ind ev]. rewrite nth_middle. reflexivity. Qed.

Lemma Read_end EOF inp n sp it e :
  (List.length inp <= n)%nat ->
  Read EOF (mkParser inp n sp it e) = Ret EOF (mkParser inp (S n) sp it e).
Proof.
  intros H. unfold Read, withPos. cbn [input pos spaces ind ev].
  rewrite nth_overflow by exact H. reflexivity.
Qed.

Lemma Unread_at inp n sp it e :
  Unread (mkParser inp (S n) sp it e) = Ret tt (mkParser inp n sp it e).
Proof. reflexivity. Qed.

Lemma modify_at (g : Parser -> Parser) p : modify g p = Ret tt (g p).
Proof. reflexivity. Qed.

Ltac norm := repeat (rewrite bind_assoc || rewrite bind_ret); cbv beta iota.

(** ** The sink when the top-level parse returns *)

Section OgdlFacts.

Variable EOF : Z.

Ltac step H :=
  let a := fresh "a" in
  let q := fresh "q" in
  let E := fresh "E" in
  apply bind_Ret in H as (a & q & E & H).

(** [Line] reports the end of the input without touching the sink. *)
Lemma Line_no_more_keeps_sink fuel p q :
  Line EOF fuel p = Ret (false, None) q -> ev q = ev p.
Proof.
  unfold Line. intros H.
  step H. destruct a as [sp n].
  apply keepsSink_Space in E.
  step H. apply keepsSink_End in E0.
  destruct a.
  - inversion H; subst. congruence.
  - do 5 step H. destruct a3 as [err|].
    + inversion H.
    + do 3 step H. inversion H.
Qed.

Lemma Ogdl_loop_lines fuel n p q :
  loop n (fun _ : unit =>
            '(more, err) <- Line EOF fuel ;;
            match err with
            | Some e => ret (inr (Some e))
            | None => if negb more then ret (inr None) else ret (inl tt)
            end) tt p = Ret None q ->
  exists k p1, (k < n)%nat /\ linesN EOF fuel k p = Ret true p1 /\
               Line EOF fuel p1 = Ret (false, None) q.
Proof.
  revert p. induction n as [|n IH]; intros p H; [discriminate|].
  cbn [loop] in H. step H. step E. destruct a0 as [more [e|]].
  - inversion E; subst. inversion H.
  - destruct more; cbn [negb] in E; inversion E; subst.
    + apply IH in H as (k & p1 & Hlt & Hk & Hl).
      exists (S k), p1. split; [lia|]. split; [|exact Hl].
      cbn [linesN]. unfold bind at 1. rewrite E0. exact Hk.
    + inversion H; subst. exists O, p. split; [lia|]. split; [reflexivity | exact E0].
Qed.

(** The other way round: k lines and then the end of the input make the
    loop of [Ogdl] leave with no error, within k + 1 turns. *)
Lemma Ogdl_lines_loop fuel k : forall n p q q',
  (k < n)%nat ->
  linesN EOF fuel k p = Ret true q ->
  Line EOF fuel q = Ret (false, None) q' ->
  loop n (fun _ : unit =>
            '(more, err) <- Line EOF fuel ;;
            match err with
            | Some e => ret (inr (Some e))
            | None => if negb more then ret (inr None) else ret (inl tt)
            end) tt p = Ret None q'.
Proof.
  induction k as [|k IH]; intros n p q q' Hn Hk Hl;
    (destruct n as [|n]; [lia|]); cbn [loop]; norm.
  - inversion Hk; subst. rewrite (bind_eq _ _ _ _ _ Hl). reflexivity.
  - cbn [linesN] in Hk. step Hk. destruct a as [more err].
    rewrite (bind_eq _ _ _ _ _ E). cbv beta iota.
    destruct more; [|inversion Hk].
    destruct err as [e|]; [inversion Hk|].
    norm. cbn [negb]. norm. apply (IH n q0 q q'); [lia | exact Hk | exact Hl].
Qed.

Lemma End_returns p : exists b q, End_ EOF p = Ret b q /\ ev q = ev p.
Proof.
  destruct (End_ EOF p) as [b q| |] eqn:E.
  - exists b, q. split; [reflexivity|]. exact (keepsSink_End EOF _ _ _ E).
  - unfold End_, bind, Read in E. destruct (_ && _); discriminate E.
  - unfold End_, bind, Read in E. destruct (_ && _); discriminate E.
Qed.

(** C3, as the code has it.  [Ogdl] returns a nil error exactly when some
    number k of lines parse, each followed by more input, and the call of
    [Line] after them finds the end of the input; the sink, its depth
    included, is then the one the last of these k lines left: the call of
    [Line] that finds the end of the input and the final [End] do not
    touch it, and nothing resets the depth.  With no line at all (k = 0)
    the sink is the one [Ogdl] was entered with. *)
Theorem Ogdl_sink_of_last_line fuel p :
  (forall p',
     Ogdl EOF fuel p = Ret None p' ->
     exists k q q',
       (k < fuel)%nat /\
       linesN EOF fuel k p = Ret true q /\
       Line EOF fuel q = Ret (false, None) q' /\
       ev p' = ev q) /\
  (forall k q q',
     (k < fuel)%nat ->
     linesN EOF fuel k p = Ret true q ->
     Line EOF fuel q = Ret (false, None) q' ->
     exists p', Ogdl EOF fuel p = Ret None p' /\ ev p' = ev q).
Proof.
  split.
  - intros p' H. unfold Ogdl in H. step H. destruct a as [e|].
    + inversion H.
    + apply Ogdl_loop_lines in E as (k & p1 & Hlt & Hk & Hl).
      exists k, p1, q. split; [exact Hlt|]. split; [exact Hk|]. split; [exact Hl|].
      apply Line_no_more_keeps_sink in Hl.
      step H. apply keepsSink_End in E. inversion H; subst. congruence.
  - intros k q q' Hlt Hk Hl.
    destruct (End_returns q') as (b & p' & HE & Hev).
    exists p'. split.
    + unfold Ogdl. norm.
      rewrite (bind_eq _ _ _ _ _ (Ogdl_lines_loop fuel k fuel p q q' Hlt Hk Hl)).
      cbv beta iota. norm. rewrite (bind_eq _ _ _ _ _ HE). reflexivity.
    + apply Line_no_more_keeps_sink in Hl. congruence.
Qed.

End OgdlFacts.

Section EndOfStream.

Variable EOF : Z.
Hypothesis EOF_end : IsEndChar EOF = true.

Lemma EOF_facts : (EOF =? 32) = false /\ (EOF =? 9) = false.
Proof.
  unfold IsEndChar in EOF_end.
  destruct (EOF <? 32) eqn:E; [|discriminate].
  destruct (EOF =? 9) eqn:E9; [rewrite andb_false_r in EOF_end; discriminate|].
  apply Z.ltb_lt in E. split; [apply Z.eqb_neq; lia | reflexivity].
Qed.

(** Past the last byte, and with no spaces owed, [Line] finds the end. *)
Lemma Line_at_end fuel inp n it e :
  (List.length inp <= n)%nat ->
  Line EOF fuel (mkParser inp n 0 it e) = Ret (false, None) (mkParser inp (S n) 0 it e).
Proof.
  intros Hn. destruct EOF_facts as [H32 H9].
  unfold Line, Space, End_. norm.
  rewrite (bind_eq _ _ _ _ _ (eq_refl : get spaces (mkParser inp n 0 it e) = Ret 0 _)).
  change (0 <? 0) with false. cbv iota. norm.
  erewrite bind_eq by (apply Read_end; exact Hn).
  cbv beta. rewrite H32, H9. cbn [negb andb]. norm.
  rewrite (bind_eq _ _ _ _ _ (Unread_at _ _ _ _ _)). norm.
  erewrite bind_eq by (apply Read_end; exact Hn).
  cbv beta. fold (IsEndChar EOF). rewrite EOF_end. reflexivity.
Qed.

(** The input [a]: one line, and the sink stays at depth 1, whatever
    value marks the end of the stream. *)
Lemma Ogdl_single_element_depth :
  valueOf (run (Ogdl EOF 100) ("a" ++ nl)) = Some None /\
  levelOf (run (Ogdl EOF 100) ("a" ++ nl)) = Some 1.
Proof.
  assert (H1 : Line EOF 100 (NewStringParser ("a" ++ nl))
               = Ret (true, None) (mkParser [97; 10] 2 0 [0; 1] (mkEv 1 [(0, PString "a")])))
    by (vm_compute; reflexivity).
  assert (H : Ogdl EOF 100 (NewStringParser ("a" ++ nl))
              = Ret None (mkParser [97; 10] 4 0 [0; 1] (mkEv 1 [(0, PString "a")]))).
  { unfold Ogdl.
    change (loop 100 ?b ?s0) with (r <- b s0 ;;
                                   match r with
                                   | inl s' => r' <- b s' ;;
                                               match r' with
                                               | inl s'' => loop 98 b s''
                                               | inr x => ret x
                                               end
                                   | inr x => ret x
                                   end).
    cbv beta. norm.
    rewrite (bind_eq _ _ _ _ _ H1). norm. cbn [negb]. norm.
    erewrite bind_eq by (apply Line_at_end; cbn; lia).
    norm. cbn [negb]. norm.
    unfold End_. norm.
    erewrite bind_eq by (apply Read_end; cbn; lia).
    cbv beta. fold (IsEndChar EOF). rewrite EOF_end. reflexivity. }
  unfold run. rewrite H. split; reflexivity.
Qed.

End EndOfStream.

Lemma Ogdl_sink_of_last_line_witness :
  let s := ("a" ++ nl ++ "  b" ++ nl ++ "c" ++ nl)%string in
  let p := NewStringParser s in
  let p' := resultParser (Ogdl eof0 100 p) p in
  let q3 := resultParser (linesN eof0 100 3 p) p in
  let q3' := resultParser (Line eof0 100 q3) p in
  (exists k q q',
     (k < 100)%nat /\
     linesN eof0 100 k p = Ret true q /\
     Line eof0 100 q = Ret (false, None) q' /\
     ev p' = ev q) /\
  (exists p'', Ogdl eof0 100 p = Ret None p'' /\ ev p'' = ev q3).
Proof.
  intros s p p' q3 q3'. split.
  - apply (proj1 (Ogdl_sink_of_last_line eof0 100 p) p').
    vm_compute. reflexivity.
  - apply (proj2 (Ogdl_sink_of_last_line eof0 100 p) 3%nat q3 q3').
    + lia.
    + vm_compute. reflexivity.
    + vm_compute. reflexivity.
Defined.

(** The input of three lines above: the sink is left at depth 1, the
    depth after the last line [c], and not at the depth 2 that the line
    before it left. *)
Lemma Ogdl_three_lines_depth :
  let s := ("a" ++ nl ++ "  b" ++ nl ++ "c" ++ nl)%string in
  levelOf (run (linesN eof0 100 2) s) = Some 2 /\
  levelOf (run (linesN eof0 100 3) s) = Some 1 /\
  levelOf (run (Ogdl eof0 100) s) = Some 1.
Proof. vm_compute. repeat split; reflexivity. Qed.

(** A line feed alone is a line: after [a] and an empty line the sink is
    back at depth 0, the depth the empty line left. *)
Lemma Ogdl_empty_last_line_depth :
  let s := ("a" ++ nl ++ nl)%string in
  levelOf (run (linesN eof0 100 1) s) = Some 1 /\
  levelOf (run (linesN eof0 100 2) s) = Some 0 /\
  levelOf (run (Ogdl eof0 100) s) = Some 0.
Proof. vm_compute. repeat split; reflexivity. Qed.

(** C3, as stated, fails: after the input [a], which [Ogdl] accepts, the
    sink is at depth 1. *)
Lemma Ogdl_depth_not_zero :
  ~ (forall (s : string) (p' : Parser),
       run (Ogdl eof0 100) s = Ret None p' -> evLevel (ev p') = 0).
Proof.
  intros H.
  specialize (H "a"%string (resultParser (run (Ogdl eof0 100) "a") (NewStringParser "a"))).
  vm_compute in H. specialize (H eq_refl). discriminate H.
Qed.

(** ** Templates *)

Lemma sapp_assoc (a b c : string) : ((a ++ b) ++ c = a ++ (b ++ c))%string.
Proof. induction a as [|x a IH]; cbn; [reflexivity | rewrite IH; reflexivity]. Qed.

Lemma sapp_nil_r (a : string) : (a ++ "" = a)%string.
Proof. induction a as [|x a IH]; cbn; [reflexivity | rewrite IH; reflexivity]. Qed.

Lemma byte_code (a : ascii) : byte (code a) = a.
Proof.
  unfold byte, code.
  pose proof (N_ascii_bounded a) as Hb.
  rewrite Z.mod_small by lia.
  rewrite N2Z.id. apply ascii_N_embedding.
Qed.

Lemma stringOf_bytes (s : string) : stringOf (bytes s) = s.
Proof.
  induction s as [|a s IH]; cbn; [reflexivity|].
  rewrite byte_code, IH. reflexivity.
Qed.

Lemma length_bytes (s : string) : List.length (bytes s) = String.length s.
Proof. induction s as [|a s IH]; cbn; [reflexivity | rewrite IH; reflexivity]. Qed.

Section TemplateFacts.

Variable EOF : Z.
Variable unicode_IsLetter : Z -> bool.
Variable unicode_IsDigit : Z -> bool.
Variables TypePath TypeExpression TypeGroup TypeIndex TypeSelector : string.
Variables TypeTemplate TypeIf TypeElse TypeEnd TypeFor TypeBreak : string.
Variable Eval : Graph -> option Graph -> value * Graph.
Variable EvalBool : Graph -> option Graph -> bool * Graph.
Variable assign : Graph -> option Graph -> Graph -> Graph.
Variable gText : option Graph -> string.
Variable _string : value -> string.
Variable Ast : Graph -> Graph.

Local Abbreviation pText := (Text EOF).
Local Abbreviation pVariable := (Variable_ EOF unicode_IsLetter unicode_IsDigit
                                  TypePath TypeExpression TypeGroup TypeIndex TypeSelector).
Local Abbreviation pTemplate := (Template EOF unicode_IsLetter unicode_IsDigit
                                  TypePath TypeExpression TypeGroup TypeIndex TypeSelector).
Local Abbreviation tProcess := (process TypePath TypeExpression TypeIf TypeElse TypeFor
                                  TypeBreak Eval EvalBool assign gText _string).
Local Abbreviation tRender := (Process TypePath TypeExpression TypeIf TypeElse TypeFor
                                 TypeBreak Eval EvalBool assign gText _string).
Local Abbreviation tNew := (NewTemplate EOF unicode_IsLetter unicode_IsDigit
                              TypePath TypeExpression TypeGroup TypeIndex TypeSelector
                              TypeTemplate TypeIf TypeElse TypeEnd TypeFor TypeBreak Ast).

Hypothesis EOF_end : IsEndChar EOF = true.

Lemma EOF_not_text : IsTemplateTextChar EOF = false.
Proof. unfold IsTemplateTextChar. rewrite EOF_end. reflexivity. Qed.

Lemma EOF_not_dollar : (EOF =? 36) = false.
Proof.
  unfold IsEndChar in EOF_end.
  destruct (EOF <? 32) eqn:E; [|discriminate].
  apply Z.ltb_lt in E. apply Z.eqb_neq. lia.
Qed.

(** The loop of [Text] reads to the first byte that is not template text. *)
Lemma Text_loop_reads_all rest :
  forall pre buf sp it e fuel,
    forallb IsTemplateTextChar rest = true ->
    (List.length rest < fuel)%nat ->
    loop fuel (fun buf : string =>
                 c <- Read EOF ;;
                 if negb (IsTemplateTextChar c) then Unread ;;; ret (inr buf)
                 else ret (inl (push buf (byte c)))) buf
         (mkParser (pre ++ rest) (List.length pre) sp it e)
    = Ret (buf ++ stringOf rest)%string
          (mkParser (pre ++ rest) (List.length pre + List.length rest) sp it e).
Proof.
  induction rest as [|c r IH]; intros pre buf sp it e fuel Hall Hf.
  - destruct fuel as [|f]; [cbn in Hf; lia|].
    cbn [loop]. rewrite bind_assoc.
    rewrite (bind_eq _ _ _ _ _ (Read_end EOF (pre ++ []) (List.length pre) sp it e
               ltac:(rewrite length_app; cbn; lia))).
    cbv beta. rewrite EOF_not_text. cbn [negb].
    rewrite bind_assoc, (bind_eq _ _ _ _ _ (Unread_at _ _ sp it e)).
    cbn. rewrite sapp_nil_r, Nat.add_0_r. reflexivity.
  - destruct fuel as [|f]; [cbn in Hf; lia|].
    cbn [forallb] in Hall. apply andb_prop in Hall as [Hc Hr].
    cbn [loop]. rewrite bind_assoc.
    rewrite (bind_eq _ _ _ _ _ (Read_at EOF pre c r sp it e)).
    cbv beta. rewrite Hc. cbn [negb]. rewrite bind_ret.
    specialize (IH (pre ++ [c]) (push buf (byte c)) sp it e f Hr).
    rewrite <- app_assoc in IH. cbn [app] in IH.
    rewrite length_app in IH. cbn [List.length] in IH.
    rewrite Nat.add_1_r in IH.
    rewrite IH by (cbn in Hf; lia).
    unfold push. rewrite sapp_assoc. cbn [stringOf append List.length].
    f_equal. f_equal. lia.
Qed.

(** [Template] on text free of '$': one byte-array event at depth 0. *)
Lemma Template_literal (s : string) fuel :
  forallb IsTemplateTextChar (bytes s) = true ->
  (String.length s + 2 <= fuel)%nat ->
  exists p, pTemplate fuel (NewStringParser s) = Ret tt p /\
            ev p = mkEv 0 (match s with
                           | EmptyString => []
                           | _ => [(0, PBytes s)]
                           end).
Proof.
  intros Hall Hf.
  destruct fuel as [|[|f]]; [lia | lia |].
  assert (Hlast : forall inp n sp it e,
             (List.length inp <= n)%nat ->
             loop (S f) (fun _ : unit =>
                 t <- pText (S (S f)) ;;
                 if t then ret (inl tt)
                 else v <- pVariable (S (S f)) ;;
                      if v then ret (inl tt) else ret (inr tt)) tt
               (mkParser inp n sp it e)
             = Ret tt (mkParser inp n sp it e)).
  { intros inp n sp it e Hn.
    cbn [loop]. unfold Text, Variable_. norm.
    erewrite bind_eq by (apply Read_end; exact Hn).
    cbv beta. rewrite EOF_not_text. cbn [negb]. norm.
    rewrite (bind_eq _ _ _ _ _ (Unread_at _ _ _ _ _)). norm.
    erewrite bind_eq by (apply Read_end; exact Hn).
    cbv beta. rewrite EOF_not_dollar. cbn [negb]. norm.
    rewrite (bind_eq _ _ _ _ _ (Unread_at _ _ _ _ _)). norm.
    reflexivity. }
  destruct s as [|a s].
  - eexists. split.
    + unfold Template. cbn [loop]. unfold Text, Variable_, NewStringParser, NewParser.
      cbn [bytes]. norm.
      erewrite bind_eq by (apply Read_end; cbn; lia).
      cbv beta. rewrite EOF_not_text. cbn [negb]. norm.
      rewrite (bind_eq _ _ _ _ _ (Unread_at _ _ _ _ _)). norm.
      erewrite bind_eq by (apply Read_end; cbn; lia).
      cbv beta. rewrite EOF_not_dollar. cbn [negb]. norm.
      rewrite (bind_eq _ _ _ _ _ (Unread_at _ _ _ _ _)). norm.
      reflexivity.
    + reflexivity.
  - cbn [bytes forallb] in Hall. apply andb_prop in Hall as [Ha Hs].
    pose proof (Text_loop_reads_all (bytes s) [code a] (String (byte (code a)) "")
                  0 [] (mkEv 0 []) (S (S f)) Hs) as Hl.
    rewrite length_bytes in Hl. cbn [String.length] in Hf.
    specialize (Hl ltac:(lia)).
    cbn [app List.length] in Hl.
    eexists. split.
    + unfold Template.
      change (loop (S (S f)) ?b ?s0) with (r <- b s0 ;;
                                           match r with
                                           | inl s' => loop (S f) b s'
                                           | inr x => ret x
                                           end).
      cbv beta. unfold Text at 1. unfold NewStringParser, NewParser.
      cbn [bytes]. norm.
      rewrite (bind_eq _ _ _ _ _ (Read_at EOF [] (code a) (bytes s) 0 [] (mkEv 0 []))).
      cbv beta. rewrite Ha. cbn [negb List.length]. norm.
      rewrite (bind_eq _ _ _ _ _ Hl).
      unfold AddBytes. norm.
      rewrite (bind_eq _ _ _ _ _ (modify_at _ _)). norm.
      unfold withEv. cbn [input pos spaces ind ev].
      apply Hlast. cbn [List.length]. rewrite length_bytes. lia.
    + cbn [ev]. unfold evAdd. cbn [current items app].
      rewrite stringOf_bytes. rewrite byte_code. reflexivity.
Qed.

(** C6, as the code has it.  A template of template-text characters only
    (so without '$') that is not one of the tags the interpreter looks for
    renders as itself against any context, given that [Ast] leaves a
    template made of text nodes as it is. *)
Theorem literal_template_renders_itself (s : string) (fuel : nat) (c : Graph) :
  forallb IsTemplateTextChar (bytes s) = true ->
  (forall l, Ast (Node (PString TypeTemplate) (map text l))
             = Node (PString TypeTemplate) (map text l)) ->
  s <> TypePath -> s <> TypeExpression -> s <> TypeIf ->
  s <> TypeElse -> s <> TypeFor -> s <> TypeBreak ->
  (String.length s + 3 <= fuel)%nat ->
  exists t, tNew fuel s = Done t /\ tRender fuel t c = Done s.
Proof.
  intros Hall HAst Hp He Hi Hl Hf Hb Hfuel.
  destruct (Template_literal s fuel Hall ltac:(lia)) as (p & Hp1 & Hp2).
  unfold NewTemplate. rewrite Hp1. unfold GraphTop. rewrite Hp2.
  cbn [items].
  destruct fuel as [|[|[|f]]]; try lia.
  destruct s as [|a s].
  - cbn [fold_left]. pose proof (HAst []) as H0. cbn [map] in H0. rewrite H0.
    eexists. split; [reflexivity|]. reflexivity.
  - set (s0 := String a s) in *.
    cbn [fold_left fst snd Z.to_nat addAt]. unfold addChild. cbn [This Out app].
    pose proof (HAst [s0]) as H0. cbn [map] in H0. unfold text in H0 at 1.
    rewrite H0. fold (text s0).
    apply String.eqb_neq in Hp, He, Hi, Hl, Hf, Hb.
    assert (Hs : simplify TypePath TypeIf TypeElse TypeEnd TypeFor TypeBreak
                   (Node (PString TypeTemplate) [text s0])
                 = Node (PString TypeTemplate) [text s0]).
    { unfold simplify, simplifyNode, text, thisString.
      cbn [Out This map payloadString].
      rewrite String.eqb_sym, Hp. reflexivity. }
    rewrite Hs.
    exists (Node (PString TypeTemplate) [text s0]). split.
    + cbn [flow flowLoop Out This nth_error]. unfold text, thisString.
      cbn [This payloadString]. rewrite Hi, Hf.
      cbn [orb andb Z.eqb].
      destruct (s0 =? TypeElse)%string; cbn [andb];
      destruct (s0 =? TypeEnd)%string; cbn [andb Z.sub Z.eqb Z.ltb Z.compare Z.add Z.opp Z.pos_sub];
      destruct f; reflexivity.
    + unfold Process. cbn [process Out]. unfold text, thisString.
      cbn [This payloadString]. rewrite Hp, He, Hi, Hl, Hf, Hb.
      reflexivity.
Qed.

(** A literal that is the Break tag itself is taken for the directive:
    nothing is written.  This needs no more of the tag than that it is
    template text. *)
Lemma break_tag_renders_empty (s : string) (fuel : nat) (c : Graph) :
  s = TypeBreak -> s <> ""%string ->
  forallb IsTemplateTextChar (bytes s) = true ->
  (forall l, Ast (Node (PString TypeTemplate) (map text l))
             = Node (PString TypeTemplate) (map text l)) ->
  s <> TypePath -> s <> TypeExpression -> s <> TypeIf ->
  s <> TypeElse -> s <> TypeFor ->
  (String.length s + 3 <= fuel)%nat ->
  exists t, tNew fuel s = Done t /\ tRender fuel t c = Done ""%string.
Proof.
  intros Hb Hne Hall HAst Hp He Hi Hl Hf Hfuel.
  destruct (Template_literal s fuel Hall ltac:(lia)) as (p & Hp1 & Hp2).
  unfold NewTemplate. rewrite Hp1. unfold GraphTop. rewrite Hp2.
  cbn [items].
  destruct fuel as [|[|[|f]]]; try lia.
  destruct s as [|a s]; [contradiction Hne; reflexivity|].
  set (s0 := String a s) in *.
  cbn [fold_left fst snd Z.to_nat addAt]. unfold addChild. cbn [This Out app].
  pose proof (HAst [s0]) as H0. cbn [map] in H0. unfold text in H0 at 1.
  rewrite H0. fold (text s0).
  apply String.eqb_neq in Hp, He, Hi, Hl, Hf.
  assert (Hs : simplify TypePath TypeIf TypeElse TypeEnd TypeFor TypeBreak
                 (Node (PString TypeTemplate) [text s0])
               = Node (PString TypeTemplate) [text s0]).
  { unfold simplify, simplifyNode, text, thisString.
    cbn [Out This map payloadString].
    rewrite String.eqb_sym, Hp. reflexivity. }
  rewrite Hs.
  exists (Node (PString TypeTemplate) [text s0]). split.
  - cbn [flow flowLoop Out This nth_error]. unfold text, thisString.
    cbn [This payloadString]. rewrite Hi, Hf.
    cbn [orb andb Z.eqb].
    destruct (s0 =? TypeElse)%string; cbn [andb];
    destruct (s0 =? TypeEnd)%string; cbn [andb Z.sub Z.eqb Z.ltb Z.compare Z.add Z.opp Z.pos_sub];
    destruct f; reflexivity.
  - unfold Process. cbn [process Out]. unfold text, thisString.
    cbn [This payloadString]. rewrite Hp, He, Hi, Hl, Hf.
    rewrite <- Hb, String.eqb_refl. reflexivity.
Qed.

(** C2.  A For node whose source does not evaluate to a non-nil graph
    ends [process] at once with true, the break signal: nothing is written
    and the siblings after it are not processed. *)
Theorem For_not_iterable_breaks (fuel : nat) (tag : payload) (forNode : Graph)
    (rest : list Graph) (c c' : Graph) (buffer : string) (v : value) :
  thisString forNode = TypeFor ->
  TypeFor <> TypePath -> TypeFor <> TypeExpression ->
  TypeFor <> TypeIf -> TypeFor <> TypeElse ->
  Eval c (GetAt (GetAt (Some forNode) 0) 1) = (v, c') ->
  (forall gi, v <> VGraph (Some gi)) ->
  tProcess (S fuel) (Some (Node tag (forNode :: rest))) c buffer
  = Done (c', buffer, true).
Proof.
  intros Hs Hp He Hi Hl Hev Hv.
  apply String.eqb_neq in Hp, He, Hi, Hl.
  cbn [process Out]. rewrite Hs, Hp, He, Hi, Hl, String.eqb_refl, Hev.
  destruct v as [[gi|]| |]; try reflexivity.
  exfalso. apply (Hv gi). reflexivity.
Qed.

End TemplateFacts.

Lemma literal_template_renders_itself_witness :
  exists t, newTemplate0 20 "Hello, world" = Done t /\
            Process0 20 t (leaf "ctx") = Done "Hello, world"%string.
Proof.
  apply (literal_template_renders_itself eof0 asciiLetter asciiDigit
           "!p" "!e" "!g" "!i" "!s" "!t" "!if" "!else" "!end" "!for" "!break"
           noEval noEvalBool noAssign noText nilString (fun g => g)
           eq_refl "Hello, world" 20 (leaf "ctx")).
  - vm_compute. reflexivity.
  - intros l. reflexivity.
  - discriminate.
  - discriminate.
  - discriminate.
  - discriminate.
  - discriminate.
  - discriminate.
  - cbn. lia.
Defined.

(** C6, as stated, fails: the template [!break] has no '$', and renders as
    the empty text. *)
Lemma tag_text_not_rendered :
  ~ (forall (s : string) (c : Graph),
       forallb IsTemplateTextChar (bytes s) = true ->
       exists t, newTemplate0 20 s = Done t /\ Process0 20 t c = Done s).
Proof.
  intros H.
  destruct (H "!break"%string (leaf "ctx") eq_refl) as (t & Ht & Hr).
  vm_compute in Ht. inversion Ht; subst t.
  vm_compute in Hr. discriminate Hr.
Qed.

Lemma For_not_iterable_breaks_witness :
  process0 5 (Some (Node (PString "!t") [forNode0; text " tail"])) (leaf "ctx") ""
  = Done (leaf "ctx", ""%string, true).
Proof.
  apply (For_not_iterable_breaks "!p" "!e" "!if" "!else" "!for" "!break"
           noEval noEvalBool noAssign noText nilString
           4 (PString "!t") forNode0 [text " tail"] (leaf "ctx") (leaf "ctx") "" VNil).
  - reflexivity.
  - discriminate.
  - discriminate.
  - discriminate.
  - discriminate.
  - reflexivity.
  - discriminate.
Defined.

(** The template [$for(i,list)x$end tail] against a context without
    [list]: the For node ends the rendering, and [ tail] is not written. *)
Lemma For_over_missing_list_drops_tail :
  newTemplate0 50 "$for(i,list)x$end tail"
    = Done (Node (PString "!t") [forNode0; text " tail"]) /\
  Process0 50 (Node (PString "!t") [forNode0; text " tail"]) (leaf "ctx")
    = Done ""%string.
Proof. vm_compute. split; reflexivity. Qed.

(** ** Flow *)

Lemma updateAt_length {A} (f : A -> A) (l : list A) : forall i,
  List.length (updateAt i f l) = List.length l.
Proof.
  induction l as [|x l IH]; intros [|i]; cbn; try reflexivity.
  rewrite IH. reflexivity.
Qed.

Lemma updateAt_app_l {A} (f : A -> A) (l1 l2 : list A) : forall i,
  (i < List.length l1)%nat -> updateAt i f (l1 ++ l2) = updateAt i f l1 ++ l2.
Proof.
  induction l1 as [|x l1 IH]; intros i Hi; cbn in Hi; [lia|].
  destruct i as [|i]; cbn; [reflexivity|].
  rewrite IH by lia. reflexivity.
Qed.

Lemma updateAt_app_r {A} (f : A -> A) (l1 l2 : list A) i :
  updateAt (List.length l1 + i) f (l1 ++ l2) = l1 ++ updateAt i f l2.
Proof.
  induction l1 as [|x l1 IH]; cbn; [reflexivity|].
  rewrite IH. reflexivity.
Qed.

Lemma deleteAt_app_r {A} (l1 l2 : list A) i :
  deleteAt (List.length l1 + i) (l1 ++ l2) = l1 ++ deleteAt i l2.
Proof.
  induction l1 as [|x l1 IH]; cbn; [reflexivity|].
  rewrite IH. reflexivity.
Qed.

Lemma nth_error_app_r {A} (l1 l2 : list A) i :
  nth_error (l1 ++ l2) (List.length l1 + i) = nth_error l2 i.
Proof.
  induction l1 as [|x l1 IH]; cbn; [reflexivity | exact IH].
Qed.

Lemma nth_error_app_l {A} (l1 l2 : list A) : forall i,
  (i < List.length l1)%nat -> nth_error (l1 ++ l2) i = nth_error l1 i.
Proof.
  induction l1 as [|x l1 IH]; intros i Hi; cbn in Hi; [lia|].
  destruct i as [|i]; cbn; [reflexivity|]. apply IH. lia.
Qed.

Lemma nth_error_middle {A} (l1 l2 : list A) x :
  nth_error (l1 ++ x :: l2) (List.length l1) = Some x.
Proof. induction l1 as [|y l1 IH]; cbn; [reflexivity | exact IH]. Qed.

Lemma deleteAt_middle {A} (l1 l2 : list A) x :
  deleteAt (List.length l1) (l1 ++ x :: l2) = l1 ++ l2.
Proof. induction l1 as [|y l1 IH]; cbn; [reflexivity | rewrite IH; reflexivity]. Qed.

Lemma updateAt_middle {A} (f : A -> A) (l1 l2 : list A) x :
  updateAt (List.length l1) f (l1 ++ x :: l2) = l1 ++ f x :: l2.
Proof. induction l1 as [|y l1 IH]; cbn; [reflexivity | rewrite IH; reflexivity]. Qed.

Lemma nodAdd_length r x l : List.length (nodAdd r x l) = List.length l.
Proof. destruct r; cbn; apply updateAt_length. Qed.

Lemma nodAdd_app_l r x l1 l2 :
  refIn r l1 -> nodAdd r x (l1 ++ l2) = nodAdd r x l1 ++ l2.
Proof. destruct r; cbn; intros H; apply updateAt_app_l; exact H. Qed.

Lemma nodAdd_refIn r x l : refIn r l -> refIn r (nodAdd r x l).
Proof. destruct r; cbn; rewrite updateAt_length; auto. Qed.

Lemma nodAdd_shift d r x l :
  nodAdd (shiftRef (List.length d) r) x (d ++ l) = d ++ nodAdd r x l.
Proof. destruct r; cbn; apply updateAt_app_r. Qed.

Lemma nodSet_shift d r g l :
  nodSet (shiftRef (List.length d) r) g (d ++ l) = d ++ nodSet r g l.
Proof. destruct r; cbn; apply updateAt_app_r. Qed.

Lemma nodGet_shift d r l :
  nodGet (shiftRef (List.length d) r) (d ++ l) = nodGet r l.
Proof. destruct r; cbn; rewrite nth_error_app_r; reflexivity. Qed.

Lemma collect_length r body : forall done,
  List.length (collect r body done) = List.length done.
Proof.
  induction body as [|x b IH]; intros done; cbn; [reflexivity|].
  unfold collect in IH. rewrite IH. apply nodAdd_length.
Qed.

Lemma collect_shift d r body : forall l,
  collect (shiftRef (List.length d) r) body (d ++ l) = d ++ collect r body l.
Proof.
  induction body as [|x b IH]; intros l; cbn; [reflexivity|].
  rewrite nodAdd_shift. apply IH.
Qed.

Lemma collect_self t body : forall o,
  collect (NodSelf 0) body [Node t o] = [Node t (o ++ body)].
Proof.
  induction body as [|x b IH]; intros o; cbn.
  - rewrite app_nil_r. reflexivity.
  - unfold collect in IH. unfold addChild. cbn [This Out].
    rewrite IH, <- app_assoc. reflexivity.
Qed.

Lemma collect_child t o v body : forall l,
  collect (NodChild 0 (List.length o)) body [Node t (o ++ [Node v l])]
  = [Node t (o ++ [Node v (l ++ body)])].
Proof.
  induction body as [|x b IH]; intros l; cbn.
  - rewrite app_nil_r. reflexivity.
  - rewrite updateAt_middle. unfold addChild. cbn [This Out].
    unfold collect in IH. rewrite IH, <- app_assoc. reflexivity.
Qed.

Section FlowFacts.

Variables TypeTemplate TypeIf TypeElse TypeEnd TypeFor : string.

Local Abbreviation tFlow := (flow TypeTemplate TypeIf TypeElse TypeEnd TypeFor).
Local Abbreviation tFlowLoop := (flowLoop TypeTemplate TypeIf TypeElse TypeEnd TypeFor).
Local Abbreviation tOpen := (isOpen TypeIf TypeFor).
Local Abbreviation tElse := (isElse TypeElse).
Local Abbreviation tEnd := (isEnd TypeEnd).
Local Abbreviation tInner := (inner TypeIf TypeElse TypeEnd TypeFor).

(** One turn of the loop, unfolded. *)
Lemma flowLoop_S f out i n nod :
  tFlowLoop (S f) out i n nod =
  match nth_error out i with
  | None => Done out
  | Some node =>
      let n1 := if tOpen node then n + 1 else n in
      if tOpen node && (n1 =? 1) then
        tFlowLoop f (updateAt i (addChild (Node (PString TypeTemplate) [])) out)
                  (S i) n1 (Some (NodChild i (List.length (Out node))))
      else if tElse node && (n1 =? 1) then
        match nod with
        | None => Crash
        | Some r =>
            match nodGet r out with
            | None => Crash
            | Some g =>
                match tFlow f g with
                | Done g' => tFlowLoop f (nodSet r g' out) (S i) n1 (Some (NodSelf i))
                | Crash => Crash
                | NoFuel => NoFuel
                end
            end
        end
      else
        let n2 := if tEnd node then n1 - 1 else n1 in
        if tEnd node && (n2 =? 0) then
          match nod with
          | None => Crash
          | Some r =>
              match nodGet r out with
              | None => Crash
              | Some g =>
                  match tFlow f g with
                  | Done g' => tFlowLoop f (deleteAt i (nodSet r g' out)) i n2 nod
                  | Crash => Crash
                  | NoFuel => NoFuel
                  end
              end
          end
        else if 0 <? n2 then
          match nod with
          | None => Crash
          | Some r => tFlowLoop f (deleteAt i (nodAdd r node out)) i n2 nod
          end
        else tFlowLoop f out (S i) n2 nod
  end.
Proof. reflexivity. Qed.

(** While the counter is not positive, [nod] is not looked at. *)
Lemma flowLoop_nod_unused f : forall out i n nod nod',
  n <= 0 -> tFlowLoop f out i n nod = tFlowLoop f out i n nod'.
Proof.
  induction f as [|f IH]; intros out i n nod nod' Hn; [reflexivity|].
  rewrite !flowLoop_S.
  destruct (nth_error out i) as [node|]; [|reflexivity].
  cbv zeta.
  destruct (tOpen node); cbn [andb].
  - destruct (n + 1 =? 1) eqn:E1; [reflexivity|].
    apply Z.eqb_neq in E1. rewrite andb_false_r.
    destruct (tEnd node); cbn [andb].
    + replace (n + 1 - 1 =? 0) with false by (symmetry; apply Z.eqb_neq; lia).
      replace (0 <? n + 1 - 1) with false by (symmetry; apply Z.ltb_ge; lia).
      apply IH. lia.
    + replace (0 <? n + 1) with false by (symmetry; apply Z.ltb_ge; lia).
      apply IH. lia.
  - replace (n =? 1) with false by (symmetry; apply Z.eqb_neq; lia).
    rewrite andb_false_r.
    destruct (tEnd node); cbn [andb].
    + replace (n - 1 =? 0) with false by (symmetry; apply Z.eqb_neq; lia).
      replace (0 <? n - 1) with false by (symmetry; apply Z.ltb_ge; lia).
      apply IH. lia.
    + replace (0 <? n) with false by (symmetry; apply Z.ltb_ge; lia).
      apply IH. lia.
Qed.

(** Nodes before the index stay as they are. *)
Lemma flowLoop_shift f d : forall l i n nod,
  tFlowLoop f (d ++ l) (List.length d + i) n (option_map (shiftRef (List.length d)) nod)
  = mapOutcome (app d) (tFlowLoop f l i n nod).
Proof.
  induction f as [|f IH]; intros l i n nod; [reflexivity|].
  rewrite !flowLoop_S. rewrite nth_error_app_r.
  destruct (nth_error l i) as [node|]; [|reflexivity].
  cbv zeta.
  destruct (tOpen node && _).
  { rewrite updateAt_app_r, plus_n_Sm.
    apply (IH _ (S i) _ (Some (NodChild i (List.length (Out node))))). }
  destruct (tElse node && _).
  { destruct nod as [r|]; [|reflexivity]. cbn [option_map].
    rewrite nodGet_shift. destruct (nodGet r l) as [g|]; [|reflexivity].
    destruct (tFlow f g) as [g'| |]; try reflexivity.
    rewrite nodSet_shift, plus_n_Sm.
    apply (IH _ (S i) _ (Some (NodSelf i))). }
  destruct (tEnd node && _).
  { destruct nod as [r|]; [|reflexivity]. cbn [option_map].
    rewrite nodGet_shift. destruct (nodGet r l) as [g|]; [|reflexivity].
    destruct (tFlow f g) as [g'| |]; try reflexivity.
    rewrite nodSet_shift, deleteAt_app_r.
    apply (IH _ i _ (Some r)). }
  destruct (0 <? _).
  { destruct nod as [r|]; [|reflexivity]. cbn [option_map].
    rewrite nodAdd_shift, deleteAt_app_r.
    apply (IH _ i _ (Some r)). }
  rewrite plus_n_Sm. apply IH.
Qed.

(** The nodes of a block are moved under [nod], one turn each. *)
Lemma flowLoop_collect body : forall done rest n n' r f,
  tInner n body = Some n' ->
  refIn r done ->
  tFlowLoop (List.length body + f) (done ++ body ++ rest) (List.length done) n (Some r)
  = tFlowLoop f (collect r body done ++ rest) (List.length done) n' (Some r).
Proof.
  induction body as [|x b IH]; intros done rest n n' r f Hin Hr.
  - cbn in Hin. inversion Hin. reflexivity.
  - cbn [List.length Nat.add app]. rewrite flowLoop_S, nth_error_middle.
    cbn [inner] in Hin. cbv zeta in Hin |- *.
    destruct ((tOpen x || tElse x) && _) eqn:E; [discriminate|].
    assert (E1 : tOpen x && ((if tOpen x then n + 1 else n) =? 1) = false).
    { destruct (tOpen x); cbn in E |- *; [exact E | reflexivity]. }
    assert (E2 : tElse x && ((if tOpen x then n + 1 else n) =? 1) = false).
    { destruct (tElse x); [|reflexivity]. rewrite orb_true_r in E. exact E. }
    rewrite E1, E2.
    destruct (0 <? _) eqn:E3; [|discriminate].
    replace (tEnd x && _) with false.
    2:{ symmetry. apply andb_false_iff. right. apply Z.eqb_neq.
        apply Z.ltb_lt in E3. lia. }
    rewrite nodAdd_app_l by exact Hr.
    rewrite <- (nodAdd_length r x done) at 1.
    rewrite deleteAt_middle.
    rewrite <- (nodAdd_length r x done) at 1 2.
    rewrite (IH _ _ _ _ _ _ Hin (nodAdd_refIn _ _ _ Hr)).
    rewrite nodAdd_length. reflexivity.
Qed.

Hypothesis End_not_If : TypeEnd <> TypeIf.
Hypothesis End_not_For : TypeEnd <> TypeFor.
Hypothesis End_not_Else : TypeEnd <> TypeElse.

Lemma isEnd_not_open x : tEnd x = true -> tOpen x = false.
Proof.
  unfold isEnd, isOpen. intros H. apply String.eqb_eq in H. rewrite H.
  apply orb_false_iff. split; apply String.eqb_neq; assumption.
Qed.

Lemma isEnd_not_else x : tEnd x = true -> tElse x = false.
Proof.
  unfold isEnd, isElse. intros H. apply String.eqb_eq in H. rewrite H.
  apply String.eqb_neq; assumption.
Qed.

(** The turns of the loop that open and close a block. *)
Lemma flowLoop_open f out i nod node :
  nth_error out i = Some node -> tOpen node = true ->
  tFlowLoop (S f) out i 0 nod
  = tFlowLoop f (updateAt i (addChild (Node (PString TypeTemplate) [])) out)
              (S i) 1 (Some (NodChild i (List.length (Out node)))).
Proof.
  intros Hn Ho. rewrite flowLoop_S, Hn. cbv zeta. rewrite Ho. reflexivity.
Qed.

Lemma flowLoop_close f out i r node g :
  nth_error out i = Some node -> tEnd node = true ->
  nodGet r out = Some g ->
  tFlowLoop (S f) out i 1 (Some r)
  = match tFlow f g with
    | Done g' => tFlowLoop f (deleteAt i (nodSet r g' out)) i 0 (Some r)
    | Crash => Crash
    | NoFuel => NoFuel
    end.
Proof.
  intros Hn He Hg. rewrite flowLoop_S, Hn. cbv zeta.
  rewrite (isEnd_not_open _ He), (isEnd_not_else _ He), He, Hg. reflexivity.
Qed.

(** The counter is at 0 and a node that is neither If, For nor End comes:
    it stays where it is. *)
Lemma flowLoop_plain f x rest :
  tOpen x = false -> tEnd x = false ->
  tFlowLoop (S f) (x :: rest) 0 0 None
  = mapOutcome (cons x) (tFlowLoop f rest 0 0 None).
Proof.
  intros Ho He. rewrite flowLoop_S. cbn [nth_error]. cbv zeta.
  rewrite Ho, He. cbn [andb]. rewrite andb_false_r.
  change (0 <? 0) with false. cbv iota.
  apply (flowLoop_shift f [x] rest 0 0 None).
Qed.

(** A block with no Else of its own. *)
Lemma flowLoop_block f opener body endNode rest :
  tOpen opener = true -> tEnd endNode = true ->
  tInner 1 body = Some 1 ->
  tFlowLoop (S (List.length body + S f)) (opener :: body ++ endNode :: rest) 0 0 None
  = match tFlow f (Node (PString TypeTemplate) body) with
    | Done t' => mapOutcome (cons (addChild t' opener)) (tFlowLoop f rest 0 0 None)
    | Crash => Crash
    | NoFuel => NoFuel
    end.
Proof.
  intros Ho He Hin.
  erewrite flowLoop_open; [|reflexivity | exact Ho]. cbn [updateAt].
  pose proof (flowLoop_collect body [addChild (Node (PString TypeTemplate) []) opener]
                (endNode :: rest) 1 1 (NodChild 0 (List.length (Out opener))) (S f) Hin) as Hc.
  cbn [List.length app refIn] in Hc. rewrite Hc by lia. clear Hc.
  unfold addChild at 1. rewrite collect_child. cbn [app].
  erewrite flowLoop_close;
    [|reflexivity | exact He | cbn [nodGet nth_error GetAt Out]; apply nth_error_middle].
  destruct (tFlow f (Node (PString TypeTemplate) body)) as [t'| |]; try reflexivity.
  cbn [nodSet updateAt Out This deleteAt]. rewrite updateAt_middle.
  rewrite (flowLoop_nod_unused f _ 1 0 _ None) by lia.
  apply (flowLoop_shift f [Node (This opener) (Out opener ++ [t'])] rest 0 0 None).
Qed.

Hypothesis Else_not_If : TypeElse <> TypeIf.
Hypothesis Else_not_For : TypeElse <> TypeFor.

Lemma isElse_not_open x : tElse x = true -> tOpen x = false.
Proof.
  unfold isElse, isOpen. intros H. apply String.eqb_eq in H. rewrite H.
  apply orb_false_iff. split; apply String.eqb_neq; assumption.
Qed.

Lemma flowLoop_else f out i r node g :
  nth_error out i = Some node -> tElse node = true ->
  nodGet r out = Some g ->
  tFlowLoop (S f) out i 1 (Some r)
  = match tFlow f g with
    | Done g' => tFlowLoop f (nodSet r g' out) (S i) 1 (Some (NodSelf i))
    | Crash => Crash
    | NoFuel => NoFuel
    end.
Proof.
  intros Hn Hl Hg. rewrite flowLoop_S, Hn. cbv zeta.
  rewrite (isElse_not_open _ Hl), Hl, Hg. reflexivity.
Qed.

(** A block with an Else of its own: the Else stays in the list and takes
    the nodes after it. *)
Lemma flowLoop_block_else f opener body1 elseNode body2 endNode rest :
  tOpen opener = true -> tElse elseNode = true -> tEnd endNode = true ->
  tInner 1 body1 = Some 1 -> tInner 1 body2 = Some 1 ->
  tFlowLoop (S (List.length body1 + S (List.length body2 + S f)))
            (opener :: body1 ++ elseNode :: body2 ++ endNode :: rest) 0 0 None
  = match tFlow (List.length body2 + S f) (Node (PString TypeTemplate) body1) with
    | Done t1 =>
        match tFlow f (Node (This elseNode) (Out elseNode ++ body2)) with
        | Done e' =>
            mapOutcome (fun l => addChild t1 opener :: e' :: l) (tFlowLoop f rest 0 0 None)
        | Crash => Crash
        | NoFuel => NoFuel
        end
    | Crash => Crash
    | NoFuel => NoFuel
    end.
Proof.
  intros Ho Hl He Hin1 Hin2.
  erewrite flowLoop_open; [|reflexivity | exact Ho]. cbn [updateAt].
  pose proof (flowLoop_collect body1 [addChild (Node (PString TypeTemplate) []) opener]
                (elseNode :: body2 ++ endNode :: rest) 1 1
                (NodChild 0 (List.length (Out opener)))
                (S (List.length body2 + S f)) Hin1) as Hc.
  cbn [List.length app refIn] in Hc. rewrite Hc by lia. clear Hc.
  unfold addChild at 1. rewrite collect_child. cbn [app].
  erewrite flowLoop_else;
    [|reflexivity | exact Hl | cbn [nodGet nth_error GetAt Out]; apply nth_error_middle].
  destruct (tFlow (List.length body2 + S f) (Node (PString TypeTemplate) body1))
    as [t1| |]; try reflexivity.
  cbn [nodSet updateAt Out This]. rewrite updateAt_middle.
  set (o1 := Node (This opener) (Out opener ++ [t1])).
  pose proof (flowLoop_collect body2 [o1; elseNode] (endNode :: rest) 1 1
                (NodSelf 1) (S f) Hin2) as Hc.
  cbn [List.length refIn] in Hc.
  change ([o1; elseNode] ++ body2 ++ endNode :: rest)
    with (o1 :: elseNode :: body2 ++ endNode :: rest) in Hc.
  rewrite Hc by lia. clear Hc.
  change (NodSelf 1) with (shiftRef (List.length [o1]) (NodSelf 0)).
  change [o1; elseNode] with ([o1] ++ [elseNode]).
  rewrite collect_shift. destruct elseNode as [te oe].
  rewrite collect_self. cbn [app List.length shiftRef Nat.add This Out].
  erewrite flowLoop_close; [|reflexivity | exact He | reflexivity].
  destruct (tFlow f (Node te (oe ++ body2))) as [e'| |]; try reflexivity.
  cbn [nodSet updateAt deleteAt].
  rewrite (flowLoop_nod_unused f _ 2 0 _ None) by lia.
  apply (flowLoop_shift f [o1; e'] rest 0 0 None).
Qed.

Local Abbreviation tWellFormed := (wellFormed TypeIf TypeElse TypeEnd TypeFor).
Local Abbreviation tNested := (nested TypeTemplate).

Lemma isOpen_not_end x : tOpen x = true -> tEnd x = false.
Proof.
  intros Ho. destruct (tEnd x) eqn:He; [|reflexivity].
  rewrite (isEnd_not_open _ He) in Ho. discriminate Ho.
Qed.

Lemma isElse_not_end x : tElse x = true -> tEnd x = false.
Proof.
  intros Hl. destruct (tEnd x) eqn:He; [|reflexivity].
  rewrite (isEnd_not_else _ He) in Hl. discriminate Hl.
Qed.

(** Through the nodes of a well-formed shape the counter, once positive,
    stays positive and comes back to where it was, and it meets no Else
    while it is 1: every End in it matches an If or For in it. *)
Lemma wellFormed_inner t : forall n l,
  tWellFormed t = true -> 1 <= n -> tInner n (flat t ++ l) = tInner n l.
Proof.
  assert (Hstep : forall x n1 n2 r, 
            0 < n2 -> 
            (if tOpen x then n1 + 1 else n1) <> 1 \/ (tOpen x = false /\ tElse x = false) ->
            (if tEnd x then (if tOpen x then n1 + 1 else n1) - 1
             else (if tOpen x then n1 + 1 else n1)) = n2 ->
            tInner n1 (x :: r) = tInner n2 r).
  { intros x n1 n2 r Hpos Hc Hn2. cbn [inner]. cbv zeta.
    replace ((tOpen x || tElse x) && ((if tOpen x then n1 + 1 else n1) =? 1)) with false.
    - rewrite Hn2.
      replace (0 <? n2) with true by (symmetry; apply Z.ltb_lt; exact Hpos).
      reflexivity.
    - symmetry. destruct Hc as [Hc | [Ho Hl]].
      + apply andb_false_iff. right. apply Z.eqb_neq. exact Hc.
      + rewrite Ho, Hl. reflexivity. }
  induction t as [|x rest IHr|opener body IHb endNode rest IHr
                  |opener body1 IH1 elseNode body2 IH2 endNode rest IHr];
    intros n l Hwf Hn; cbn [flat app wellFormed] in *.
  - reflexivity.
  - apply andb_prop in Hwf as [Hwf Hr]. apply andb_prop in Hwf as [Hwf He].
    apply andb_prop in Hwf as [Ho Hl].
    apply negb_true_iff in Ho, Hl, He.
    rewrite (Hstep x n n); [apply IHr; assumption | lia | right; split; assumption |].
    rewrite Ho, He. reflexivity.
  - apply andb_prop in Hwf as [Hwf Hr]. apply andb_prop in Hwf as [Hwf Hb].
    apply andb_prop in Hwf as [Ho He].
    rewrite (Hstep opener n (n + 1));
      [| lia | left; rewrite Ho; lia | rewrite Ho, (isOpen_not_end _ Ho); reflexivity].
    rewrite <- app_assoc. rewrite IHb by (assumption || lia).
    cbn [app].
    rewrite (Hstep endNode (n + 1) n);
      [apply IHr; assumption | lia
       | right; split; [apply isEnd_not_open | apply isEnd_not_else]; exact He |].
    rewrite (isEnd_not_open _ He), He. lia.
  - apply andb_prop in Hwf as [Hwf Hr]. apply andb_prop in Hwf as [Hwf Hb2].
    apply andb_prop in Hwf as [Hwf Hb1]. apply andb_prop in Hwf as [Hwf He].
    apply andb_prop in Hwf as [Hwf _]. apply andb_prop in Hwf as [Ho Hl].
    rewrite (Hstep opener n (n + 1));
      [| lia | left; rewrite Ho; lia | rewrite Ho, (isOpen_not_end _ Ho); reflexivity].
    rewrite <- app_assoc. rewrite IH1 by (assumption || lia).
    cbn [app].
    rewrite (Hstep elseNode (n + 1) (n + 1));
      [| lia | left; rewrite (isElse_not_open _ Hl); lia
       | rewrite (isElse_not_open _ Hl), (isElse_not_end _ Hl); reflexivity].
    rewrite <- app_assoc. rewrite IH2 by (assumption || lia).
    cbn [app].
    rewrite (Hstep endNode (n + 1) n);
      [apply IHr; assumption | lia
       | right; split; [apply isEnd_not_open | apply isEnd_not_else]; exact He |].
    rewrite (isEnd_not_open _ He), He. lia.
Qed.

Lemma wellFormed_body t : tWellFormed t = true -> tInner 1 (flat t) = Some 1.
Proof.
  intros H. pose proof (wellFormed_inner t 1 [] H ltac:(lia)) as Hi.
  rewrite app_nil_r in Hi. exact Hi.
Qed.

Lemma flow_of_loop f v l l' :
  tFlowLoop f l 0 0 None = Done l' -> tFlow (S f) (Node v l) = Done (Node v l').
Proof.
  intros H.
  change (tFlow (S f) (Node v l)) with
    (match tFlowLoop f l 0 0 None with
     | Done out => Done (Node v out)
     | Crash => Crash
     | NoFuel => NoFuel
     end).
  rewrite H. reflexivity.
Qed.

(** The loop of [flow] on a well-formed shape, with the turns it needs. *)
Lemma flowLoop_shape t :
  tWellFormed t = true ->
  forall f, (fuelOf t <= f)%nat ->
  tFlowLoop f (flat t) 0 0 None = Done (tNested t).
Proof.
  induction t as [|x rest IHr|opener body IHb endNode rest IHr
                  |opener body1 IH1 elseNode body2 IH2 endNode rest IHr];
    intros Hwf f Hf; cbn [flat wellFormed nested fuelOf] in *.
  - destruct f as [|f]; [lia|]. reflexivity.
  - apply andb_prop in Hwf as [Hwf Hr]. apply andb_prop in Hwf as [Hwf He].
    apply andb_prop in Hwf as [Ho Hl].
    apply negb_true_iff in Ho, He.
    destruct f as [|f]; [lia|].
    rewrite flowLoop_plain by assumption.
    rewrite (IHr Hr f) by lia. reflexivity.
  - apply andb_prop in Hwf as [Hwf Hr]. apply andb_prop in Hwf as [Hwf Hb].
    apply andb_prop in Hwf as [Ho He].
    set (m := Nat.max (S (fuelOf body)) (fuelOf rest)) in *.
    replace f with (S (List.length (flat body) + S (f - List.length (flat body) - 2)))
      by lia.
    set (f' := (f - List.length (flat body) - 2)%nat).
    assert (Hf' : (m <= f')%nat) by (unfold f'; lia).
    rewrite (flowLoop_block f' opener (flat body) endNode (flat rest) Ho He
               (wellFormed_body body Hb)).
    destruct f' as [|f'']; [unfold m in Hf'; lia|].
    rewrite (flow_of_loop f'' _ _ _ (IHb Hb f'' ltac:(unfold m in Hf'; lia))).
    rewrite (IHr Hr (S f'')) by (unfold m in Hf'; lia).
    reflexivity.
  - apply andb_prop in Hwf as [Hwf Hr]. apply andb_prop in Hwf as [Hwf Hb2].
    apply andb_prop in Hwf as [Hwf Hb1]. apply andb_prop in Hwf as [Hwf He].
    apply andb_prop in Hwf as [Hwf Hout]. apply andb_prop in Hwf as [Ho Hl].
    set (m := Nat.max (fuelOf body1) (Nat.max (S (fuelOf body2)) (fuelOf rest))) in *.
    replace f with (S (List.length (flat body1)
                       + S (List.length (flat body2)
                            + S (f - List.length (flat body1)
                                 - List.length (flat body2) - 3)))) by lia.
    set (f' := (f - List.length (flat body1) - List.length (flat body2) - 3)%nat).
    assert (Hf' : (m <= f')%nat) by (unfold f'; lia).
    rewrite (flowLoop_block_else f' opener (flat body1) elseNode (flat body2) endNode
               (flat rest) Ho Hl He (wellFormed_body body1 Hb1) (wellFormed_body body2 Hb2)).
    replace (List.length (flat body2) + S f')%nat
      with (S (List.length (flat body2) + f')) by lia.
    rewrite (flow_of_loop (List.length (flat body2) + f') _ _ _
               (IH1 Hb1 (List.length (flat body2) + f')%nat
                  ltac:(unfold m in Hf'; lia))).
    destruct (Out elseNode) as [|y ys] eqn:EO; [|discriminate Hout].
    cbn [app].
    destruct f' as [|f'']; [unfold m in Hf'; lia|].
    rewrite (flow_of_loop f'' _ _ _ (IH2 Hb2 f'' ltac:(unfold m in Hf'; lia))).
    rewrite (IHr Hr (S f'')) by (unfold m in Hf'; lia).
    reflexivity.
Qed.

(** What the turns come to: not more than the square of the number of
    children plus one. *)
Lemma fuelOf_square (t : Shape) :
  (fuelOf t <= (List.length (flat t) + 1) * (List.length (flat t) + 1))%nat.
Proof.
  induction t as [|x rest IHr|opener body IHb endNode rest IHr
                  |opener body1 IH1 elseNode body2 IH2 endNode rest IHr];
    cbn [flat fuelOf List.length].
  - lia.
  - nia.
  - rewrite length_app. cbn [List.length].
    set (b := List.length (flat body)) in *. set (r := List.length (flat rest)) in *.
    destruct (Nat.max_spec (S (fuelOf body)) (fuelOf rest)) as [[_ ->] | [_ ->]]; nia.
  - rewrite !length_app. cbn [List.length]. rewrite !length_app. cbn [List.length].
    set (b1 := List.length (flat body1)) in *. set (b2 := List.length (flat body2)) in *.
    set (r := List.length (flat rest)) in *.
    destruct (Nat.max_spec (S (fuelOf body2)) (fuelOf rest)) as [[_ ->] | [_ ->]];
      match goal with
      | |- context [Nat.max ?a ?b] =>
          destruct (Nat.max_spec a b) as [[_ ->] | [_ ->]]
      end; nia.
Qed.


End FlowFacts.

Lemma neq_by_eqb (a b : string) : (a =? b)%string = false -> a <> b.
Proof. intros H. apply String.eqb_neq. exact H. Defined.


(** The children of the shape above in a row, and nested: the End nodes
    are gone, [a] and the inner block are under the Template child of the
    If, [b] under the Template child of the inner If, [c] under the Else,
    and [d] stays where it was. *)
Lemma shape0_flat_nested :
  flat shape0
  = [ifNode; text "a"; ifNode; text "b"; endNode0; elseNode0; text "c"; endNode0; text "d"]
  /\
  nested "!t" shape0
  = [Node (PString "!if")
       [Node (PString "!g") [leaf "x"];
        Node (PString "!t")
          [text "a";
           Node (PString "!if")
             [Node (PString "!g") [leaf "x"]; Node (PString "!t") [text "b"]]]];
     Node (PString "!else") [text "c"];
     text "d"].
Proof. split; reflexivity. Qed.


(** The template [If a Else b End c] after [flow]. *)
Lemma flow_if_else_end :
  flow0 20 (Node (PString "!t")
              [ifNode; text "a"; elseNode0; text "b"; endNode0; text "c"])
  = Done (Node (PString "!t")
            [addChild (Node (PString "!t") [text "a"]) ifNode;
             Node (PString "!else") [text "b"];
             text "c"]).
Proof. vm_compute. reflexivity. Qed.

(** ** Log store *)

Lemma wrap64_small (z : Z) : - 2 ^ 63 <= z < 2 ^ 63 -> wrap64 z = z.
Proof. intros H. unfold wrap64. rewrite Z.mod_small by lia. lia. Qed.

Lemma wrap64_sum_not_minus1 (i n : Z) :
  0 <= i < 2 ^ 63 -> 0 < n < 2 ^ 63 -> wrap64 (i + n) <> -1.
Proof.
  intros Hi Hn. unfold wrap64.
  destruct (Z_lt_le_dec (i + n) (2 ^ 63)) as [Hs|Hs].
  - rewrite Z.mod_small by lia. lia.
  - replace (i + n + 2 ^ 63) with (i + n - 2 ^ 63 + 1 * 2 ^ 64) by lia.
    rewrite Z.mod_add by lia. rewrite Z.mod_small by lia. lia.
Qed.

Section LogFacts.

Variable Binary : Graph -> option (list Z).
Variable Parse : File -> option Graph * Z * File.

(** C10. For a graph whose binary encoding is nil, [Add] returns offset 0
    and the log, the bytes of its file included, is as it was: there is
    no seek, no write and no sync. *)
Theorem Add_of_unencodable_graph (log : Log) (g : Graph) :
  Binary g = None ->
  LogAdd Binary log g = (0, log) /\
  data (f (snd (LogAdd Binary log g))) = data (f log).
Proof.
  intros H. unfold LogAdd. rewrite H. split; reflexivity.
Qed.

(** C5, as the code has it.  At a negative offset the seek fails and [Get]
    returns no object, the error and -1.  At any other offset it returns
    the object the reader gives there and a nil error; the next offset is
    -1 exactly when the reader consumed no byte, and the offset plus the
    number of bytes consumed otherwise.  So the last object of a log comes
    with the offset of the end of the file, and -1 comes only from a read
    where nothing can be consumed. *)
Theorem Get_next_offset (log : Log) (i : Z) (g : option Graph) (n : Z) (fl : File) :
  - 2 ^ 63 <= i < 2 ^ 63 ->
  Parse (mkFile (data (f log)) i) = (g, n, fl) ->
  0 <= n < 2 ^ 63 ->
  (i < 0 ->
   objectOf (LogGet Parse log i) = None /\
   errorOf (LogGet Parse log i) <> None /\
   nextOf (LogGet Parse log i) = -1) /\
  (0 <= i ->
   objectOf (LogGet Parse log i) = g /\
   errorOf (LogGet Parse log i) = None /\
   (nextOf (LogGet Parse log i) = -1 <-> n = 0) /\
   (n <> 0 -> nextOf (LogGet Parse log i) = wrap64 (i + n)) /\
   (n <> 0 -> i + n < 2 ^ 63 -> nextOf (LogGet Parse log i) = i + n)).
Proof.
  intros Hi Hp Hb. split.
  - intros Hneg. unfold LogGet, Seek.
    change (0 =? 2) with false. cbv iota.
    replace (i <? 0) with true by (symmetry; apply Z.ltb_lt; exact Hneg).
    unfold objectOf, errorOf, nextOf. cbn [fst snd].
    repeat split. discriminate.
  - intros Hpos. unfold LogGet, Seek.
    change (0 =? 2) with false. cbv iota.
    replace (i <? 0) with false by (symmetry; apply Z.ltb_ge; exact Hpos).
    rewrite Hp.
    unfold objectOf, errorOf, nextOf.
    destruct (n =? 0) eqn:E; cbn [fst snd].
    + apply Z.eqb_eq in E. repeat split; try (intros; lia).
    + apply Z.eqb_neq in E.
      pose proof (wrap64_sum_not_minus1 i n ltac:(lia) ltac:(lia)) as Hw.
      repeat split; try (intros; lia).
      intros _ Hs. apply wrap64_small. lia.
Qed.

End LogFacts.

Lemma Add_of_unencodable_graph_witness :
  LogAdd binWrite log12 opaqueGraph = (0, log12) /\
  data (f (snd (LogAdd binWrite log12 opaqueGraph))) = data (f log12).
Proof.
  apply (Add_of_unencodable_graph binWrite log12 opaqueGraph). reflexivity.
Defined.

Lemma Get_next_offset_witness :
  objectOf (LogGet binParse log12 16) = Some T2 /\
  errorOf (LogGet binParse log12 16) = None /\
  (nextOf (LogGet binParse log12 16) = -1 <-> 8 = 0) /\
  (8 <> 0 -> nextOf (LogGet binParse log12 16) = wrap64 (16 + 8)) /\
  (8 <> 0 -> 16 + 8 < 2 ^ 63 -> nextOf (LogGet binParse log12 16) = 16 + 8).
Proof.
  refine (proj2 (Get_next_offset binParse log12 16 (Some T2) 8
                   (mkFile (data (f log12)) 24) _ _ _) _).
  - lia.
  - vm_compute. reflexivity.
  - lia.
  - lia.
Defined.

(** Log append and read: T1 is read at 0 with next offset 16, T2 at 16
    with next offset 24, the end of the file, and the read at 24 gives no
    object and -1. *)
Lemma log_append_read :
  fst (LogAdd binWrite emptyLog T1) = 0 /\
  fst (LogAdd binWrite (snd (LogAdd binWrite emptyLog T1)) T2) = 16 /\
  fst (LogGet binParse log12 0) = (Some T1, None, 16) /\
  fst (LogGet binParse log12 16) = (Some T2, None, 24) /\
  fst (LogGet binParse log12 24) = (None, None, -1).
Proof. vm_compute. repeat split; reflexivity. Qed.

(** C5, as stated, fails: reading the last object of the log reaches the
    end of the log, and the next offset is the end of the file, not -1. *)
Lemma last_object_next_is_not_minus1 :
  ~ (forall (log : Log) (i : Z) (g : Graph) (n : Z) (fl : File),
       0 <= i ->
       binParse (mkFile (data (f log)) i) = (Some g, n, fl) ->
       (nextOf (LogGet binParse log i) = -1
        <-> i + n = Z.of_nat (List.length (data (f log))))).
Proof.
  intros H.
  specialize (H log12 16 T2 8 (mkFile (data (f log12)) 24) ltac:(lia) eq_refl).
  destruct H as [_ H]. specialize (H eq_refl).
  vm_compute in H. discriminate H.
Qed.

(** * Further properties *)

(** ** Character classes *)

(** X1. Every code point is in exactly one of five classes: text, separator
    (parenthesis or comma), space, break and end. *)
Theorem char_classes_partition (c : Z) :
  Z.b2z (IsTextChar c) + Z.b2z (isSeparator c) + Z.b2z (IsSpaceChar c)
  + Z.b2z (IsBreakChar c) + Z.b2z (IsEndChar c) = 1.
Proof.
  unfold IsTextChar, isSeparator, IsSpaceChar, IsBreakChar, IsEndChar.
  destruct (Z.ltb_spec 32 c); destruct (Z.ltb_spec c 32);
    destruct (Z.eqb_spec c 40); destruct (Z.eqb_spec c 41);
    destruct (Z.eqb_spec c 44); destruct (Z.eqb_spec c 32);
    destruct (Z.eqb_spec c 9); destruct (Z.eqb_spec c 10);
    destruct (Z.eqb_spec c 13); cbn; lia.
Qed.

(** X2. An operator character is never negative, and it is a text
    character and a template text character: unquoted text takes operators
    in. *)
Theorem operator_chars_are_text (c : Z) :
  IsOperatorChar c = true ->
  0 <= c /\ IsTextChar c = true /\ IsTemplateTextChar c = true.
Proof.
  unfold IsOperatorChar. destruct (Z.ltb_spec c 0) as [|Hc]; [discriminate|].
  intros H.
  assert (Hm : 33 <= c mod 256 /\ c mod 256 <> 36 /\ c mod 256 <> 40
               /\ c mod 256 <> 41 /\ c mod 256 <> 44).
  { change (bytes "+-*/%&|!<>=~^")
      with [43; 45; 42; 47; 37; 38; 124; 33; 60; 62; 61; 126; 94] in H.
    cbn [existsb] in H.
    repeat (apply orb_prop in H as [H|H];
            [apply Z.eqb_eq in H; rewrite H; repeat split; lia|]).
    discriminate H. }
  pose proof (Z.mod_le c 256 Hc ltac:(lia)) as Hle.
  assert (H40 : c <> 40) by (intros ->; vm_compute in Hm; lia).
  assert (H41 : c <> 41) by (intros ->; vm_compute in Hm; lia).
  assert (H44 : c <> 44) by (intros ->; vm_compute in Hm; lia).
  assert (H36 : c <> 36) by (intros ->; vm_compute in Hm; lia).
  split; [exact Hc|].
  unfold IsTextChar, IsTemplateTextChar, IsEndChar.
  destruct (Z.ltb_spec 32 c); [|lia].
  destruct (Z.ltb_spec c 32); [lia|].
  destruct (Z.eqb_spec c 40); [lia|]. destruct (Z.eqb_spec c 41); [lia|].
  destruct (Z.eqb_spec c 44); [lia|]. destruct (Z.eqb_spec c 36); [lia|].
  split; reflexivity.
Qed.

Lemma operator_chars_are_text_witness :
  0 <= 43 /\ IsTextChar 43 = true /\ IsTemplateTextChar 43 = true.
Proof. apply (operator_chars_are_text 43). reflexivity. Defined.

(** ** Lexical productions *)

Lemma Read_next EOF pre tl sp it e :
  Read EOF (mkParser (pre ++ tl) (List.length pre) sp it e)
  = Ret (hd EOF tl) (mkParser (pre ++ tl) (S (List.length pre)) sp it e).
Proof.
  destruct tl as [|c t]; cbn [hd].
  - apply Read_end. rewrite app_nil_r. lia.
  - apply Read_at.
Qed.

Lemma parser_eta (p : Parser) :
  mkParser (input p) (pos p) (spaces p) (ind p) (ev p) = p.
Proof. destruct p. reflexivity. Qed.

(** A loop that appends bytes while [P] holds reads the whole run of [P]
    bytes and stops before the first other byte. *)
Lemma scan_loop EOF (P : Z -> bool) run :
  forall pre tl buf sp it e fuel,
    forallb P run = true ->
    P (hd EOF tl) = false ->
    (List.length run < fuel)%nat ->
    loop fuel (fun buf : string =>
                 c <- Read EOF ;;
                 if negb (P c) then Unread ;;; ret (inr buf)
                 else ret (inl (push buf (byte c)))) buf
         (mkParser (pre ++ run ++ tl) (List.length pre) sp it e)
    = Ret (buf ++ stringOf run)%string
          (mkParser (pre ++ run ++ tl) (List.length pre + List.length run) sp it e).
Proof.
  induction run as [|c r IH]; intros pre tl buf sp it e fuel Hall Hstop Hf.
  - destruct fuel as [|f]; [cbn in Hf; lia|].
    cbn [loop app]. rewrite bind_assoc.
    rewrite (bind_eq _ _ _ _ _ (Read_next EOF pre tl sp it e)).
    cbv beta. rewrite Hstop. cbn [negb].
    rewrite bind_assoc, (bind_eq _ _ _ _ _ (Unread_at _ _ sp it e)).
    cbn. rewrite sapp_nil_r, Nat.add_0_r. reflexivity.
  - destruct fuel as [|f]; [cbn in Hf; lia|].
    cbn [forallb] in Hall. apply andb_prop in Hall as [Hc Hr].
    cbn [loop app]. rewrite bind_assoc.
    rewrite (bind_eq _ _ _ _ _ (Read_at EOF pre c (r ++ tl) sp it e)).
    cbv beta. rewrite Hc. cbn [negb]. rewrite bind_ret.
    specialize (IH (pre ++ [c]) tl (push buf (byte c)) sp it e f Hr Hstop).
    rewrite <- app_assoc in IH. cbn [app] in IH.
    rewrite length_app in IH. cbn [List.length] in IH.
    rewrite Nat.add_1_r in IH.
    rewrite IH by (cbn in Hf; lia).
    unfold push. rewrite sapp_assoc. cbn [stringOf append List.length].
    f_equal. f_equal. lia.
Qed.

Lemma loop_ext {S A} (b1 b2 : S -> M (S + A)) :
  (forall s p, b1 s p = b2 s p) ->
  forall fuel s p, loop fuel b1 s p = loop fuel b2 s p.
Proof.
  intros H fuel. induction fuel as [|f IH]; intros s p; [reflexivity|].
  cbn [loop]. unfold bind. rewrite H. destruct (b2 s p) as [[s'|a] q| |]; auto.
Qed.

Section LexicalFacts.

Variable EOF : Z.
Variable unicode_IsLetter : Z -> bool.
Variable unicode_IsDigit : Z -> bool.

Local Abbreviation pToken := (Token EOF unicode_IsLetter unicode_IsDigit).
Local Abbreviation pNumber := (Number EOF unicode_IsDigit).
Local Abbreviation pTokenChar := (IsTokenChar unicode_IsLetter unicode_IsDigit).

(** X3. String, Token and Operator read the longest run of their
    characters: on a run of text characters that does not begin with '#'
    (of token characters, of operator characters) followed by another byte
    or by the end of the stream, the production returns the run and leaves
    the parser just after it.  A '#' inside the run is part of a String. *)
Theorem String_Token_Operator_longest_run
    (fuel : nat) (pre : list Z) (c : Z) (run tl : list Z) (sp : Z) (it : list Z)
    (e : EventHandler) :
  (List.length run < fuel)%nat ->
  let p := mkParser (pre ++ c :: run ++ tl) (List.length pre) sp it e in
  let p' := mkParser (pre ++ c :: run ++ tl) (List.length pre + S (List.length run)) sp it e in
  (IsTextChar c = true -> c <> 35 -> forallb IsTextChar run = true ->
   IsTextChar (hd EOF tl) = false ->
   String_ EOF fuel p = Ret (stringOf (c :: run), true) p') /\
  (pTokenChar c = true -> forallb pTokenChar run = true ->
   pTokenChar (hd EOF tl) = false ->
   pToken fuel p = Ret (stringOf (c :: run), true) p') /\
  (IsOperatorChar c = true -> forallb IsOperatorChar run = true ->
   IsOperatorChar (hd EOF tl) = false ->
   Operator EOF fuel p = Ret (stringOf (c :: run), true) p').
Proof.
  intros Hf p p'. subst p p'.
  assert (Hscan : forall P, forallb P run = true -> P (hd EOF tl) = false ->
            loop fuel (fun buf : string =>
                 c0 <- Read EOF ;;
                 if negb (P c0) then Unread ;;; ret (inr buf)
                 else ret (inl (push buf (byte c0)))) (String (byte c) "")
              (mkParser (pre ++ c :: run ++ tl) (S (List.length pre)) sp it e)
            = Ret (stringOf (c :: run))
                  (mkParser (pre ++ c :: run ++ tl)
                            (List.length pre + S (List.length run)) sp it e)).
  { intros P Hall Hstop.
    pose proof (scan_loop EOF P run (pre ++ [c]) tl (String (byte c) "") sp it e fuel
                  Hall Hstop Hf) as H.
    rewrite <- app_assoc in H. cbn [app] in H.
    rewrite length_app in H. cbn [List.length] in H. rewrite Nat.add_1_r in H.
    rewrite H. cbn [stringOf append]. f_equal. f_equal. lia. }
  split; [|split].
  - intros Hc H35 Hall Hstop. unfold String_. norm.
    rewrite (bind_eq _ _ _ _ _ (Read_at EOF pre c (run ++ tl) sp it e)).
    cbv beta. rewrite Hc.
    replace (c =? 35) with false by (symmetry; apply Z.eqb_neq; exact H35).
    cbn [negb orb]. norm.
    rewrite (bind_eq _ _ _ _ _ (Hscan IsTextChar Hall Hstop)). reflexivity.
  - intros Hc Hall Hstop. unfold Token. norm.
    rewrite (bind_eq _ _ _ _ _ (Read_at EOF pre c (run ++ tl) sp it e)).
    cbv beta. rewrite Hc. cbn [negb]. norm.
    rewrite (bind_eq _ _ _ _ _ (Hscan pTokenChar Hall Hstop)). reflexivity.
  - intros Hc Hall Hstop. unfold Operator. norm.
    rewrite (bind_eq _ _ _ _ _ (Read_at EOF pre c (run ++ tl) sp it e)).
    cbv beta. rewrite Hc. cbn [negb]. norm.
    rewrite (bind_eq _ _ _ _ _ (Hscan IsOperatorChar Hall Hstop)). reflexivity.
Qed.

End LexicalFacts.

Lemma String_Token_Operator_longest_run_witness :
  String_ eof0 10 (NewStringParser "a#b(c")
    = Ret ("a#b"%string, true) (mkParser (bytes "a#b(c") 3 0 [] (mkEv 0 [])) /\
  Token eof0 asciiLetter asciiDigit 10 (NewStringParser "x_1.y")
    = Ret ("x_1"%string, true) (mkParser (bytes "x_1.y") 3 0 [] (mkEv 0 [])) /\
  Operator eof0 10 (NewStringParser "<=1")
    = Ret ("<="%string, true) (mkParser (bytes "<=1") 2 0 [] (mkEv 0 [])).
Proof.
  split; [|split].
  - refine (proj1 (String_Token_Operator_longest_run eof0 asciiLetter asciiDigit 10
              [] 97 [35; 98] [40; 99] 0 [] (mkEv 0 []) _) _ _ _ _);
      [cbn; lia | reflexivity | discriminate | reflexivity | reflexivity].
  - refine (proj1 (proj2 (String_Token_Operator_longest_run eof0 asciiLetter asciiDigit 10
              [] 120 [95; 49] [46; 121] 0 [] (mkEv 0 []) _)) _ _ _);
      [cbn; lia | reflexivity | reflexivity | reflexivity].
  - refine (proj2 (proj2 (String_Token_Operator_longest_run eof0 asciiLetter asciiDigit 10
              [] 60 [61] [49] 0 [] (mkEv 0 []) _)) _ _ _);
      [cbn; lia | reflexivity | reflexivity | reflexivity].
Defined.

Lemma fold_count_zero c r :
  fold_left (fun (n cs : Z) => if negb (n =? 0) && (cs =? c) then n + 1 else 0) r 0 = 0.
Proof. induction r as [|x r IH]; cbn; [reflexivity | exact IH]. Qed.

Lemma fold_count_run c r : forall n,
  0 < n ->
  fold_left (fun (n cs : Z) => if negb (n =? 0) && (cs =? c) then n + 1 else 0) r n
  = if forallb (Z.eqb c) r then n + Z.of_nat (List.length r) else 0.
Proof.
  induction r as [|x r IH]; intros n Hn.
  - cbn. lia.
  - cbn [fold_left forallb List.length].
    replace (n =? 0) with false by (symmetry; apply Z.eqb_neq; lia).
    cbn [negb andb]. rewrite (Z.eqb_sym c x).
    destruct (x =? c); cbn [andb].
    + rewrite IH by lia. destruct (forallb (Z.eqb c) r); lia.
    + apply fold_count_zero.
Qed.

Section SpaceFacts.

Variable EOF : Z.

(** The loop of [Space] over a run of spaces and tabs. *)
Lemma Space_loop c run :
  forall pre tl n sp it e fuel,
    forallb isSpaceByte run = true ->
    isSpaceByte (hd EOF tl) = false ->
    (List.length run < fuel)%nat ->
    loop fuel (fun n : Z =>
                 cs <- Read EOF ;;
                 if negb (cs =? 32) && negb (cs =? 9) then Unread ;;; ret (inr n)
                 else if negb (n =? 0) && (cs =? c) then ret (inl (n + 1))
                 else ret (inl 0)) n
         (mkParser (pre ++ run ++ tl) (List.length pre) sp it e)
    = Ret (fold_left (fun (n cs : Z) => if negb (n =? 0) && (cs =? c) then n + 1 else 0)
                     run n)
          (mkParser (pre ++ run ++ tl) (List.length pre + List.length run) sp it e).
Proof.
  induction run as [|x r IH]; intros pre tl n sp it e fuel Hall Hstop Hf.
  - destruct fuel as [|f]; [cbn in Hf; lia|].
    cbn [loop app]. rewrite bind_assoc.
    rewrite (bind_eq _ _ _ _ _ (Read_next EOF pre tl sp it e)).
    cbv beta. unfold isSpaceByte in Hstop. apply orb_false_iff in Hstop as [H32 H9].
    rewrite H32, H9. cbn [negb andb].
    rewrite bind_assoc, (bind_eq _ _ _ _ _ (Unread_at _ _ sp it e)).
    cbn. rewrite Nat.add_0_r. reflexivity.
  - destruct fuel as [|f]; [cbn in Hf; lia|].
    cbn [forallb] in Hall. apply andb_prop in Hall as [Hx Hr].
    cbn [loop app]. rewrite bind_assoc.
    rewrite (bind_eq _ _ _ _ _ (Read_at EOF pre x (r ++ tl) sp it e)).
    cbv beta.
    assert (Hsp : negb (x =? 32) && negb (x =? 9) = false).
    { unfold isSpaceByte in Hx. destruct (x =? 32); [reflexivity|].
      cbn in Hx |- *. rewrite Hx. reflexivity. }
    rewrite Hsp.
    specialize (IH (pre ++ [x]) tl).
    assert (Hgo : forall m,
      loop f (fun n : Z =>
                 cs <- Read EOF ;;
                 if negb (cs =? 32) && negb (cs =? 9) then Unread ;;; ret (inr n)
                 else if negb (n =? 0) && (cs =? c) then ret (inl (n + 1))
                 else ret (inl 0)) m
         (mkParser (pre ++ x :: r ++ tl) (S (List.length pre)) sp it e)
      = Ret (fold_left (fun (n cs : Z) => if negb (n =? 0) && (cs =? c) then n + 1 else 0)
                       r m)
            (mkParser (pre ++ x :: r ++ tl) (List.length pre + S (List.length r)) sp it e)).
    { intros m. specialize (IH m sp it e f Hr Hstop).
      rewrite <- app_assoc in IH. cbn [app] in IH.
      rewrite length_app in IH. cbn [List.length] in IH. rewrite Nat.add_1_r in IH.
      rewrite IH by (cbn in Hf; lia). f_equal. f_equal. lia. }
    cbn [fold_left List.length].
    destruct (negb (n =? 0) && (x =? c)); rewrite bind_ret; apply Hgo.
Qed.

Lemma Space_run fuel pre c run tl it e :
  (List.length run < fuel)%nat ->
  isSpaceByte c = true -> forallb isSpaceByte run = true ->
  isSpaceByte (hd EOF tl) = false ->
  Space EOF fuel (mkParser (pre ++ c :: run ++ tl) (List.length pre) 0 it e)
  = Ret (true, runCount c (c :: run))
        (mkParser (pre ++ c :: run ++ tl) (List.length pre + S (List.length run)) 0 it e).
Proof.
  intros Hf Hc Hall Hstop.
  unfold Space. norm.
  rewrite (bind_eq _ _ _ _ _
             (eq_refl : get spaces (mkParser (pre ++ c :: run ++ tl)
                                      (List.length pre) 0 it e) = Ret 0 _)).
  change (0 <? 0) with false. cbv iota. norm.
  rewrite (bind_eq _ _ _ _ _ (Read_at EOF pre c (run ++ tl) 0 it e)).
  cbv beta.
  assert (Hsp : negb (c =? 32) && negb (c =? 9) = false).
  { unfold isSpaceByte in Hc. destruct (c =? 32); [reflexivity|].
    cbn in Hc |- *. rewrite Hc. reflexivity. }
  rewrite Hsp. norm.
  pose proof (Space_loop c run (pre ++ [c]) tl 1 0 it e fuel Hall Hstop Hf) as H.
  rewrite <- app_assoc in H. cbn [app] in H.
  rewrite length_app in H. cbn [List.length] in H. rewrite Nat.add_1_r in H.
  rewrite (bind_eq _ _ _ _ _ H).
  rewrite fold_count_run by lia.
  unfold runCount. cbn [forallb List.length]. rewrite Z.eqb_refl. cbn [andb].
  unfold ret. f_equal.
  + destruct (forallb (Z.eqb c) run); [f_equal; lia | reflexivity].
  + f_equal. lia.
Qed.

(** X4. Space counts a uniform run: on a run of spaces and tabs that
    starts with [c], followed by another byte or the end of the stream, it
    returns true with the length of the run when every byte of the run is
    [c], and with 0 when spaces and tabs are mixed; the parser is left just
    after the run.  Spaces owed by a block are paid out first, without
    reading. *)
Theorem Space_counts_uniform_run
    (fuel : nat) (pre : list Z) (c : Z) (run tl : list Z) (it : list Z)
    (e : EventHandler) :
  (List.length run < fuel)%nat ->
  isSpaceByte c = true -> forallb isSpaceByte run = true ->
  isSpaceByte (hd EOF tl) = false ->
  Space EOF fuel (mkParser (pre ++ c :: run ++ tl) (List.length pre) 0 it e)
  = Ret (true, runCount c (c :: run))
        (mkParser (pre ++ c :: run ++ tl) (List.length pre + S (List.length run)) 0 it e)
  /\
  forall owed, 0 < owed ->
    Space EOF fuel (mkParser (pre ++ c :: run ++ tl) (List.length pre) owed it e)
    = Ret (true, owed) (mkParser (pre ++ c :: run ++ tl) (List.length pre) 0 it e).
Proof.
  intros Hf Hc Hall Hstop. split.
  - apply Space_run; assumption.
  - intros owed Ho. unfold Space. norm.
    rewrite (bind_eq _ _ _ _ _
               (eq_refl : get spaces (mkParser (pre ++ c :: run ++ tl)
                                        (List.length pre) owed it e) = Ret owed _)).
    replace (0 <? owed) with true by (symmetry; apply Z.ltb_lt; exact Ho).
    reflexivity.
Qed.

End SpaceFacts.

Lemma Space_counts_uniform_run_witness :
  Space eof0 10 (mkParser ([97] ++ 32 :: [9; 32] ++ [98]) 1 0 [] (mkEv 0 []))
  = Ret (true, runCount 32 (32 :: [9; 32]))
        (mkParser ([97] ++ 32 :: [9; 32] ++ [98]) (1 + 3) 0 [] (mkEv 0 []))
  /\
  forall owed, 0 < owed ->
    Space eof0 10 (mkParser ([97] ++ 32 :: [9; 32] ++ [98]) 1 owed [] (mkEv 0 []))
    = Ret (true, owed) (mkParser ([97] ++ 32 :: [9; 32] ++ [98]) 1 0 [] (mkEv 0 [])).
Proof.
  apply (Space_counts_uniform_run eof0 10 [97] 32 [9; 32] [98] [] (mkEv 0 []));
    [cbn; lia | reflexivity | reflexivity | reflexivity].
Defined.

Section NumberFacts.

Variable EOF : Z.
Variable unicode_IsDigit : Z -> bool.

Local Abbreviation pNumber := (Number EOF unicode_IsDigit).
Local Abbreviation pDigit := (IsDigit unicode_IsDigit).

Local Abbreviation pDigitOrDot := (digitOrDot unicode_IsDigit).

Lemma NumberTail_run fuel pre c run tl sp it e :
  (List.length run < fuel)%nat ->
  forallb pDigitOrDot run = true -> pDigitOrDot (hd EOF tl) = false ->
  NumberTail EOF unicode_IsDigit fuel c
    (mkParser (pre ++ c :: run ++ tl) (S (List.length pre)) sp it e)
  = Ret (stringOf (c :: run), true)
        (mkParser (pre ++ c :: run ++ tl) (List.length pre + S (List.length run)) sp it e).
Proof.
  intros Hf Hall Hstop. unfold NumberTail.
  pose proof (scan_loop EOF pDigitOrDot run (pre ++ [c]) tl (String (byte c) "") sp it e fuel
                Hall Hstop Hf) as H.
  rewrite <- app_assoc in H. cbn [app] in H.
  rewrite length_app in H. cbn [List.length] in H. rewrite Nat.add_1_r in H.
  erewrite bind_eq.
  2:{ erewrite loop_ext; [exact H|].
      intros s p. unfold bind. destruct (Read EOF p) as [x q| |]; try reflexivity.
      unfold digitOrDot. rewrite negb_orb. reflexivity. }
  cbn [stringOf append]. unfold ret. f_equal. f_equal. lia.
Qed.

(** X5. Number reads a digit and then the longest run of digits and
    dots, so [1.2.3] and [7.] are numbers; a '-' is taken when a digit
    follows it; a '-' with no digit after it is not a number, and both
    bytes read are put back. *)
Theorem Number_forms
    (fuel : nat) (pre : list Z) (d : Z) (run tl : list Z) (sp : Z) (it : list Z)
    (e : EventHandler) :
  (S (List.length run) < fuel)%nat ->
  (pDigit d = true -> forallb pDigitOrDot run = true -> pDigitOrDot (hd EOF tl) = false ->
   pNumber fuel (mkParser (pre ++ d :: run ++ tl) (List.length pre) sp it e)
   = Ret (stringOf (d :: run), true)
         (mkParser (pre ++ d :: run ++ tl) (List.length pre + S (List.length run)) sp it e))
  /\
  (pDigit d = true -> forallb pDigitOrDot run = true -> pDigitOrDot (hd EOF tl) = false ->
   pNumber fuel (mkParser (pre ++ 45 :: d :: run ++ tl) (List.length pre) sp it e)
   = Ret (stringOf (45 :: d :: run), true)
         (mkParser (pre ++ 45 :: d :: run ++ tl)
                   (List.length pre + S (S (List.length run))) sp it e))
  /\
  (pDigit 45 = false -> pDigit (hd EOF tl) = false ->
   pNumber fuel (mkParser (pre ++ 45 :: tl) (List.length pre) sp it e)
   = Ret (""%string, false) (mkParser (pre ++ 45 :: tl) (List.length pre) sp it e)).
Proof.
  intros Hf. split; [|split].
  - intros Hd Hall Hstop. unfold Number. norm.
    rewrite (bind_eq _ _ _ _ _ (Read_at EOF pre d (run ++ tl) sp it e)).
    cbv beta. rewrite Hd. cbn [negb].
    apply NumberTail_run; [lia | exact Hall | exact Hstop].
  - intros Hd Hall Hstop.
    assert (Hall' : forallb pDigitOrDot (d :: run) = true).
    { cbn [forallb]. unfold digitOrDot at 1. rewrite Hd, Hall. reflexivity. }
    pose proof (NumberTail_run fuel pre 45 (d :: run) tl sp it e
                  ltac:(cbn [List.length]; lia) Hall' Hstop) as HT.
    cbn [app List.length] in HT.
    unfold Number. norm.
    rewrite (bind_eq _ _ _ _ _ (Read_at EOF pre 45 (d :: run ++ tl) sp it e)).
    cbv beta. destruct (pDigit 45) eqn:E45; cbn [negb].
    + exact HT.
    + change (45 =? 45) with true. cbn [negb]. norm.
      pose proof (Read_at EOF (pre ++ [45]) d (run ++ tl) sp it e) as HR.
      rewrite <- app_assoc in HR. cbn [app] in HR.
      rewrite length_app in HR. cbn [List.length] in HR. rewrite Nat.add_1_r in HR.
      rewrite (bind_eq _ _ _ _ _ HR).
      cbv beta. rewrite Hd. cbn [negb]. norm.
      rewrite (bind_eq _ _ _ _ _ (Unread_at _ _ _ _ _)).
      exact HT.
  - intros H45 Hstop. unfold Number. norm.
    rewrite (bind_eq _ _ _ _ _ (Read_at EOF pre 45 tl sp it e)).
    cbv beta. rewrite H45. change (45 =? 45) with true. cbn [negb]. norm.
    pose proof (Read_next EOF (pre ++ [45]) tl sp it e) as HR.
    rewrite <- app_assoc in HR. cbn [app] in HR.
    rewrite length_app in HR. cbn [List.length] in HR. rewrite Nat.add_1_r in HR.
    rewrite (bind_eq _ _ _ _ _ HR).
    cbv beta. rewrite Hstop. cbn [negb]. norm.
    rewrite (bind_eq _ _ _ _ _ (Unread_at _ _ _ _ _)). norm.
    rewrite (bind_eq _ _ _ _ _ (Unread_at _ _ _ _ _)).
    reflexivity.
Qed.

End NumberFacts.

Lemma Number_forms_witness :
  Number eof0 asciiDigit 10 (mkParser ([] ++ 49 :: [46; 50; 46] ++ [120]) 0 0 [] (mkEv 0 []))
  = Ret (stringOf (49 :: [46; 50; 46]), true)
        (mkParser ([] ++ 49 :: [46; 50; 46] ++ [120]) (0 + 4) 0 [] (mkEv 0 []))
  /\
  Number eof0 asciiDigit 10 (mkParser ([] ++ 45 :: 49 :: [46; 50; 46] ++ [120]) 0 0 [] (mkEv 0 []))
  = Ret (stringOf (45 :: 49 :: [46; 50; 46]), true)
        (mkParser ([] ++ 45 :: 49 :: [46; 50; 46] ++ [120]) (0 + 5) 0 [] (mkEv 0 []))
  /\
  Number eof0 asciiDigit 10 (mkParser ([] ++ 45 :: [120]) 0 0 [] (mkEv 0 []))
  = Ret (""%string, false) (mkParser ([] ++ 45 :: [120]) 0 0 [] (mkEv 0 [])).
Proof.
  pose proof (Number_forms eof0 asciiDigit 10 [] 49 [46; 50; 46] [120] 0 [] (mkEv 0 [])
                ltac:(cbn; lia)) as (H1 & H2 & _).
  pose proof (Number_forms eof0 asciiDigit 10 [] 49 [46; 50; 46] [120] 0 [] (mkEv 0 [])
                ltac:(cbn; lia)) as (_ & _ & H3).
  split; [|split].
  - apply H1; reflexivity.
  - apply H2; reflexivity.
  - apply H3; reflexivity.
Defined.

Section BreakFacts.

Variable EOF : Z.

(** X6. Break takes a line feed, a carriage return, or the two in that
    order, and nothing else; it puts back what it does not take.  Newline
    takes a line feed, alone or after a carriage return; after a carriage
    return that no line feed follows it returns false with one byte, the
    carriage return, left consumed. *)
Theorem Break_and_Newline (pre tl : list Z) (c : Z) (sp : Z) (it : list Z)
    (e : EventHandler) :
  let at_ inp n := mkParser inp n sp it e in
  Break EOF (at_ (pre ++ 10 :: tl) (List.length pre))
    = Ret true (at_ (pre ++ 10 :: tl) (S (List.length pre))) /\
  Break EOF (at_ (pre ++ 13 :: 10 :: tl) (List.length pre))
    = Ret true (at_ (pre ++ 13 :: 10 :: tl) (S (S (List.length pre)))) /\
  Newline EOF (at_ (pre ++ 10 :: tl) (List.length pre))
    = Ret true (at_ (pre ++ 10 :: tl) (S (List.length pre))) /\
  Newline EOF (at_ (pre ++ 13 :: 10 :: tl) (List.length pre))
    = Ret true (at_ (pre ++ 13 :: 10 :: tl) (S (S (List.length pre)))) /\
  (c <> 10 ->
   Break EOF (at_ (pre ++ 13 :: c :: tl) (List.length pre))
     = Ret true (at_ (pre ++ 13 :: c :: tl) (S (List.length pre))) /\
   Newline EOF (at_ (pre ++ 13 :: c :: tl) (List.length pre))
     = Ret false (at_ (pre ++ 13 :: c :: tl) (S (List.length pre)))) /\
  (c <> 10 -> c <> 13 ->
   Break EOF (at_ (pre ++ c :: tl) (List.length pre))
     = Ret false (at_ (pre ++ c :: tl) (List.length pre)) /\
   Newline EOF (at_ (pre ++ c :: tl) (List.length pre))
     = Ret false (at_ (pre ++ c :: tl) (List.length pre))).
Proof.
  intros at_. subst at_. cbv beta.
  assert (HR2 : forall a b, Read EOF (mkParser (pre ++ a :: b :: tl) (S (List.length pre)) sp it e)
                = Ret b (mkParser (pre ++ a :: b :: tl) (S (S (List.length pre))) sp it e)).
  { intros a b. pose proof (Read_at EOF (pre ++ [a]) b tl sp it e) as HR.
    rewrite <- app_assoc in HR. cbn [app] in HR.
    rewrite length_app in HR. cbn [List.length] in HR. rewrite Nat.add_1_r in HR.
    exact HR. }
  repeat split.
  - unfold Break. norm. rewrite (bind_eq _ _ _ _ _ (Read_at EOF pre 10 tl sp it e)).
    reflexivity.
  - unfold Break. norm.
    rewrite (bind_eq _ _ _ _ _ (Read_at EOF pre 13 (10 :: tl) sp it e)).
    cbv beta. change (13 =? 13) with true. cbv iota. norm.
    rewrite (bind_eq _ _ _ _ _ (HR2 13 10)). reflexivity.
  - unfold Newline. norm. rewrite (bind_eq _ _ _ _ _ (Read_at EOF pre 10 tl sp it e)).
    reflexivity.
  - unfold Newline. norm.
    rewrite (bind_eq _ _ _ _ _ (Read_at EOF pre 13 (10 :: tl) sp it e)).
    cbv beta. change (13 =? 13) with true. cbv iota. norm.
    rewrite (bind_eq _ _ _ _ _ (HR2 13 10)). reflexivity.
  - unfold Break. norm.
    rewrite (bind_eq _ _ _ _ _ (Read_at EOF pre 13 (c :: tl) sp it e)).
    cbv beta. change (13 =? 13) with true. cbv iota. norm.
    rewrite (bind_eq _ _ _ _ _ (HR2 13 c)). cbv beta.
    replace (c =? 10) with false by (symmetry; apply Z.eqb_neq; assumption).
    cbn [negb]. norm. rewrite (bind_eq _ _ _ _ _ (Unread_at _ _ _ _ _)). reflexivity.
  - unfold Newline. norm.
    rewrite (bind_eq _ _ _ _ _ (Read_at EOF pre 13 (c :: tl) sp it e)).
    cbv beta. change (13 =? 13) with true. cbv iota. norm.
    rewrite (bind_eq _ _ _ _ _ (HR2 13 c)). cbv beta.
    replace (c =? 10) with false by (symmetry; apply Z.eqb_neq; assumption).
    norm. rewrite (bind_eq _ _ _ _ _ (Unread_at _ _ _ _ _)). reflexivity.
  - unfold Break. norm.
    rewrite (bind_eq _ _ _ _ _ (Read_at EOF pre c tl sp it e)). cbv beta.
    replace (c =? 13) with false by (symmetry; apply Z.eqb_neq; assumption).
    replace (c =? 10) with false by (symmetry; apply Z.eqb_neq; assumption).
    norm. rewrite (bind_eq _ _ _ _ _ (Unread_at _ _ _ _ _)). reflexivity.
  - unfold Newline. norm.
    rewrite (bind_eq _ _ _ _ _ (Read_at EOF pre c tl sp it e)). cbv beta.
    replace (c =? 13) with false by (symmetry; apply Z.eqb_neq; assumption).
    norm.
    replace (c =? 10) with false by (symmetry; apply Z.eqb_neq; assumption).
    norm. rewrite (bind_eq _ _ _ _ _ (Unread_at _ _ _ _ _)). reflexivity.
Qed.

End BreakFacts.

Lemma Break_and_Newline_witness :
  Break eof0 (mkParser ([97] ++ 13 :: 98 :: []) 1 0 [] (mkEv 0 []))
    = Ret true (mkParser ([97] ++ 13 :: 98 :: []) 2 0 [] (mkEv 0 [])) /\
  Newline eof0 (mkParser ([97] ++ 13 :: 98 :: []) 1 0 [] (mkEv 0 []))
    = Ret false (mkParser ([97] ++ 13 :: 98 :: []) 2 0 [] (mkEv 0 [])).
Proof.
  pose proof (Break_and_Newline eof0 [97] [] 98 0 [] (mkEv 0 [])) as (_ & _ & _ & _ & H & _).
  apply H. discriminate.
Defined.

Section CommentQuotedFacts.

Variable EOF : Z.

Lemma Comment_loop body :
  forall pre stop tl sp it e fuel,
    forallb (fun c => negb (endsComment c)) body = true ->
    endsComment stop = true ->
    (List.length body < fuel)%nat ->
    loop fuel (fun _ : unit =>
      c <- Read EOF ;;
      if IsEndChar c || IsBreakChar c then ret (inr tt)
      else if c =? 13 then
        c <- Read EOF ;;
        (if negb (c =? 10) then Unread else ret tt) ;;; ret (inl tt)
      else ret (inl tt)) tt
      (mkParser (pre ++ body ++ stop :: tl) (List.length pre) sp it e)
    = Ret tt (mkParser (pre ++ body ++ stop :: tl)
                       (List.length pre + S (List.length body)) sp it e).
Proof.
  induction body as [|c r IH]; intros pre stop tl sp it e fuel Hall Hstop Hf.
  - destruct fuel as [|f]; [cbn in Hf; lia|].
    cbn [loop app]. norm.
    rewrite (bind_eq _ _ _ _ _ (Read_at EOF pre stop tl sp it e)).
    cbv beta. fold (endsComment stop). rewrite Hstop. cbv iota. norm.
    unfold ret. f_equal. f_equal. cbn. lia.
  - destruct fuel as [|f]; [cbn in Hf; lia|].
    cbn [forallb] in Hall. apply andb_prop in Hall as [Hc Hr].
    apply negb_true_iff in Hc.
    cbn [loop app]. norm.
    rewrite (bind_eq _ _ _ _ _ (Read_at EOF pre c (r ++ stop :: tl) sp it e)).
    cbv beta. fold (endsComment c). rewrite Hc. cbv iota.
    assert (H13 : (c =? 13) = false).
    { unfold endsComment, IsBreakChar in Hc.
      apply orb_false_iff in Hc as [_ Hb]. apply orb_false_iff in Hb as [_ Hb]. exact Hb. }
    rewrite H13. norm.
    specialize (IH (pre ++ [c]) stop tl sp it e f Hr Hstop).
    rewrite <- app_assoc in IH. cbn [app] in IH.
    rewrite length_app in IH. cbn [List.length] in IH. rewrite Nat.add_1_r in IH.
    rewrite IH by (cbn in Hf; lia). f_equal. f_equal. cbn [List.length]. lia.
Qed.

(** X7. Comment takes a '#' and everything up to and including the
    first break or end character, so the line break that ends a comment is
    consumed by the comment itself. *)
Theorem Comment_takes_the_line_break
    (fuel : nat) (pre body : list Z) (stop : Z) (tl : list Z) (sp : Z) (it : list Z)
    (e : EventHandler) :
  (List.length body < fuel)%nat ->
  forallb (fun c => negb (endsComment c)) body = true ->
  endsComment stop = true ->
  Comment EOF fuel (mkParser (pre ++ 35 :: body ++ stop :: tl) (List.length pre) sp it e)
  = Ret true (mkParser (pre ++ 35 :: body ++ stop :: tl)
                       (List.length pre + S (S (List.length body))) sp it e).
Proof.
  intros Hf Hall Hstop. unfold Comment. norm.
  rewrite (bind_eq _ _ _ _ _ (Read_at EOF pre 35 (body ++ stop :: tl) sp it e)).
  cbv beta. change (35 =? 35) with true. cbv iota. norm.
  pose proof (Comment_loop body (pre ++ [35]) stop tl sp it e fuel Hall Hstop Hf) as H.
  rewrite <- app_assoc in H. cbn [app] in H.
  rewrite length_app in H. cbn [List.length] in H. rewrite Nat.add_1_r in H.
  rewrite (bind_eq _ _ _ _ _ H). unfold ret. f_equal. f_equal. lia.
Qed.

Lemma Quoted_loop q lnl fs body :
  forall pre tl buf sp it e fuel,
    forallb (plainInQuotes q) body = true ->
    (List.length body < fuel)%nat ->
    loop fuel (fun buf : string =>
             c <- Read EOF ;;
             if c =? q then ret (inr buf)
             else
               let buf := push buf (byte c) in
               if c =? 10 then
                 '(_, n) <- Space EOF fs ;;
                 ret (inl (repeat_push (Z.to_nat (n - lnl)) " "%char buf))
               else if c =? 92 then
                 c <- Read EOF ;;
                 let buf := if negb (c =? 34) && negb (c =? 39)
                            then push buf "\"%char else buf in
                 ret (inl (push buf (byte c)))
               else ret (inl buf)) buf
      (mkParser (pre ++ body ++ q :: tl) (List.length pre) sp it e)
    = Ret (buf ++ stringOf body)%string
          (mkParser (pre ++ body ++ q :: tl)
                    (List.length pre + S (List.length body)) sp it e).
Proof.
  induction body as [|c r IH]; intros pre tl buf sp it e fuel Hall Hf.
  - destruct fuel as [|f]; [cbn in Hf; lia|].
    cbn [loop app]. norm.
    rewrite (bind_eq _ _ _ _ _ (Read_at EOF pre q tl sp it e)).
    cbv beta. rewrite Z.eqb_refl. cbv iota. norm.
    unfold ret. cbn [stringOf List.length]. rewrite sapp_nil_r.
    f_equal. f_equal. lia.
  - destruct fuel as [|f]; [cbn in Hf; lia|].
    cbn [forallb] in Hall. apply andb_prop in Hall as [Hc Hr].
    unfold plainInQuotes in Hc.
    apply andb_prop in Hc as [Hc H92]. apply andb_prop in Hc as [Hq H10].
    apply negb_true_iff in Hq, H10, H92.
    cbn [loop app]. norm.
    rewrite (bind_eq _ _ _ _ _ (Read_at EOF pre c (r ++ q :: tl) sp it e)).
    cbv beta zeta. rewrite Hq, H10, H92. cbv iota. norm.
    specialize (IH (pre ++ [c]) tl (push buf (byte c)) sp it e f Hr).
    rewrite <- app_assoc in IH. cbn [app] in IH.
    rewrite length_app in IH. cbn [List.length] in IH. rewrite Nat.add_1_r in IH.
    rewrite IH by (cbn in Hf; lia).
    unfold push. rewrite sapp_assoc. cbn [stringOf append List.length].
    f_equal. f_equal. lia.
Qed.

(** X8. Quoted, on a text in double or single quotes that holds no
    backslash, no line feed and not the quote it opened with, returns the
    text between the quotes as it is (the empty string for two quotes in a
    row, and the other kind of quote is an ordinary byte) and leaves the
    parser just after the closing quote. *)
Theorem Quoted_plain_text
    (fuel : nat) (pre : list Z) (q : Z) (body tl : list Z) (sp : Z) (it : list Z)
    (e : EventHandler) :
  (List.length body < fuel)%nat ->
  q = 34 \/ q = 39 ->
  forallb (plainInQuotes q) body = true ->
  Quoted EOF fuel (mkParser (pre ++ q :: body ++ q :: tl) (List.length pre) sp it e)
  = Ret (stringOf body, true)
        (mkParser (pre ++ q :: body ++ q :: tl)
                  (List.length pre + S (S (List.length body))) sp it e).
Proof.
  intros Hf Hq Hall. unfold Quoted. norm.
  rewrite (bind_eq _ _ _ _ _ (Read_at EOF pre q (body ++ q :: tl) sp it e)).
  cbv beta.
  replace (negb (q =? 34) && negb (q =? 39)) with false
    by (destruct Hq as [-> | ->]; reflexivity).
  norm. unfold lastnl at 1.
  erewrite bind_eq by reflexivity. cbv beta.
  pose proof (Quoted_loop q
                (indentOf (firstn (S (List.length pre)) (pre ++ q :: body ++ q :: tl)) 0 true)
                fuel body (pre ++ [q]) tl ""%string sp it e fuel Hall Hf) as H.
  rewrite <- app_assoc in H. cbn [app] in H.
  rewrite length_app in H. cbn [List.length] in H. rewrite Nat.add_1_r in H.
  cbn [input pos] in *.
  rewrite (bind_eq _ _ _ _ _ H). unfold ret. cbn [append]. f_equal. f_equal. lia.
Qed.

End CommentQuotedFacts.

Lemma Comment_takes_the_line_break_witness :
  Comment eof0 10 (mkParser ([] ++ 35 :: [32; 120] ++ 10 :: [32; 98]) 0 0 [] (mkEv 0 []))
  = Ret true (mkParser ([] ++ 35 :: [32; 120] ++ 10 :: [32; 98]) (0 + 4) 0 [] (mkEv 0 [])).
Proof.
  apply (Comment_takes_the_line_break eof0 10 [] [32; 120] 10 [32; 98] 0 [] (mkEv 0 []));
    [cbn; lia | reflexivity | reflexivity].
Defined.

Lemma Quoted_plain_text_witness :
  Quoted eof0 10 (mkParser ([] ++ 34 :: [97; 39; 32; 98] ++ 34 :: [120]) 0 0 [] (mkEv 0 []))
  = Ret (stringOf [97; 39; 32; 98], true)
        (mkParser ([] ++ 34 :: [97; 39; 32; 98] ++ 34 :: [120]) (0 + 6) 0 [] (mkEv 0 [])).
Proof.
  apply (Quoted_plain_text eof0 10 [] 34 [97; 39; 32; 98] [120] 0 [] (mkEv 0 []));
    [cbn; lia | left; reflexivity | reflexivity].
Defined.

Lemma bind_Fuel {A B} (m : M A) (k : A -> M B) p :
  m p = Fuel -> bind m k p = Fuel.
Proof. intros H. unfold bind. rewrite H. reflexivity. Qed.

Section UnterminatedQuote.

Variable EOF : Z.

(** [Space] returns further on in the same input, or not at all. *)
Lemma Space_loop_advances c fuel : forall n p,
  match loop fuel (fun n : Z =>
                 cs <- Read EOF ;;
                 if negb (cs =? 32) && negb (cs =? 9) then Unread ;;; ret (inr n)
                 else if negb (n =? 0) && (cs =? c) then ret (inl (n + 1))
                 else ret (inl 0)) n p with
  | Ret _ p' => input p' = input p /\ (pos p <= pos p')%nat
  | Panic => False
  | Fuel => True
  end.
Proof.
  induction fuel as [|f IH]; intros n p; [exact I|].
  cbn [loop]. rewrite bind_assoc. unfold bind at 1. unfold Read at 1.
  destruct (negb (nth (pos p) (input p) EOF =? 32) && negb (nth (pos p) (input p) EOF =? 9)).
  - cbn. split; [reflexivity | lia].
  - destruct (negb (n =? 0) && (nth (pos p) (input p) EOF =? c)); rewrite bind_ret.
    + specialize (IH (n + 1) (withPos (S (pos p)) p)).
      destruct (loop f _ (n + 1) (withPos (S (pos p)) p)) as [r p'| |]; try exact IH.
      cbn [withPos input pos] in IH. destruct IH as [Hi Hp]. split; [exact Hi | lia].
    + specialize (IH 0 (withPos (S (pos p)) p)).
      destruct (loop f _ 0 (withPos (S (pos p)) p)) as [r p'| |]; try exact IH.
      cbn [withPos input pos] in IH. destruct IH as [Hi Hp]. split; [exact Hi | lia].
Qed.

Lemma Space_advances fuel p :
  match Space EOF fuel p with
  | Ret _ p' => input p' = input p /\ (pos p <= pos p')%nat
  | Panic => False
  | Fuel => True
  end.
Proof.
  unfold Space. unfold bind at 1. unfold get at 1.
  destruct (0 <? spaces p).
  - cbn. split; [reflexivity | lia].
  - unfold bind at 1. unfold Read at 1.
    destruct (negb (nth (pos p) (input p) EOF =? 32) && negb (nth (pos p) (input p) EOF =? 9)).
    + cbn. split; [reflexivity | lia].
    + unfold bind at 1.
      pose proof (Space_loop_advances (nth (pos p) (input p) EOF) fuel 1
                    (withPos (S (pos p)) p)) as H.
      destruct (loop fuel _ 1 (withPos (S (pos p)) p)) as [r p'| |]; try exact H.
      cbn [withPos input pos] in H. destruct H as [Hi Hp].
      cbn. split; [exact Hi | lia].
Qed.

Lemma Quoted_loop_never q lnl fs fuel : forall buf p,
  noQuoteFrom EOF q (input p) (pos p) ->
  loop fuel (fun buf : string =>
             c <- Read EOF ;;
             if c =? q then ret (inr buf)
             else
               let buf := push buf (byte c) in
               if c =? 10 then
                 '(_, n) <- Space EOF fs ;;
                 ret (inl (repeat_push (Z.to_nat (n - lnl)) " "%char buf))
               else if c =? 92 then
                 c <- Read EOF ;;
                 let buf := if negb (c =? 34) && negb (c =? 39)
                            then push buf "\"%char else buf in
                 ret (inl (push buf (byte c)))
               else ret (inl buf)) buf p
  = Fuel.
Proof.
  induction fuel as [|f IH]; intros buf p Hinv; [reflexivity|].
  cbn [loop]. unfold bind at 1. unfold bind at 1. unfold Read at 1.
  replace (nth (pos p) (input p) EOF =? q) with false
    by (symmetry; apply Z.eqb_neq; apply Hinv; lia).
  cbv zeta.
  destruct (nth (pos p) (input p) EOF =? 10).
  - unfold bind at 1.
    pose proof (Space_advances fs (withPos (S (pos p)) p)) as HS.
    destruct (Space EOF fs (withPos (S (pos p)) p)) as [[u n] p'| |];
      [|contradiction|reflexivity].
    cbn [withPos input pos] in HS. destruct HS as [Hi Hp].
    unfold ret. apply IH. intros k Hk. rewrite Hi. apply Hinv. lia.
  - destruct (nth (pos p) (input p) EOF =? 92).
    + unfold bind at 1. unfold Read at 1. unfold ret.
      apply IH. cbn [withPos input pos]. intros k Hk. apply Hinv. lia.
    + unfold ret. apply IH. cbn [withPos input pos]. intros k Hk. apply Hinv. lia.
Qed.

(** X9. Quoted never returns on a quote that is not closed: when the
    opening quote occurs nowhere in the rest of the input, and the end of
    the stream does not read as a quote, no amount of fuel is enough. *)
Theorem Quoted_unclosed_never_returns
    (fuel : nat) (pre : list Z) (q : Z) (tl : list Z) (sp : Z) (it : list Z)
    (e : EventHandler) :
  q = 34 \/ q = 39 ->
  EOF <> q ->
  forallb (fun c => negb (c =? q)) tl = true ->
  Quoted EOF fuel (mkParser (pre ++ q :: tl) (List.length pre) sp it e) = Fuel.
Proof.
  intros Hq Heof Hall. unfold Quoted. norm.
  rewrite (bind_eq _ _ _ _ _ (Read_at EOF pre q tl sp it e)).
  cbv beta.
  replace (negb (q =? 34) && negb (q =? 39)) with false
    by (destruct Hq as [-> | ->]; reflexivity).
  norm. unfold lastnl at 1. erewrite bind_eq by reflexivity. cbv beta.
  apply bind_Fuel. apply Quoted_loop_never.
  cbn [input pos]. intros k Hk.
  rewrite app_nth2 by lia.
  destruct (k - List.length pre)%nat as [|j] eqn:Ej; [lia|].
  cbn [nth]. clear Ej Hk k. revert j.
  induction tl as [|x t IHt]; intros j.
  - destruct j; exact Heof.
  - cbn [forallb] in Hall. apply andb_prop in Hall as [Hx Ht].
    destruct j as [|j]; cbn [nth].
    + apply negb_true_iff in Hx. apply Z.eqb_neq. exact Hx.
    + apply IHt. exact Ht.
Qed.

End UnterminatedQuote.

Lemma Quoted_unclosed_never_returns_witness :
  Quoted eof0 1000 (mkParser ([] ++ 34 :: [97; 98; 39; 10; 32; 99]) 0 0 [] (mkEv 0 [])) = Fuel.
Proof.
  apply (Quoted_unclosed_never_returns eof0 1000 [] 34 [97; 98; 39; 10; 32; 99] 0 []
           (mkEv 0 [])); [left; reflexivity | discriminate | reflexivity].
Defined.

(** ** Productions that fail *)

Lemma Unread_after_Read (p : Parser) :
  withPos (Nat.pred (pos (withPos (S (pos p)) p))) (withPos (S (pos p)) p) = p.
Proof. destruct p. reflexivity. Qed.

Lemma Unread_twice_after_Read (p : Parser) :
  withPos (Nat.pred (Nat.pred (S (S (pos p))))) p = p.
Proof. destruct p. reflexivity. Qed.

(** Takes a hypothesis [H : m p = Ret (_, false) p'] apart, along the
    binds, pairs and tests of [m]. *)
Ltac split_run H :=
  repeat first
    [ apply bind_Ret in H as (? & ? & ? & H)
    | match type of H with
      | context [match ?x with pair _ _ => _ end] => destruct x
      | context [if ?b then _ else _] => destruct b eqn:?
      end ].

Ltac read_inv :=
  repeat match goal with
  | H : Read _ _ = Ret _ _ |- _ => unfold Read in H; inversion H; subst; clear H
  | H : Unread _ = Ret _ _ |- _ => unfold Unread, modify in H; inversion H; subst; clear H
  | H : ret _ _ = Ret _ _ |- _ => unfold ret in H; inversion H; subst; clear H
  end.

Section RestoreFacts.

Variable EOF : Z.
Variable unicode_IsLetter : Z -> bool.
Variable unicode_IsDigit : Z -> bool.
Variables TypePath TypeExpression TypeGroup TypeIndex TypeSelector : string.

Lemma String_restores fuel p s p' :
  String_ EOF fuel p = Ret (s, false) p' -> p' = p.
Proof.
  unfold String_. intros H. split_run H; read_inv.
  apply Unread_after_Read.
Qed.

Lemma Quoted_restores fuel p s p' :
  Quoted EOF fuel p = Ret (s, false) p' -> p' = p.
Proof.
  unfold Quoted. intros H.
  apply bind_Ret in H as (c & p1 & HR & H).
  destruct (negb (c =? 34) && negb (c =? 39)).
  - split_run H; read_inv. apply Unread_after_Read.
  - apply bind_Ret in H as (? & ? & ? & H).
    apply bind_Ret in H as (? & ? & ? & H). read_inv.
Qed.

Lemma Comment_restores fuel p p' :
  Comment EOF fuel p = Ret false p' -> p' = p.
Proof.
  unfold Comment. intros H.
  apply bind_Ret in H as (c & p1 & HR & H).
  destruct (c =? 35).
  - apply bind_Ret in H as (? & ? & ? & H). read_inv.
  - split_run H; read_inv. apply Unread_after_Read.
Qed.

Lemma Block_restores fuel p s p' :
  Block EOF fuel p = Ret (s, false) p' -> p' = p.
Proof.
  unfold Block. intros H.
  apply bind_Ret in H as (c & p1 & HR & H).
  destruct (negb (c =? 92)).
  - split_run H; read_inv. apply Unread_after_Read.
  - apply bind_Ret in H as (c2 & p2 & HR2 & H).
    destruct (negb (c2 =? 10) && negb (c2 =? 13)).
    + split_run H; read_inv. cbn [pos withPos input spaces ind ev].
      destruct p. reflexivity.
    + apply bind_Ret in H as (? & ? & ? & H).
      apply bind_Ret in H as (? & ? & ? & H).
      apply bind_Ret in H as ([u ns] & ? & ? & H).
      destruct (u && (ns =? 0)); [discriminate H|].
      apply bind_Ret in H as ([c3 b3] & ? & ? & H). read_inv.
Qed.

(** X10. The productions of a line's scalars consume nothing when they
    fail: when Quoted, String, Scalar, Block or Comment returns false, the
    parser, its position included, is as it was before the call. *)
Theorem scalar_productions_fail_in_place (fuel : nat) (p p' : Parser) (s : string) :
  (Quoted EOF fuel p = Ret (s, false) p' -> p' = p) /\
  (String_ EOF fuel p = Ret (s, false) p' -> p' = p) /\
  (Scalar EOF fuel p = Ret (s, false) p' -> p' = p) /\
  (Block EOF fuel p = Ret (s, false) p' -> p' = p) /\
  (Comment EOF fuel p = Ret false p' -> p' = p).
Proof.
  repeat split.
  - apply Quoted_restores.
  - apply String_restores.
  - unfold Scalar. intros H.
    apply bind_Ret in H as ([b ok] & p1 & HQ & H). destruct ok.
    + read_inv.
    + apply Quoted_restores in HQ. subst p1. eapply String_restores. exact H.
  - apply Block_restores.
  - apply Comment_restores.
Qed.

Local Abbreviation pToken := (Token EOF unicode_IsLetter unicode_IsDigit).
Local Abbreviation pNumber := (Number EOF unicode_IsDigit).
Local Abbreviation pVariable := (Variable_ EOF unicode_IsLetter unicode_IsDigit
                                  TypePath TypeExpression TypeGroup TypeIndex TypeSelector).

(** X11. The same holds for the productions of paths and templates:
    when Token, Number, Operator, Text or Variable returns false, the parser
    is as it was before the call. *)
Theorem token_productions_fail_in_place (fuel : nat) (p p' : Parser) (s : string) :
  (pToken fuel p = Ret (s, false) p' -> p' = p) /\
  (pNumber fuel p = Ret (s, false) p' -> p' = p) /\
  (Operator EOF fuel p = Ret (s, false) p' -> p' = p) /\
  (Text EOF fuel p = Ret false p' -> p' = p) /\
  (pVariable fuel p = Ret false p' -> p' = p).
Proof.
  repeat split.
  - unfold Token. intros H. split_run H; read_inv. apply Unread_after_Read.
  - unfold Number, NumberTail. intros H.
    apply bind_Ret in H as (c & p1 & HR & H).
    destruct (negb (IsDigit unicode_IsDigit c)).
    + destruct (negb (c =? 45)).
      * split_run H; read_inv. apply Unread_after_Read.
      * apply bind_Ret in H as (d & p2 & HR2 & H).
        destruct (negb (IsDigit unicode_IsDigit d)).
        -- split_run H; read_inv. cbn [pos withPos input spaces ind ev].
           destruct p. reflexivity.
        -- split_run H; read_inv.
    + split_run H; read_inv.
  - unfold Operator. intros H. split_run H; read_inv. apply Unread_after_Read.
  - unfold Text. intros H.
    apply bind_Ret in H as (c & p1 & HR & H).
    destruct (negb (IsTemplateTextChar c)).
    + split_run H; read_inv. apply Unread_after_Read.
    + apply bind_Ret in H as (? & ? & ? & H).
      apply bind_Ret in H as (? & ? & ? & H). read_inv.
  - unfold Variable_. intros H.
    apply bind_Ret in H as (c & p1 & HR & H).
    destruct (negb (c =? 36)).
    + split_run H; read_inv. apply Unread_after_Read.
    + apply bind_Ret in H as (c2 & p2 & HR2 & H).
      destruct (c2 =? 92).
      * apply bind_Ret in H as (? & ? & ? & H). read_inv.
      * apply bind_Ret in H as (? & ? & ? & H).
        apply bind_Ret in H as (? & ? & ? & H).
        apply bind_Ret in H as (? & ? & ? & H).
        apply bind_Ret in H as (? & ? & ? & H).
        apply bind_Ret in H as (? & ? & ? & H). read_inv.
Qed.

End RestoreFacts.

Lemma scalar_productions_fail_in_place_witness :
  let p1 := NewStringParser "abc" in
  let p2 := NewStringParser "(a" in
  let p3 := NewStringParser ",x" in
  let p4 := NewStringParser (bslash ++ "x") in
  let p5 := NewStringParser "a #c" in
  resultParser (Quoted eof0 5 p1) (NewParser []) = p1 /\
  resultParser (String_ eof0 5 p2) (NewParser []) = p2 /\
  resultParser (Scalar eof0 5 p3) (NewParser []) = p3 /\
  resultParser (Block eof0 5 p4) (NewParser []) = p4 /\
  resultParser (Comment eof0 5 p5) (NewParser []) = p5.
Proof.
  intros p1 p2 p3 p4 p5.
  split; [|split; [|split; [|split]]].
  - apply (proj1 (scalar_productions_fail_in_place eof0 5 p1 _ ""%string)).
    vm_compute. reflexivity.
  - apply (proj1 (proj2 (scalar_productions_fail_in_place eof0 5 p2 _ ""%string))).
    vm_compute. reflexivity.
  - apply (proj1 (proj2 (proj2 (scalar_productions_fail_in_place eof0 5 p3 _ ""%string)))).
    vm_compute. reflexivity.
  - apply (proj1 (proj2 (proj2 (proj2
             (scalar_productions_fail_in_place eof0 5 p4 _ ""%string))))).
    vm_compute. reflexivity.
  - apply (proj2 (proj2 (proj2 (proj2
             (scalar_productions_fail_in_place eof0 5 p5 _ ""%string))))).
    vm_compute. reflexivity.
Defined.

Lemma token_productions_fail_in_place_witness :
  let tk := Token eof0 asciiLetter asciiDigit 5 in
  let nb := Number eof0 asciiDigit 5 in
  let vr := Variable_ eof0 asciiLetter asciiDigit "!p" "!e" "!g" "!i" "!s" 5 in
  let p1 := NewStringParser "-a" in
  let p2 := NewStringParser "$x" in
  let p3 := NewStringParser "x" in
  resultParser (tk p1) (NewParser []) = p1 /\
  resultParser (nb p1) (NewParser []) = p1 /\
  resultParser (Operator eof0 5 p3) (NewParser []) = p3 /\
  resultParser (Text eof0 5 p2) (NewParser []) = p2 /\
  resultParser (vr p3) (NewParser []) = p3.
Proof.
  intros tk nb vr p1 p2 p3.
  split; [|split; [|split; [|split]]].
  - apply (proj1 (token_productions_fail_in_place eof0 asciiLetter asciiDigit
                    "!p" "!e" "!g" "!i" "!s" 5 p1 _ ""%string)).
    vm_compute. reflexivity.
  - apply (proj1 (proj2 (token_productions_fail_in_place eof0 asciiLetter asciiDigit
                    "!p" "!e" "!g" "!i" "!s" 5 p1 _ ""%string))).
    vm_compute. reflexivity.
  - apply (proj1 (proj2 (proj2 (token_productions_fail_in_place eof0 asciiLetter asciiDigit
                    "!p" "!e" "!g" "!i" "!s" 5 p3 _ ""%string)))).
    vm_compute. reflexivity.
  - apply (proj1 (proj2 (proj2 (proj2 (token_productions_fail_in_place eof0 asciiLetter
                    asciiDigit "!p" "!e" "!g" "!i" "!s" 5 p2 _ ""%string))))).
    vm_compute. reflexivity.
  - apply (proj2 (proj2 (proj2 (proj2 (token_productions_fail_in_place eof0 asciiLetter
                    asciiDigit "!p" "!e" "!g" "!i" "!s" 5 p3 _ ""%string))))).
    vm_compute. reflexivity.
Defined.

(** ** Blocks *)

Section BlockFacts.

Variable EOF : Z.

Lemma Space_lead fuel pre lead tl it e :
  forallb isSpaceByte lead = true ->
  isSpaceByte (hd EOF tl) = false ->
  (List.length lead <= fuel)%nat ->
  Space EOF fuel (mkParser (pre ++ lead ++ tl) (List.length pre) 0 it e)
  = Ret (spaceResult lead)
        (mkParser (pre ++ lead ++ tl) (List.length pre + List.length lead) 0 it e).
Proof.
  intros Hall Hstop Hf. destruct lead as [|c run].
  - cbn [app spaceResult List.length]. unfold Space. norm.
    erewrite bind_eq by reflexivity. cbn [spaces].
    change (0 <? 0) with false. cbv iota. norm.
    rewrite (bind_eq _ _ _ _ _ (Read_next EOF pre tl 0 it e)). cbv beta.
    unfold isSpaceByte in Hstop. apply orb_false_iff in Hstop as [H32 H9].
    rewrite H32, H9. cbn [negb andb]. norm.
    rewrite (bind_eq _ _ _ _ _ (Unread_at _ _ 0 it e)).
    rewrite Nat.add_0_r. reflexivity.
  - cbn [forallb] in Hall. apply andb_prop in Hall as [Hc Hr].
    cbn [List.length] in Hf.
    exact (Space_run EOF fuel pre c run tl it e ltac:(lia) Hc Hr Hstop).
Qed.

(** What [Block] does after the backslash and the line break, up to the
    first call of [Space]. *)
Lemma Block_head fuel pre b rest it e :
  b = 10 \/ b = 13 ->
  Block EOF fuel (mkParser (pre ++ 92 :: b :: rest) (List.length pre) 0 it e)
  = ('(u, ns) <- Space EOF fuel ;;
      if u && (ns =? 0) then panic
      else
        '(c, buffer) <- loop fuel (fun st : Z * Z * Z * string =>
            let '(j, ns, c, buffer) := st in
            if j <=? parentColumn it e then
              modify (withSpaces j) ;;; ret (inr (c, buffer))
            else
              let ns := if j <? ns then j else ns in
              '(c, buffer) <- loop fuel (fun st : Z * string =>
                  let '(_, buffer) := st in
                  c <- Read EOF ;;
                  let buffer := push buffer (byte c) in
                  if c =? 13 then ret (inl (c, buffer))
                  else if c =? 10 then ret (inr (c, buffer))
                  else
                    e <- End_ EOF ;;
                    if e then ret (inr (c, buffer)) else ret (inl (c, buffer)))
                (c, buffer) ;;
              '(_, j) <- Space EOF fuel ;;
              ret (inl (j, ns, c, buffer))) (ns, ns, b, ""%string) ;;
        let buffer := if (c =? 10) && (0 <? Z.of_nat (String.length buffer))
                      then dropLast buffer else buffer in
        ret (buffer, true))
      (mkParser (pre ++ 92 :: b :: rest) (S (S (List.length pre))) 0 it e).
Proof.
  intros Hb. unfold Block. norm.
  rewrite (bind_eq _ _ _ _ _ (Read_at EOF pre 92 (b :: rest) 0 it e)). cbv beta.
  change (92 =? 92) with true. cbn [negb]. norm.
  pose proof (Read_at EOF (pre ++ [92]) b rest 0 it e) as HR.
  rewrite <- app_assoc in HR. cbn [app] in HR.
  rewrite length_app in HR. cbn [List.length] in HR. rewrite Nat.add_1_r in HR.
  rewrite (bind_eq _ _ _ _ _ HR). cbv beta.
  replace (negb (b =? 10) && negb (b =? 13)) with false
    by (destruct Hb as [-> | ->]; reflexivity).
  norm. unfold Level at 1. erewrite bind_eq by reflexivity. cbv beta.
  cbn [ev]. unfold parentColumn.
  destruct (0 <? evLevel e).
  - unfold indAt at 1. erewrite bind_eq by reflexivity. cbn [ind]. reflexivity.
  - norm. reflexivity.
Qed.

(** X12. The first line of a block.  After the backslash and the line
    break, a run of spaces and tabs that mixes the two makes Block panic.
    Otherwise, when the run is not longer than the column of the depth
    above (so always when the line is not indented, at depth 0), the block
    is empty: Block returns the empty string and true, and the run it read
    is kept as the spaces owed to the next call of Space. *)
Theorem Block_first_line
    (fuel : nat) (pre : list Z) (b : Z) (lead tl : list Z) (it : list Z)
    (e : EventHandler) :
  (List.length lead < fuel)%nat ->
  b = 10 \/ b = 13 ->
  forallb isSpaceByte lead = true ->
  isSpaceByte (hd EOF tl) = false ->
  let p := mkParser (pre ++ 92 :: b :: lead ++ tl) (List.length pre) 0 it e in
  (spaceResult lead = (true, 0) -> Block EOF fuel p = Panic) /\
  (spaceResult lead <> (true, 0) ->
   snd (spaceResult lead) <= parentColumn it e ->
   Block EOF fuel p
   = Ret (""%string, true)
         (mkParser (pre ++ 92 :: b :: lead ++ tl)
                   (List.length pre + 2 + List.length lead)
                   (snd (spaceResult lead)) it e)).
Proof.
  intros Hf Hb Hall Hstop p. subst p.
  pose proof (Space_lead fuel (pre ++ [92; b]) lead tl it e Hall Hstop ltac:(lia)) as HS.
  rewrite <- app_assoc in HS. cbn [app] in HS.
  rewrite length_app in HS. cbn [List.length] in HS.
  replace (List.length pre + 2)%nat with (S (S (List.length pre))) in HS by lia.
  split.
  - intros H0. rewrite Block_head by exact Hb.
    rewrite (bind_eq _ _ _ _ _ HS). rewrite H0. reflexivity.
  - intros Hne Hle. rewrite Block_head by exact Hb.
    rewrite (bind_eq _ _ _ _ _ HS).
    destruct (spaceResult lead) as [u ns] eqn:E. cbn [snd] in *.
    assert (Hgo : u && (ns =? 0) = false).
    { destruct u; [|reflexivity]. cbn [andb]. apply Z.eqb_neq.
      intros ->. apply Hne. reflexivity. }
    cbv beta iota. rewrite Hgo.
    destruct fuel as [|f]; [lia|].
    cbn [loop]. norm.
    replace (ns <=? parentColumn it e) with true by (symmetry; apply Z.leb_le; exact Hle).
    norm. rewrite (bind_eq _ _ _ _ _ (modify_at _ _)). norm.
    unfold ret, withSpaces. cbn [input pos ind ev].
    replace ((b =? 10) && (0 <? Z.of_nat (String.length ""))) with false
      by (rewrite andb_comm; reflexivity).
    f_equal. f_equal. lia.
Qed.

End BlockFacts.

Lemma Block_first_line_witness :
  let p1 := mkParser ([97; 32] ++ 92 :: 10 :: [32; 9] ++ [98]) 2 0 [] (mkEv 0 []) in
  let p2 := mkParser ([97; 32] ++ 92 :: 10 :: [32] ++ [98]) 2 0 [2; 3] (mkEv 1 []) in
  Block eof0 5 p1 = Panic /\
  Block eof0 5 p2
  = Ret (""%string, true)
        (mkParser ([97; 32] ++ 92 :: 10 :: [32] ++ [98]) (2 + 2 + 1)
                  (snd (spaceResult [32])) [2; 3] (mkEv 1 [])).
Proof.
  split.
  - apply (proj1 (Block_first_line eof0 5 [97; 32] 10 [32; 9] [98] [] (mkEv 0 [])
                    ltac:(cbn; lia) (or_introl eq_refl) eq_refl eq_refl)).
    reflexivity.
  - apply (proj2 (Block_first_line eof0 5 [97; 32] 10 [32] [98] [2; 3] (mkEv 1 [])
                    ltac:(cbn; lia) (or_introl eq_refl) eq_refl eq_refl)).
    + vm_compute. discriminate.
    + vm_compute. discriminate.
Defined.

Lemma stringOf_app (a b : list Z) :
  stringOf (a ++ b) = (stringOf a ++ stringOf b)%string.
Proof. induction a as [|x a IH]; cbn; [reflexivity | rewrite IH; reflexivity]. Qed.

Lemma length_stringOf (a : list Z) : String.length (stringOf a) = List.length a.
Proof. induction a as [|x a IH]; cbn; [reflexivity | rewrite IH; reflexivity]. Qed.

Lemma substring_prefix (a b : string) :
  substring 0 (String.length a) (a ++ b) = a.
Proof.
  induction a as [|x a IH]; cbn.
  - destruct b; reflexivity.
  - rewrite IH. reflexivity.
Qed.

Lemma dropLast_snoc (xs : list Z) (y : Z) :
  dropLast (stringOf (xs ++ [y])) = stringOf xs.
Proof.
  unfold dropLast. rewrite length_stringOf, length_app. cbn [List.length].
  replace (List.length xs + 1 - 1)%nat with (String.length (stringOf xs))
    by (rewrite length_stringOf; lia).
  rewrite stringOf_app. apply substring_prefix.
Qed.

Lemma lineTexts_snoc (lines : list (list Z * list Z)) :
  lines <> [] -> exists xs, lineTexts lines = xs ++ [10].
Proof.
  induction lines as [|l ls IH]; intros Hne; [congruence|].
  destruct ls as [|l2 ls'].
  - exists (snd l). unfold lineTexts. cbn. rewrite app_nil_r. reflexivity.
  - destruct IH as [xs Hxs]; [discriminate|].
    exists ((snd l ++ [10]) ++ xs).
    change (lineTexts (l :: l2 :: ls')) with ((snd l ++ [10]) ++ lineTexts (l2 :: ls')).
    rewrite Hxs, app_assoc. reflexivity.
Qed.

Lemma lineBytes_count (lines : list (list Z * list Z)) :
  (List.length lines <= List.length (flat_map lineBytes lines))%nat.
Proof.
  induction lines as [|l ls IH]; cbn [flat_map List.length]; [lia|].
  unfold lineBytes at 1. rewrite !length_app. cbn [List.length]. lia.
Qed.

Ltac lens := repeat (first [rewrite length_app | progress (cbn [List.length])]).
Ltac lens_in H :=
  repeat (first [rewrite length_app in H | progress (cbn [List.length] in H)]).
Ltac flat := cbn [flat_map]; unfold lineBytes at 1;
             repeat (first [rewrite <- app_assoc | progress (cbn [app])]).

Section BlockLines.

Variable EOF : Z.

Lemma Read_in inp n pre c r sp it e :
  inp = pre ++ c :: r -> n = List.length pre ->
  Read EOF (mkParser inp n sp it e) = Ret c (mkParser inp (S n) sp it e).
Proof. intros -> ->. apply Read_at. Qed.

Lemma End_not inp n pre x r sp it e :
  inp = pre ++ x :: r -> n = List.length pre -> IsEndChar x = false ->
  End_ EOF (mkParser inp n sp it e) = Ret false (mkParser inp n sp it e).
Proof.
  intros Hi Hn Hx. unfold End_. norm.
  rewrite (bind_eq _ _ _ _ _ (Read_in inp n pre x r sp it e Hi Hn)). cbv beta.
  unfold IsEndChar in Hx. rewrite Hx. norm.
  rewrite (bind_eq _ _ _ _ _ (Unread_at _ _ _ _ _)). reflexivity.
Qed.

Lemma Space_in fuel inp n pre lead tl it e :
  inp = pre ++ lead ++ tl -> n = List.length pre ->
  forallb isSpaceByte lead = true ->
  isSpaceByte (hd EOF tl) = false ->
  (List.length lead <= fuel)%nat ->
  Space EOF fuel (mkParser inp n 0 it e)
  = Ret (spaceResult lead) (mkParser inp (n + List.length lead) 0 it e).
Proof. intros -> ->. apply Space_lead. Qed.

Local Abbreviation lineLoop := (fun st : Z * string =>
  let '(_, buffer) := st in
  c <- Read EOF ;;
  let buffer := push buffer (byte c) in
  if c =? 13 then ret (inl (c, buffer))
  else if c =? 10 then ret (inr (c, buffer))
  else
    e <- End_ EOF ;;
    if e then ret (inr (c, buffer)) else ret (inl (c, buffer))).

(** The loop that reads the bytes of a line, up to its line feed. *)
Lemma Block_line it e txt :
  forall inp n pre tl c0 buffer fuel,
    inp = pre ++ txt ++ 10 :: tl -> n = List.length pre ->
    forallb lineByte txt = true ->
    (List.length txt < fuel)%nat ->
    loop fuel lineLoop (c0, buffer) (mkParser inp n 0 it e)
    = Ret (10, (buffer ++ stringOf (txt ++ [10]))%string)
          (mkParser inp (n + List.length txt + 1) 0 it e).
Proof.
  induction txt as [|c r IH]; intros inp n pre tl c0 buffer fuel Hi Hn Hall Hf.
  - destruct fuel as [|f]; [cbn in Hf; lia|].
    cbn [loop app] in *. norm.
    rewrite (bind_eq _ _ _ _ _ (Read_in inp n pre 10 tl 0 it e Hi Hn)).
    cbv beta zeta. change (10 =? 13) with false. change (10 =? 10) with true.
    cbv iota. norm. unfold ret, push. cbn [app stringOf List.length].
    f_equal. f_equal. lia.
  - destruct fuel as [|f]; [cbn in Hf; lia|].
    cbn [forallb] in Hall. apply andb_prop in Hall as [Hc Hr].
    unfold lineByte in Hc. apply andb_prop in Hc as [_ Hbr].
    apply negb_true_iff in Hbr. unfold IsBreakChar in Hbr.
    apply orb_false_iff in Hbr as [H10 H13].
    cbn [loop app] in *. norm.
    rewrite (bind_eq _ _ _ _ _ (Read_in inp n pre c (r ++ 10 :: tl) 0 it e Hi Hn)).
    cbv beta zeta. rewrite H13, H10. norm.
    assert (Hnext : exists x r', r ++ 10 :: tl = x :: r' /\ IsEndChar x = false).
    { destruct r as [|x r'].
      - exists 10, tl. split; reflexivity.
      - exists x, (r' ++ 10 :: tl). split; [reflexivity|].
        cbn [forallb] in Hr. apply andb_prop in Hr as [Hx _].
        unfold lineByte in Hx. apply andb_prop in Hx as [Hx _].
        apply negb_true_iff in Hx. exact Hx. }
    destruct Hnext as (x & r' & Hx & Hend).
    assert (Hi' : inp = (pre ++ [c]) ++ x :: r').
    { rewrite Hi, <- app_assoc, <- Hx. reflexivity. }
    assert (Hn' : S n = List.length (pre ++ [c])).
    { rewrite length_app. cbn [List.length]. lia. }
    rewrite (bind_eq _ _ _ _ _ (End_not inp (S n) (pre ++ [c]) x r' 0 it e Hi' Hn' Hend)).
    cbv iota. norm.
    rewrite (IH inp (S n) (pre ++ [c]) tl c (push buffer (byte c)) f).
    + unfold push. rewrite sapp_assoc. cbn [stringOf append app List.length].
      f_equal. f_equal. lia.
    + rewrite Hi, <- app_assoc. reflexivity.
    + exact Hn'.
    + exact Hr.
    + cbn in Hf. lia.
Qed.

Local Abbreviation blockLoop col fuel := (fun st : Z * Z * Z * string =>
  let '(j, ns, c, buffer) := st in
  if j <=? col then
    modify (withSpaces j) ;;; ret (inr (c, buffer))
  else
    let ns := if j <? ns then j else ns in
    '(c, buffer) <- loop fuel (fun st : Z * string =>
        let '(_, buffer) := st in
        c <- Read EOF ;;
        let buffer := push buffer (byte c) in
        if c =? 13 then ret (inl (c, buffer))
        else if c =? 10 then ret (inr (c, buffer))
        else
          e <- End_ EOF ;;
          if e then ret (inr (c, buffer)) else ret (inl (c, buffer)))
      (c, buffer) ;;
    '(_, j) <- Space EOF fuel ;;
    ret (inl (j, ns, c, buffer))).

Lemma blockLine_lead col l :
  blockLine col l = true ->
  forallb isSpaceByte (fst l) = true /\
  spaceResult (fst l) = (true, Z.of_nat (List.length (fst l))) /\
  col < Z.of_nat (List.length (fst l)) /\
  forallb lineByte (snd l) = true /\
  (forall tl, isSpaceByte (hd EOF (snd l ++ 10 :: tl)) = false).
Proof.
  unfold blockLine. intros H.
  apply andb_prop in H as [H Hhd]. apply andb_prop in H as [H Htxt].
  apply andb_prop in H as [Hlead Hcol].
  apply negb_true_iff in Hhd. apply Z.ltb_lt in Hcol.
  destruct (fst l) as [|c r] eqn:E; [discriminate|].
  apply andb_prop in Hlead as [Hc Hr].
  repeat split.
  - cbn [forallb]. rewrite Hc. cbn [andb].
    apply forallb_forall. intros x Hx.
    rewrite forallb_forall in Hr. apply Hr in Hx. apply Z.eqb_eq in Hx. subst x. exact Hc.
  - unfold spaceResult, runCount. cbn [forallb]. rewrite Z.eqb_refl, Hr. reflexivity.
  - exact Hcol.
  - exact Htxt.
  - intros tl. destruct (snd l); [reflexivity | exact Hhd].
Qed.

(** The loop over the lines of a block, entered after the indentation of
    the first of them. *)
Lemma Block_lines_loop col fuel lead' tl it e :
  forallb isSpaceByte lead' = true ->
  isSpaceByte (hd EOF tl) = false ->
  snd (spaceResult lead') <= col ->
  forall ls l1 inp n pre ns c buffer fo,
    inp = pre ++ snd l1 ++ 10 :: flat_map lineBytes ls ++ lead' ++ tl ->
    n = List.length pre ->
    blockLine col l1 = true ->
    forallb (blockLine col) ls = true ->
    (List.length ls + 1 < fo)%nat ->
    (List.length (snd l1 ++ 10%Z :: flat_map lineBytes ls ++ lead') < fuel)%nat ->
    loop fo (blockLoop col fuel) (Z.of_nat (List.length (fst l1)), ns, c, buffer)
         (mkParser inp n 0 it e)
    = Ret (10, (buffer ++ stringOf (lineTexts (l1 :: ls)))%string)
          (mkParser inp
             (n + List.length (snd l1 ++ 10%Z :: flat_map lineBytes ls ++ lead'))
             (snd (spaceResult lead')) it e).
Proof.
  intros Hlead' Hstop Hcol.
  induction ls as [|l2 ls IH];
    intros l1 inp n pre ns c buffer fo Hi Hn Hl1 Hls Hfo Hf.
  - destruct fo as [|fo]; [lia|]. destruct fo as [|fo]; [cbn in Hfo; lia|].
    destruct (blockLine_lead col l1 Hl1) as (_ & _ & Hc1 & Htxt & _).
    cbn [flat_map app] in *.
    rewrite !length_app in Hf. cbn [List.length] in Hf.
    cbn [loop]. norm.
    replace (Z.of_nat (List.length (fst l1)) <=? col) with false
      by (symmetry; apply Z.leb_gt; exact Hc1).
    norm.
    rewrite (bind_eq _ _ _ _ _
               (Block_line it e (snd l1) inp n pre (lead' ++ tl) c buffer fuel
                  Hi Hn Htxt ltac:(lia))).
    cbv beta iota. norm.
    assert (Hi2 : inp = (pre ++ snd l1 ++ [10]) ++ lead' ++ tl).
    { rewrite Hi, <- !app_assoc. reflexivity. }
    assert (Hn2 : (n + List.length (snd l1) + 1)%nat = List.length (pre ++ snd l1 ++ [10])).
    { rewrite !length_app. cbn [List.length]. lia. }
    rewrite (bind_eq _ _ _ _ _
               (Space_in fuel inp _ _ lead' tl it e Hi2 Hn2 Hlead' Hstop ltac:(lia))).
    destruct (spaceResult lead') as [u j'] eqn:E. cbn [snd] in *.
    cbv beta iota. norm.
    replace (j' <=? col) with true by (symmetry; apply Z.leb_le; exact Hcol).
    norm. rewrite (bind_eq _ _ _ _ _ (modify_at _ _)). norm.
    unfold ret, withSpaces. cbn [input pos ind ev].
    unfold lineTexts. cbn [flat_map]. rewrite app_nil_r.
    f_equal. f_equal. rewrite !length_app. cbn [List.length]. lia.
  - destruct fo as [|fo]; [lia|].
    destruct (blockLine_lead col l1 Hl1) as (_ & _ & Hc1 & Htxt & _).
    cbn [forallb] in Hls. apply andb_prop in Hls as [Hl2 Hls].
    destruct (blockLine_lead col l2 Hl2) as (Hsp2 & Hres2 & _ & _ & Hhd2).
    assert (HiA : inp = pre ++ snd l1 ++ 10
                          :: (fst l2 ++ snd l2 ++ 10 :: flat_map lineBytes ls ++ lead' ++ tl)).
    { rewrite Hi. flat. reflexivity. }
    assert (HfA : (List.length (snd l1) + 1 + List.length (fst l2)
                   + List.length (snd l2 ++ 10%Z :: flat_map lineBytes ls ++ lead')
                   < fuel)%nat).
    { cbn [flat_map] in Hf. unfold lineBytes at 1 in Hf. lens_in Hf. lens. lia. }
    assert (Hlen : List.length (snd l1 ++ 10%Z :: flat_map lineBytes (l2 :: ls) ++ lead')
                   = (List.length (snd l1) + 1 + List.length (fst l2)
                      + List.length (snd l2 ++ 10%Z :: flat_map lineBytes ls ++ lead'))%nat).
    { cbn [flat_map]. unfold lineBytes at 1. lens. lia. }
    rewrite Hlen. clear Hlen Hf Hi.
    cbn [loop]. norm.
    replace (Z.of_nat (List.length (fst l1)) <=? col) with false
      by (symmetry; apply Z.leb_gt; exact Hc1).
    norm.
    rewrite (bind_eq _ _ _ _ _
               (Block_line it e (snd l1) inp n pre _ c buffer fuel
                  HiA Hn Htxt ltac:(lia))).
    cbv beta iota. norm.
    assert (Hi2 : inp = (pre ++ snd l1 ++ [10]) ++ fst l2
                          ++ (snd l2 ++ 10 :: flat_map lineBytes ls ++ lead' ++ tl)).
    { rewrite HiA, <- !app_assoc. reflexivity. }
    assert (Hn2 : (n + List.length (snd l1) + 1)%nat = List.length (pre ++ snd l1 ++ [10])).
    { lens. lia. }
    rewrite (bind_eq _ _ _ _ _
               (Space_in fuel inp _ _ (fst l2) _ it e Hi2 Hn2 Hsp2 (Hhd2 _) ltac:(lia))).
    rewrite Hres2. cbv beta iota. norm.
    rewrite (IH l2 inp (n + List.length (snd l1) + 1 + List.length (fst l2))%nat
               ((pre ++ snd l1 ++ [10]) ++ fst l2)).
    + unfold lineTexts. cbn [flat_map]. rewrite !stringOf_app, !sapp_assoc.
      f_equal. f_equal. lia.
    + rewrite Hi2, <- !app_assoc. reflexivity.
    + lens. lia.
    + exact Hl2.
    + exact Hls.
    + cbn [List.length] in Hfo. lia.
    + lia.
Qed.

(** X13. The text of a block.  After the backslash and the line break
    come lines, each indented by a uniform run of spaces or tabs longer
    than the column of the depth above and closed by a line feed, and then
    a line that is not indented that far.  Block returns the texts of the
    lines joined by line feeds: the indentation of every line is dropped
    whole, however deep, and so is the last line feed.  The parser is left
    after the indentation of the line that follows the block, which is
    kept as the spaces owed to the next call of Space. *)
Theorem Block_lines
    (fuel : nat) (pre : list Z) (b : Z) (lines : list (list Z * list Z))
    (lead' tl : list Z) (it : list Z) (e : EventHandler) :
  (List.length (flat_map lineBytes lines ++ lead') < fuel)%nat ->
  b = 10 \/ b = 13 ->
  lines <> [] ->
  forallb (blockLine (parentColumn it e)) lines = true ->
  forallb isSpaceByte lead' = true ->
  isSpaceByte (hd EOF tl) = false ->
  snd (spaceResult lead') <= parentColumn it e ->
  Block EOF fuel
    (mkParser (pre ++ 92 :: b :: flat_map lineBytes lines ++ lead' ++ tl)
              (List.length pre) 0 it e)
  = Ret (stringOf (removelast (lineTexts lines)), true)
        (mkParser (pre ++ 92 :: b :: flat_map lineBytes lines ++ lead' ++ tl)
                  (List.length pre + 2 + List.length (flat_map lineBytes lines ++ lead'))
                  (snd (spaceResult lead')) it e).
Proof.
  intros Hf Hb Hne Hall Hlead' Hstop Hcol.
  destruct lines as [|l1 ls]; [congruence|].
  cbn [forallb] in Hall. apply andb_prop in Hall as [Hl1 Hls].
  destruct (blockLine_lead (parentColumn it e) l1 Hl1) as (Hsp1 & Hres1 & Hc1 & _ & Hhd1).
  rewrite Block_head by exact Hb.
  pose proof (lineBytes_count ls) as Hcount.
  set (inp := pre ++ 92 :: b :: flat_map lineBytes (l1 :: ls) ++ lead' ++ tl).
  assert (Hi1 : inp = (pre ++ [92; b]) ++ fst l1
                        ++ (snd l1 ++ 10 :: flat_map lineBytes ls ++ lead' ++ tl)).
  { unfold inp. flat. reflexivity. }
  assert (Hn1 : S (S (List.length pre)) = List.length (pre ++ [92; b])).
  { lens. lia. }
  assert (Hlen : List.length (flat_map lineBytes (l1 :: ls) ++ lead')
                 = (List.length (fst l1)
                    + List.length (snd l1 ++ 10%Z :: flat_map lineBytes ls ++ lead'))%nat).
  { cbn [flat_map]. unfold lineBytes at 1. lens. lia. }
  rewrite Hlen in Hf |- *. clear Hlen.
  assert (Hfl : (List.length ls + 1 < fuel)%nat).
  { lens_in Hf. lia. }
  rewrite (bind_eq _ _ _ _ _
             (Space_in fuel inp _ _ (fst l1) _ it e Hi1 Hn1 Hsp1 (Hhd1 _) ltac:(lia))).
  rewrite Hres1. cbv beta iota.
  assert (Hpos : 0 < Z.of_nat (List.length (fst l1))).
  { destruct (fst l1); [discriminate Hres1 | cbn [List.length]; lia]. }
  replace (Z.of_nat (List.length (fst l1)) =? 0) with false
    by (symmetry; apply Z.eqb_neq; lia).
  cbn [andb].
  rewrite (bind_eq _ _ _ _ _
             (Block_lines_loop (parentColumn it e) fuel lead' tl it e Hlead' Hstop Hcol
                ls l1 inp (S (S (List.length pre)) + List.length (fst l1))%nat
                ((pre ++ [92; b]) ++ fst l1)
                (Z.of_nat (List.length (fst l1))) b ""%string fuel
                ltac:(rewrite Hi1, <- !app_assoc; reflexivity)
                ltac:(lens; lia)
                Hl1 Hls Hfl ltac:(lia))).
  cbv beta iota zeta. change (10 =? 10) with true. cbn [andb append].
  destruct (lineTexts_snoc (l1 :: ls)) as [xs Hxs]; [discriminate|].
  rewrite Hxs, length_stringOf, length_app. cbn [List.length].
  replace (0 <? Z.of_nat (List.length xs + 1)) with true
    by (symmetry; apply Z.ltb_lt; lia).
  rewrite dropLast_snoc, removelast_last.
  unfold ret. f_equal. f_equal. lia.
Qed.

End BlockLines.

Lemma Block_lines_witness :
  Block eof0 20
    (mkParser ([120; 32] ++ 92 :: 10
                 :: flat_map lineBytes [([32; 32], [97; 32; 98]); ([32; 32; 32; 32], [99])]
                 ++ [] ++ [100; 10])
              2 0 [] (mkEv 0 []))
  = Ret (stringOf (removelast (lineTexts [([32; 32], [97; 32; 98]); ([32; 32; 32; 32], [99])])),
         true)
        (mkParser ([120; 32] ++ 92 :: 10
                     :: flat_map lineBytes [([32; 32], [97; 32; 98]); ([32; 32; 32; 32], [99])]
                     ++ [] ++ [100; 10])
                  (2 + 2 + List.length
                     (flat_map lineBytes [([32; 32], [97; 32; 98]); ([32; 32; 32; 32], [99])]
                      ++ []))
                  (snd (spaceResult [])) [] (mkEv 0 [])).
Proof.
  apply (Block_lines eof0 20 [120; 32] 10
           [([32; 32], [97; 32; 98]); ([32; 32; 32; 32], [99])] [] [100; 10] [] (mkEv 0 [])).
  - cbn. lia.
  - left. reflexivity.
  - discriminate.
  - reflexivity.
  - reflexivity.
  - reflexivity.
  - vm_compute. discriminate.
Defined.

(** ** White space, and the error of the top-level parse *)

Section WhiteSpaceFacts.

Variable EOF : Z.

Lemma WhiteSpace_loop run :
  forall pre tl any sp it e fuel,
    forallb isWhite run = true ->
    isWhite (hd EOF tl) = false ->
    (List.length run < fuel)%nat ->
    loop fuel (fun any : bool =>
                 c <- Read EOF ;;
                 if negb (c =? 13) && negb (c =? 10) && negb (c =? 9) && negb (c =? 32)
                 then ret (inr any)
                 else ret (inl true)) any
         (mkParser (pre ++ run ++ tl) (List.length pre) sp it e)
    = Ret (any || negb (Nat.eqb (List.length run) 0))
          (mkParser (pre ++ run ++ tl) (S (List.length pre + List.length run)) sp it e).
Proof.
  assert (Hw : forall c, negb (c =? 13) && negb (c =? 10) && negb (c =? 9) && negb (c =? 32)
                         = negb (isWhite c)).
  { intros c. unfold isWhite.
    destruct (c =? 13), (c =? 10), (c =? 9), (c =? 32); reflexivity. }
  induction run as [|c r IH]; intros pre tl any sp it e fuel Hall Hstop Hf.
  - destruct fuel as [|f]; [cbn in Hf; lia|].
    cbn [loop app]. norm.
    rewrite (bind_eq _ _ _ _ _ (Read_next EOF pre tl sp it e)). cbv beta.
    rewrite Hw, Hstop. cbn [negb]. norm. unfold ret. cbn [List.length Nat.eqb negb].
    rewrite orb_false_r, Nat.add_0_r. reflexivity.
  - destruct fuel as [|f]; [cbn in Hf; lia|].
    cbn [forallb] in Hall. apply andb_prop in Hall as [Hc Hr].
    cbn [loop app]. norm.
    rewrite (bind_eq _ _ _ _ _ (Read_at EOF pre c (r ++ tl) sp it e)). cbv beta.
    rewrite Hw, Hc. cbn [negb]. norm.
    specialize (IH (pre ++ [c]) tl true sp it e f Hr Hstop).
    rewrite <- app_assoc in IH. cbn [app] in IH.
    rewrite length_app in IH. cbn [List.length] in IH. rewrite Nat.add_1_r in IH.
    rewrite IH by (cbn in Hf; lia).
    cbn [List.length Nat.eqb negb orb]. rewrite orb_true_r.
    f_equal. f_equal. lia.
Qed.

(** X14. WhiteSpace takes the longest run of spaces, tabs, line feeds and
    carriage returns at the current position, across lines, and returns
    whether the run is not empty; the byte that ends the run, or the end
    of the stream, is left unread. *)
Theorem WhiteSpace_longest_run
    (fuel : nat) (pre run tl : list Z) (sp : Z) (it : list Z) (e : EventHandler) :
  (List.length run < fuel)%nat ->
  forallb isWhite run = true ->
  isWhite (hd EOF tl) = false ->
  WhiteSpace EOF fuel (mkParser (pre ++ run ++ tl) (List.length pre) sp it e)
  = Ret (negb (Nat.eqb (List.length run) 0))
        (mkParser (pre ++ run ++ tl) (List.length pre + List.length run) sp it e).
Proof.
  intros Hf Hall Hstop. unfold WhiteSpace. norm.
  rewrite (bind_eq _ _ _ _ _ (WhiteSpace_loop run pre tl false sp it e fuel Hall Hstop Hf)).
  norm. rewrite (bind_eq _ _ _ _ _ (Unread_at _ _ _ _ _)). reflexivity.
Qed.

(** X15. The only error the top-level parse returns is the one of a
    group that is not closed: whatever the input, when Ogdl returns an
    error it is [missing )]. *)
Theorem Ogdl_only_error (fuel : nat) (p p' : Parser) (err : error) :
  Ogdl EOF fuel p = Ret (Some err) p' -> err = errors_New "missing )".
Proof.
  unfold Ogdl. intros H.
  apply bind_Ret in H as (out & q & HL & H).
  destruct out as [e0|].
  - inversion H; subst. clear H.
    refine (loop_result (fun o => forall x, o = Some x -> x = errors_New "missing )")
              _ _ _ _ _ _ _ HL err eq_refl).
    clear. intros s p a q H x Hx. subst a.
    apply bind_Ret in H as ([more e1] & p1 & HLine & H).
    destruct e1 as [e1|].
    + inversion H; subst. eapply Line_error. exact HLine.
    + destruct more; inversion H.
  - apply bind_Ret in H as (? & ? & _ & H). inversion H.
Qed.

End WhiteSpaceFacts.

Lemma WhiteSpace_longest_run_witness :
  WhiteSpace eof0 10 (mkParser ([40] ++ [32; 10; 9; 13] ++ [97]) 1 0 [] (mkEv 0 []))
  = Ret (negb (Nat.eqb (List.length [32; 10; 9; 13]) 0))
        (mkParser ([40] ++ [32; 10; 9; 13] ++ [97]) (1 + 4) 0 [] (mkEv 0 [])).
Proof.
  apply (WhiteSpace_longest_run eof0 10 [40] [32; 10; 9; 13] [97] 0 [] (mkEv 0 []));
    [cbn; lia | reflexivity | reflexivity].
Defined.

Lemma Ogdl_only_error_witness :
  let p := NewStringParser "a (b" in
  valueOf (Ogdl eof0 20 p) = Some (Some "missing )"%string) /\
  "missing )"%string = errors_New "missing )".
Proof.
  intros p. split; [vm_compute; reflexivity|].
  apply (Ogdl_only_error eof0 20 p (resultParser (Ogdl eof0 20 p) p)).
  vm_compute. reflexivity.
Defined.

(** ** The depth of the sink across a template *)

Lemma keepsLevel_of_sink {A} (m : M A) : keepsSink m -> keepsLevel m.
Proof. intros H p a p' E. rewrite (H _ _ _ E). reflexivity. Qed.

Lemma keepsLevel_ret {A} (a : A) : keepsLevel (ret a).
Proof. apply keepsLevel_of_sink, keepsSink_ret. Qed.

Lemma keepsLevel_bind {A B} (m : M A) (k : A -> M B) :
  keepsLevel m -> (forall a, keepsLevel (k a)) -> keepsLevel (bind m k).
Proof.
  intros Hm Hk p b p' H.
  apply bind_Ret in H as (a & q & H1 & H2).
  rewrite (Hk a _ _ _ H2). exact (Hm _ _ _ H1).
Qed.

Lemma keepsLevel_loop {S A} (body : S -> M (S + A)) :
  (forall s, keepsLevel (body s)) -> forall fuel s, keepsLevel (loop fuel body s).
Proof.
  intros Hb fuel. induction fuel as [|fuel IH]; intros s.
  - intros p a p' H. discriminate H.
  - cbn [loop]. apply keepsLevel_bind; [apply Hb|].
    intros [s'|a]; [apply IH | apply keepsLevel_ret].
Qed.

Section TemplateLevel.

Variable EOF : Z.
Variable unicode_IsLetter : Z -> bool.
Variable unicode_IsDigit : Z -> bool.
Variables TypePath TypeExpression TypeGroup TypeIndex TypeSelector : string.

Local Abbreviation lVariable := (Variable_ EOF unicode_IsLetter unicode_IsDigit
                                   TypePath TypeExpression TypeGroup TypeIndex TypeSelector).
Local Abbreviation lTemplate := (Template EOF unicode_IsLetter unicode_IsDigit
                                   TypePath TypeExpression TypeGroup TypeIndex TypeSelector).

Ltac step H :=
  let a := fresh "a" in
  let q := fresh "q" in
  let E := fresh "E" in
  apply bind_Ret in H as (a & q & E & H).

Lemma Text_level fuel : keepsLevel (Text EOF fuel).
Proof.
  intros p b p' H. unfold Text in H.
  step H. apply keepsSink_Read in E.
  destruct (negb (IsTemplateTextChar a)).
  - step H. apply keepsSink_Unread in E0. inversion H; subst.
    rewrite E0, E. reflexivity.
  - step H.
    assert (Hq : ev q0 = ev q).
    { revert E0. apply keepsSink_loop. intros buf.
      apply keepsSink_bind; [apply keepsSink_Read|]. intros c.
      apply keepsSink_if; [|apply keepsSink_ret].
      apply keepsSink_bind; [apply keepsSink_Unread | intros; apply keepsSink_ret]. }
    inversion H; subst. cbn. rewrite Hq, E. reflexivity.
Qed.

Lemma Variable_level fuel : keepsLevel (lVariable fuel).
Proof.
  intros p b p' H. unfold Variable_ in H.
  step H. apply keepsSink_Read in E.
  destruct (negb (a =? 36)).
  - step H. apply keepsSink_Unread in E0. inversion H; subst.
    rewrite E0, E. reflexivity.
  - step H. apply keepsSink_Read in E0.
    destruct (a0 =? 92).
    + inversion H; subst. cbn. rewrite E0, E. reflexivity.
    + step H. apply keepsSink_Unread in E1.
      step H. apply Level_Ret in E2 as [-> ->].
      do 2 step H.
      apply SetLevel_then_ret in H. rewrite H, E1, E0, E. reflexivity.
Qed.


End TemplateLevel.


(** ** Keywords *)

Section SimplifyFacts.

Variables TypePath TypeIf TypeElse TypeEnd TypeFor TypeBreak : string.

Local Abbreviation sNode := (simplifyNode TypePath TypeIf TypeElse TypeEnd TypeFor TypeBreak).
Local Abbreviation sTop := (simplify TypePath TypeIf TypeElse TypeEnd TypeFor TypeBreak).

Hypothesis If_not_Path : TypeIf <> TypePath.
Hypothesis Else_not_Path : TypeElse <> TypePath.
Hypothesis End_not_Path : TypeEnd <> TypePath.
Hypothesis For_not_Path : TypeFor <> TypePath.
Hypothesis Break_not_Path : TypeBreak <> TypePath.

Lemma simplifyNode_tag (node : Graph) :
  sNode node = node \/
  (thisString node = TypePath /\
   (TypePath =? thisString (sNode node))%string = false /\
   Out (sNode node) = deleteAt 0 (Out node)).
Proof.
  unfold simplifyNode.
  destruct (TypePath =? thisString node)%string eqn:EP; [|left; reflexivity].
  apply String.eqb_eq in EP. symmetry in EP.
  repeat match goal with
         | |- context [if ?b then _ else _] => destruct b
         end;
    try (left; reflexivity);
    right; (split; [exact EP|]); (split; [|reflexivity]);
    cbn [thisString This payloadString]; apply String.eqb_neq; congruence.
Qed.

Lemma simplifyNode_idem (node : Graph) : sNode (sNode node) = sNode node.
Proof.
  destruct (simplifyNode_tag node) as [E | (_ & E & _)].
  - rewrite E. exact E.
  - unfold simplifyNode at 1. rewrite E. reflexivity.
Qed.

(** X17. simplify works on the children of the template one by one: it
    keeps their number and their order, and a second pass changes nothing
    more, because a node it has made a keyword is no longer a path.  A
    node it rewrites loses exactly its first child. *)
Theorem simplify_once (t : Graph) :
  sTop (sTop t) = sTop t /\
  List.length (Out (sTop t)) = List.length (Out t) /\
  (forall k node, nth_error (Out t) k = Some node ->
     exists node', nth_error (Out (sTop t)) k = Some node' /\
       (node' = node \/
        (thisString node = TypePath /\ thisString node' <> TypePath /\
         Out node' = deleteAt 0 (Out node)))).
Proof.
  split; [|split].
  - unfold simplify. cbn [This Out]. f_equal.
    rewrite map_map. apply map_ext. exact simplifyNode_idem.
  - unfold simplify. cbn [Out]. apply length_map.
  - intros k node Hk. exists (sNode node). split.
    + unfold simplify. cbn [Out]. rewrite nth_error_map, Hk. reflexivity.
    + destruct (simplifyNode_tag node) as [E | (E0 & E1 & E2)]; [left; exact E|].
      right. split; [exact E0|split].
      * apply String.eqb_neq in E1. congruence.
      * exact E2.
Qed.

End SimplifyFacts.

Lemma simplify_once_witness :
  let t := Node (PString "!t")
             [text "a"; Node (PString "!p") [leaf "if"; Node (PString "!g") [leaf "x"]];
              Node (PString "!p") [leaf "x"; leaf "if"];
              Node (PString "!p") [leaf "end"]] in
  let s := simplify "!p" "!if" "!else" "!end" "!for" "!break" in
  s (s t) = s t /\
  List.length (Out (s t)) = List.length (Out t) /\
  (forall k node, nth_error (Out t) k = Some node ->
     exists node', nth_error (Out (s t)) k = Some node' /\
       (node' = node \/
        (thisString node = "!p"%string /\ thisString node' <> "!p"%string /\
         Out node' = deleteAt 0 (Out node)))).
Proof.
  intros t s.
  apply (simplify_once "!p" "!if" "!else" "!end" "!for" "!break"); discriminate.
Defined.

(** ** Templates that flow leaves flat *)

Section FlowFlat.

Variables TypeTemplate TypeIf TypeElse TypeEnd TypeFor : string.

Local Abbreviation qFlow := (flow TypeTemplate TypeIf TypeElse TypeEnd TypeFor).
Local Abbreviation qFlowLoop := (flowLoop TypeTemplate TypeIf TypeElse TypeEnd TypeFor).
Local Abbreviation qUnopened := (unopened TypeIf TypeEnd TypeFor).

Lemma flowLoop_unopened rest :
  forall f pre n nod,
    n <= 0 ->
    qUnopened n rest = true ->
    (List.length rest < f)%nat ->
    qFlowLoop f (pre ++ rest) (List.length pre) n nod = Done (pre ++ rest).
Proof.
  induction rest as [|x r IH]; intros f pre n nod Hn Hq Hf.
  - destruct f as [|f]; [cbn in Hf; lia|].
    rewrite flowLoop_S. rewrite app_nil_r.
    replace (nth_error pre (List.length pre)) with (@None Graph)
      by (symmetry; apply nth_error_None; lia).
    reflexivity.
  - destruct f as [|f]; [cbn in Hf; lia|].
    cbn [unopened] in Hq. apply andb_prop in Hq as [H1 Hq].
    apply Z.leb_le in H1.
    rewrite flowLoop_S, nth_error_middle. cbv zeta.
    set (n1 := if isOpen TypeIf TypeFor x then n + 1 else n) in *.
    set (n2 := if isEnd TypeEnd x then n1 - 1 else n1) in *.
    assert (H2 : n2 <= 0) by (unfold n2; destruct (isEnd TypeEnd x); lia).
    replace (n1 =? 1) with false by (symmetry; apply Z.eqb_neq; lia).
    rewrite !andb_false_r.
    replace (n2 =? 0) with (negb (isEnd TypeEnd x) && (n2 =? 0))
      by (unfold n2; destruct (isEnd TypeEnd x); cbn [negb andb];
          [symmetry; apply Z.eqb_neq; lia | reflexivity]).
    destruct (isEnd TypeEnd x); cbn [negb andb];
      (replace (0 <? n2) with false by (symmetry; apply Z.ltb_ge; lia));
      specialize (IH f (pre ++ [x]) n2 nod H2 Hq ltac:(cbn in Hf; lia));
      rewrite <- app_assoc, length_app in IH; cbn [app List.length] in IH;
      rewrite Nat.add_1_r in IH; exact IH.
Qed.

(** X18. flow returns the template as it is as long as its counter has
    not reached 1.  So a template with no If and no For is left as it is,
    Else and End nodes included; and after an End that closes nothing the
    counter is at -1, so that the If or For that follows opens no block:
    its body and its End stay beside it. *)
Theorem flow_leaves_flat (fuel : nat) (t : Graph) :
  qUnopened 0 (Out t) = true ->
  (List.length (Out t) + 1 < fuel)%nat ->
  qFlow fuel t = Done t.
Proof.
  intros Hq Hf. destruct fuel as [|f]; [lia|].
  pose proof (flowLoop_unopened (Out t) f [] 0 None ltac:(lia) Hq ltac:(lia)) as H.
  cbn [app List.length] in H.
  destruct t as [v l]. apply flow_of_loop. exact H.
Qed.

End FlowFlat.

Lemma flow_leaves_flat_witness :
  let t := Node (PString "!t")
             [text "a"; endNode0; ifNode; text "b"; elseNode0; text "c"; endNode0] in
  flow0 10 t = Done t.
Proof.
  intros t.
  apply (flow_leaves_flat "!t" "!if" "!else" "!end" "!for" 10 t);
    [reflexivity | cbn; lia].
Defined.

(** ** The interpreter *)

Section ProcessFacts.

Variables TypePath TypeExpression TypeIf TypeElse TypeFor TypeBreak : string.
Variable Eval : Graph -> option Graph -> value * Graph.
Variable EvalBool : Graph -> option Graph -> bool * Graph.
Variable assign : Graph -> option Graph -> Graph -> Graph.
Variable gText : option Graph -> string.
Variable _string : value -> string.

Local Abbreviation iProcess := (process TypePath TypeExpression TypeIf TypeElse TypeFor
                                  TypeBreak Eval EvalBool assign gText _string).
Local Abbreviation iLiteral := (literalNode TypePath TypeExpression TypeIf TypeElse TypeFor
                                  TypeBreak).

Lemma literalNode_tests x :
  iLiteral x = true ->
  (thisString x =? TypePath)%string = false /\
  (thisString x =? TypeExpression)%string = false /\
  (thisString x =? TypeIf)%string = false /\
  (thisString x =? TypeElse)%string = false /\
  (thisString x =? TypeFor)%string = false /\
  (thisString x =? TypeBreak)%string = false.
Proof.
  unfold literalNode. intros H.
  repeat (apply andb_prop in H as [H ?]).
  repeat split; apply negb_true_iff; assumption.
Qed.

(** One turn of [process] on a node that is no tag. *)
Lemma process_literal f v x l c buf :
  iLiteral x = true ->
  iProcess (S f) (Some (Node v (x :: l))) c buf
  = iProcess (S f) (Some (Node v l)) c (buf ++ thisString x)%string.
Proof.
  intros H. destruct (literalNode_tests x H) as (H1 & H2 & H3 & H4 & H5 & H6).
  cbn [process Out]. rewrite H1, H2, H3, H4, H5, H6. reflexivity.
Qed.

Lemma process_literals pre : forall f v l c buf,
  forallb iLiteral pre = true ->
  iProcess (S f) (Some (Node v (pre ++ l))) c buf
  = iProcess (S f) (Some (Node v l)) c (buf ++ textsOf pre)%string.
Proof.
  induction pre as [|x pre IH]; intros f v l c buf Hall.
  - cbn [app textsOf]. rewrite sapp_nil_r. reflexivity.
  - cbn [forallb] in Hall. apply andb_prop in Hall as [Hx Hall].
    cbn [app textsOf]. rewrite process_literal by exact Hx.
    rewrite IH by exact Hall. rewrite sapp_assoc. reflexivity.
Qed.

Hypothesis Break_not_Path : TypeBreak <> TypePath.
Hypothesis Break_not_Expression : TypeBreak <> TypeExpression.
Hypothesis Break_not_If : TypeBreak <> TypeIf.
Hypothesis Break_not_Else : TypeBreak <> TypeElse.
Hypothesis Break_not_For : TypeBreak <> TypeFor.

Lemma process_break f v brk l c buf :
  thisString brk = TypeBreak ->
  iProcess (S f) (Some (Node v (brk :: l))) c buf = Done (c, buf, true).
Proof.
  intros H. cbn [process Out]. rewrite H.
  apply String.eqb_neq in Break_not_Path, Break_not_Expression, Break_not_If,
    Break_not_Else, Break_not_For.
  rewrite Break_not_Path, Break_not_Expression, Break_not_If, Break_not_Else,
    Break_not_For, String.eqb_refl.
  reflexivity.
Qed.

(** X19. Nodes that are no tags are written one after the other, as they
    are, and leave the context as it is; End and Template nodes are among
    them.  A Break node ends the processing: the nodes before it are
    written, the nodes after it are not looked at, and process returns
    true. *)
Theorem process_literals_until_break
    (f : nat) (v : payload) (pre : list Graph) (c : Graph) (buf : string) :
  forallb iLiteral pre = true ->
  iProcess (S f) (Some (Node v pre)) c buf = Done (c, (buf ++ textsOf pre)%string, false) /\
  (forall brk rest,
     thisString brk = TypeBreak ->
     iProcess (S f) (Some (Node v (pre ++ brk :: rest))) c buf
     = Done (c, (buf ++ textsOf pre)%string, true)).
Proof.
  intros Hall. split.
  - rewrite <- (app_nil_r pre) at 1. rewrite process_literals by exact Hall.
    reflexivity.
  - intros brk rest Hb. rewrite process_literals by exact Hall.
    apply process_break. exact Hb.
Qed.

End ProcessFacts.

Lemma process_literals_until_break_witness :
  let pre := [text "a "; endNode0; text " b"] in
  process0 1 (Some (Node (PString "!t") pre)) (leaf "ctx") "> "
  = Done (leaf "ctx", ("> " ++ textsOf pre)%string, false) /\
  (forall brk rest,
     thisString brk = "!break"%string ->
     process0 1 (Some (Node (PString "!t") (pre ++ brk :: rest))) (leaf "ctx") "> "
     = Done (leaf "ctx", ("> " ++ textsOf pre)%string, true)).
Proof.
  intros pre.
  apply (process_literals_until_break "!p" "!e" "!if" "!else" "!for" "!break"
           noEval noEvalBool noAssign noText nilString
           (neq_by_eqb "!break" "!p" eq_refl) (neq_by_eqb "!break" "!e" eq_refl)
           (neq_by_eqb "!break" "!if" eq_refl) (neq_by_eqb "!break" "!else" eq_refl)
           (neq_by_eqb "!break" "!for" eq_refl)
           0 (PString "!t") pre (leaf "ctx") "> ").
  reflexivity.
Defined.

Section ProcessBlocks.

Variables TypePath TypeExpression TypeIf TypeElse TypeFor TypeBreak : string.
Variable Eval : Graph -> option Graph -> value * Graph.
Variable EvalBool : Graph -> option Graph -> bool * Graph.
Variable assign : Graph -> option Graph -> Graph -> Graph.
Variable gText : option Graph -> string.
Variable _string : value -> string.

Local Abbreviation bProcess := (process TypePath TypeExpression TypeIf TypeElse TypeFor
                                  TypeBreak Eval EvalBool assign gText _string).
Local Abbreviation bLiteral := (literalNode TypePath TypeExpression TypeIf TypeElse TypeFor
                                  TypeBreak).

Hypothesis If_not_Path : TypeIf <> TypePath.
Hypothesis If_not_Expression : TypeIf <> TypeExpression.
Hypothesis Else_not_Path : TypeElse <> TypePath.
Hypothesis Else_not_Expression : TypeElse <> TypeExpression.
Hypothesis Else_not_If : TypeElse <> TypeIf.


Hypothesis For_not_Path : TypeFor <> TypePath.
Hypothesis For_not_Expression : TypeFor <> TypeExpression.
Hypothesis For_not_If : TypeFor <> TypeIf.
Hypothesis For_not_Else : TypeFor <> TypeElse.
Hypothesis Break_not_Path : TypeBreak <> TypePath.
Hypothesis Break_not_Expression : TypeBreak <> TypeExpression.
Hypothesis Break_not_If : TypeBreak <> TypeIf.
Hypothesis Break_not_Else : TypeBreak <> TypeElse.
Hypothesis Break_not_For : TypeBreak <> TypeFor.

(** A For node whose body, on every context and buffer, either writes a
    text and goes on, or writes a text and breaks. *)
Lemma process_for_body f' v forNode body gi rest c c1 buf txt (brk : bool) :
  thisString forNode = TypeFor ->
  Eval c (GetAt (GetAt (Some forNode) 0) 1) = (VGraph (Some gi), c1) ->
  GetAt (Some forNode) 1 = Some body ->
  (forall c0 b0, bProcess f' (Some body) c0 b0 = Done (c0, (b0 ++ txt)%string, brk)) ->
  let var := GetAt (GetAt (GetAt (Some forNode) 0) 0) 0 in
  let es := if brk then firstn 1 (Out gi) else Out gi in
  bProcess (S f') (Some (Node v (forNode :: rest))) c buf
  = bProcess (S f') (Some (Node v rest))
      (fold_left (fun c ee => assign c var ee) es c1)
      (buf ++ times (List.length es) txt)%string.
Proof.
  intros Hs Hev Hbody Hb var es.
  apply String.eqb_neq in For_not_Path, For_not_Expression, For_not_If, For_not_Else.
  cbn [process Out]. rewrite Hs, For_not_Path, For_not_Expression, For_not_If,
    For_not_Else, String.eqb_refl, Hev, Hbody.
  fold var. subst es. clear Hev.
  generalize (Out gi) as l. intros l. revert c1 buf.
  induction l as [|ee l IH]; intros c1 buf.
  - destruct brk; cbn [firstn fold_left List.length times]; rewrite sapp_nil_r;
      reflexivity.
  - rewrite Hb. destruct brk.
    + cbn [firstn fold_left List.length times]. rewrite sapp_nil_r. reflexivity.
    + rewrite IH. cbn [fold_left List.length times]. rewrite sapp_assoc. reflexivity.
Qed.


End ProcessBlocks.


(** The two renderings above: [yes.] when the condition holds and [no.]
    when it does not. *)
Lemma process_if_else_renders :
  let t := Node (PString "!t") (ifFlowed :: elseFlowed :: [text "."]) in
  Process "!p" "!e" "!if" "!else" "!for" "!break"
          noEval yesEvalBool noAssign noText nilString 3 t (leaf "ctx")
  = Done "yes."%string /\
  Process0 3 t (leaf "ctx") = Done "no."%string.
Proof. split; reflexivity. Qed.


(** The two renderings above: the body once for each of the three
    elements, and once when it breaks; the text after the For is written
    in both. *)
Lemma process_for_each_renders :
  let r := Process "!p" "!e" "!if" "!else" "!for" "!break"
             (listEval list3) noEvalBool addAssign noText nilString 3 in
  r (Node (PString "!t") (forNode0 :: [text "."])) (leaf "ctx") = Done "xxx."%string /\
  r (Node (PString "!t") (forBreak :: [text "."])) (leaf "ctx") = Done "x."%string.
Proof. split; reflexivity. Qed.

(** ** The log, in binary form *)

Lemma Write_at_end (b : list Z) (d : list Z) :
  Write b (mkFile d (Z.of_nat (List.length d)))
  = mkFile (d ++ b) (Z.of_nat (List.length d) + Z.of_nat (List.length b)).
Proof.
  unfold Write. cbn [data offset]. rewrite Nat2Z.id.
  rewrite firstn_all, Nat.sub_diag. cbn [repeat app].
  rewrite skipn_all2 by lia. rewrite app_nil_r. reflexivity.
Qed.

Lemma Seek_end (fl : File) :
  Seek 0 2 fl = (Z.of_nat (List.length (data fl)), None,
                 mkFile (data fl) (Z.of_nat (List.length (data fl)))).
Proof.
  unfold Seek. change (2 =? 2) with true. cbv iota. rewrite Z.add_0_r.
  replace (Z.of_nat (List.length (data fl)) <? 0) with false
    by (symmetry; apply Z.ltb_ge; lia).
  reflexivity.
Qed.

Lemma LogAddBinary_eq (log : Log) (b : list Z) :
  LogAddBinary log b
  = (Z.of_nat (List.length (data (f log))),
     mkLog (mkFile (data (f log) ++ b)
                   (Z.of_nat (List.length (data (f log))) + Z.of_nat (List.length b)))
           (autoSync log)).
Proof.
  unfold LogAddBinary. rewrite Seek_end, Write_at_end.
  unfold Sync. destruct (autoSync log); reflexivity.
Qed.

Section LogBinaryFacts.

Variable Binary : Graph -> option (list Z).

(** X22. The log is append-only.  AddBinary puts the bytes after the
    last byte of the file, wherever an earlier Get has left the offset of
    the file, and returns the position of their first byte, the size the
    file had; so the position returned for the next object is this
    position plus the length of the bytes.  Add is AddBinary of the
    encoding of the graph. *)
Theorem AddBinary_appends (log : Log) (b b' : list Z) :
  let r := LogAddBinary log b in
  data (f (snd r)) = data (f log) ++ b /\
  fst r = Z.of_nat (List.length (data (f log))) /\
  fst (LogAddBinary (snd r) b') = fst r + Z.of_nat (List.length b) /\
  autoSync (snd r) = autoSync log /\
  (forall g, Binary g = Some b -> LogAdd Binary log g = r).
Proof.
  cbv zeta. rewrite !LogAddBinary_eq. cbn [fst snd f data autoSync].
  repeat split.
  - rewrite length_app. lia.
  - intros g Hg. unfold LogAdd. rewrite Hg, Seek_end, Write_at_end.
    unfold Sync. destruct (autoSync log); reflexivity.
Qed.

End LogBinaryFacts.

Lemma AddBinary_appends_witness :
  LogAdd binWrite emptyLog T1 = LogAddBinary emptyLog bytes1.
Proof.
  apply (proj2 (proj2 (proj2 (proj2
           (AddBinary_appends binWrite emptyLog bytes1 []))))).
  reflexivity.
Defined.

Section GetBinaryFacts.

Variable BinParser : Type.
Variable NewBinParser : File -> BinParser.
Variable header : BinParser -> bool * BinParser.
Variable line : BinParser -> Z * BinParser.
Variable parserN : BinParser -> Z.
Variable parserFile : BinParser -> File.

Local Abbreviation gGetBinary :=
  (LogGetBinary BinParser NewBinParser header line parserN parserFile).
Local Abbreviation gSkipLines := (skipLines BinParser line).

Lemma ReadAt_inside (pre b post : list Z) (o : Z) :
  ReadAt (Z.of_nat (List.length b)) (Z.of_nat (List.length pre))
         (mkFile (pre ++ b ++ post) o)
  = (b, None).
Proof.
  unfold ReadAt. cbn [data].
  replace (Z.of_nat (List.length pre) <? 0) with false
    by (symmetry; apply Z.ltb_ge; lia).
  rewrite !Nat2Z.id.
  rewrite skipn_app, skipn_all, Nat.sub_diag. cbn [skipn app].
  rewrite firstn_app, firstn_all, Nat.sub_diag. cbn [firstn].
  rewrite app_nil_r, Nat.sub_diag. cbn [repeat]. rewrite app_nil_r.
  rewrite Nat.ltb_irrefl. reflexivity.
Qed.

(** X23. GetBinary.  A negative position gives the error of Seek, and a
    position at which the parser finds no header gives no object and no
    error; the third value is 0 in both cases.  When the parser finds a
    header and then lines up to a line of level 0, having consumed as many
    bytes as the object written at that position has, GetBinary returns
    these bytes as they were written, with no error; its third value is
    the number of the bytes, not the position of the next object. *)
Theorem GetBinary_returns_bytes
    (fuel : nat) (auto : bool) (pre b post : list Z) (o i : Z) (p1 p2 : BinParser) :
  let log := mkLog (mkFile (pre ++ b ++ post) o) auto in
  (i < 0 ->
   gGetBinary fuel log i = Done ((None, Some (errors_New "invalid argument"), 0), log)) /\
  (0 <= i ->
   header (NewBinParser (mkFile (pre ++ b ++ post) i)) = (false, p1) ->
   gGetBinary fuel log i = Done ((None, None, 0), mkLog (parserFile p1) auto)) /\
  (i = Z.of_nat (List.length pre) ->
   header (NewBinParser (mkFile (pre ++ b ++ post) i)) = (true, p1) ->
   gSkipLines fuel p1 = Some p2 ->
   parserN p2 = Z.of_nat (List.length b) ->
   data (parserFile p2) = pre ++ b ++ post ->
   gGetBinary fuel log i
   = Done ((Some b, None, Z.of_nat (List.length b)), mkLog (parserFile p2) auto)).
Proof.
  cbv zeta. split; [|split].
  - intros Hi. unfold LogGetBinary, Seek. cbn [f autoSync].
    change (0 =? 2) with false. cbv iota.
    replace (i <? 0) with true by (symmetry; apply Z.ltb_lt; exact Hi).
    reflexivity.
  - intros Hi Hh. unfold LogGetBinary, Seek. cbn [f autoSync data].
    change (0 =? 2) with false. cbv iota.
    replace (i <? 0) with false by (symmetry; apply Z.ltb_ge; exact Hi).
    rewrite Hh. reflexivity.
  - intros Hi Hh Hl Hn Hd. unfold LogGetBinary, Seek. cbn [f autoSync data].
    change (0 =? 2) with false. cbv iota.
    replace (i <? 0) with false by (symmetry; apply Z.ltb_ge; lia).
    rewrite Hh. cbn [negb]. rewrite Hl, Hn.
    destruct (parserFile p2) as [d2 o2] eqn:E. cbn [data] in Hd. subst d2 i.
    rewrite ReadAt_inside. reflexivity.
Qed.

End GetBinaryFacts.

Lemma GetBinary_returns_bytes_witness :
  let log := mkLog (mkFile (bytes1 ++ bytes2 ++ []) 0) true in
  let i := Z.of_nat (List.length bytes1) in
  let fl := mkFile (bytes1 ++ bytes2 ++ []) (i + Z.of_nat (List.length bytes2)) in
  getBinary0 10 log (-1) = Done ((None, Some (errors_New "invalid argument"), 0), log) /\
  getBinary0 10 log 1
  = Done ((None, None, 0), mkLog (mkFile (bytes1 ++ bytes2 ++ []) 1) true) /\
  getBinary0 10 log i
  = Done ((Some bytes2, None, Z.of_nat (List.length bytes2)), mkLog fl true).
Proof.
  intros log i fl.
  split; [|split].
  - apply (proj1 (GetBinary_returns_bytes binState binNew binHeader binLine snd fst
                    10 true bytes1 bytes2 [] 0 (-1) (binNew fl) (binNew fl))).
    reflexivity.
  - apply (proj1 (proj2 (GetBinary_returns_bytes binState binNew binHeader binLine snd fst
                    10 true bytes1 bytes2 [] 0 1
                    (mkFile (bytes1 ++ bytes2 ++ []) 1, 0) (binNew fl))));
      [vm_compute; discriminate | reflexivity].
  - apply (proj2 (proj2 (GetBinary_returns_bytes binState binNew binHeader binLine snd fst
                    10 true bytes1 bytes2 [] 0 i
                    (mkFile (bytes1 ++ bytes2 ++ []) (i + 3), 3)
                    (fl, Z.of_nat (List.length bytes2)))));
      reflexivity.
Defined.

(** The log that holds T1 and then T2: the positions AddBinary returned,
    and what GetBinary gives at each; the third value at the second
    position is the length of the second object, 8, while the object ends
    at 24. *)
Lemma log_binary_round_trip :
  data (f logB12) = bytes1 ++ bytes2 /\
  fst (LogAddBinary emptyLog bytes1) = 0 /\
  fst (LogAddBinary (snd (LogAddBinary emptyLog bytes1)) bytes2) = 16 /\
  mapOutcome fst (getBinary0 10 logB12 0) = Done (Some bytes1, None, 16) /\
  mapOutcome fst (getBinary0 10 logB12 16) = Done (Some bytes2, None, 8).
Proof. vm_compute. repeat split; reflexivity. Qed.
